(** * telefonbuch-scraper: the scrape/ingest engine, embedded in Rocq

    A shallow embedding of [telefonbuch-scraper.py]: the query-name
    enumerator, the recursive address flattener [parse_address], the
    per-page row numbering, the SQLite table with its pending
    transaction, and the orchestrating loop of [main_inner].

    Conventions.
    - A Python [str] is a list of Unicode code points ([pystr]).
    - Python integers are [Z]; numbers captured by a [[0-9]+] regex
      group are [N].
    - An lxml element is a rose tree carrying its tag, its text and
      its child elements in document order.
    - Code that mutates shared objects ([NextIdCounter], the [rows]
      accumulator, the database connection) is written in explicit
      state-passing style. *)

From Stdlib Require Import String Ascii List ZArith NArith Bool Lia Arith.
Import ListNotations.

Set Implicit Arguments.

Local Open Scope Z_scope.

(* ===================================================================== *)
(** * Part I. Definitions                                                  *)
(* ===================================================================== *)

(** ** Python strings *)

Definition pystr := list N.

(** An ASCII literal as a Python string. *)
Definition py (s : string) : pystr :=
  List.map N_of_ascii (list_ascii_of_string s).

Definition pystr_eqb (a b : pystr) : bool :=
  if list_eq_dec N.eq_dec a b then true else false.

(** [c in s] for a one-character [c]. *)
Definition char_in (c : N) (s : pystr) : bool := existsb (N.eqb c) s.

(** [str.isspace] on one code point: the characters Python treats as
    whitespace. *)
Definition py_isspace (c : N) : bool :=
  (((9 <=? c) && (c <=? 13)) || ((28 <=? c) && (c <=? 32))
   || (c =? 133) || (c =? 160) || (c =? 5760)
   || ((8192 <=? c) && (c <=? 8202)) || (c =? 8232) || (c =? 8233)
   || (c =? 8239) || (c =? 8287) || (c =? 12288))%N.

Fixpoint lstrip (s : pystr) : pystr :=
  match s with
  | [] => []
  | c :: s' => if py_isspace c then lstrip s' else s
  end.

Definition rstrip (s : pystr) : pystr := rev (lstrip (rev s)).

(** [str.strip()] *)
Definition strip (s : pystr) : pystr := rstrip (lstrip s).

(** ** Configuration (module level of the script) *)

Definition string_ascii_lowercase : pystr := py "abcdefghijklmnopqrstuvwxyz".
Definition string_digits : pystr := py "0123456789".

Definition max_results_per_page : Z := 15.
Definition results_per_page : Z := max_results_per_page.

(** [string.ascii_lowercase + string.digits + "äöüß"] *)
Definition query_name_alphabet : pystr :=
  string_ascii_lowercase ++ string_digits ++ [228; 246; 252; 223]%N.

Definition query_name_length : nat := 2.

(** The keys of the [telefonbuch_columns] dict, in insertion order. *)
Definition telefonbuch_columns : list pystr :=
  List.map py
    [ "name0"; "firstname0"; "nameextension0"; "profession0";
      "nameconnection1"; "name1"; "firstname1"; "nameextension1";
      "profession1";
      "nameconnection2"; "name2"; "firstname2"; "nameextension2";
      "profession2";
      "extendedtext"; "street"; "housenumber"; "zipcode"; "city";
      "areacode"; "phonenumber"; "callrate";
      "commercial"; "webadress"; "advertising"; "recordtype" ]%string.

(** ** lxml elements *)

#[local] Unset Elimination Schemes.
Inductive element : Type :=
  Element (tag : pystr) (text : option pystr) (children : list element).
#[local] Set Elimination Schemes.

Definition el_tag (e : element) : pystr :=
  match e with Element t _ _ => t end.
Definition el_text (e : element) : option pystr :=
  match e with Element _ t _ => t end.
Definition el_children (e : element) : list element :=
  match e with Element _ _ cs => cs end.

Definition has_tag (t : pystr) (e : element) : bool := pystr_eqb (el_tag e) t.

(** [elem.findall(tag)] for a plain tag name: the direct children
    carrying that tag, in document order. *)
Definition findall (t : pystr) (e : element) : list element :=
  filter (has_tag t) (el_children e).

(** [elem.find(tag)]: the first such child, or [None]. *)
Definition find (t : pystr) (e : element) : option element :=
  List.find (has_tag t) (el_children e).

(** All elements strictly below [e], in document order. *)
Fixpoint descendants (e : element) : list element :=
  match e with
  | Element _ _ cs =>
      (fix go (l : list element) : list element :=
         match l with
         | [] => []
         | c :: l' => c :: descendants c ++ go l'
         end) cs
  end.

(** [xml_root.findall(".//entries/address")] *)
Definition findall_entries_address (root : element) : list element :=
  flat_map (findall (py "address"))
           (filter (has_tag (py "entries")) (descendants root)).

(** ** NextIdCounter: a mutable integer *)

Record NextIdCounter : Type := { next_id : Z }.

Definition counter_get (c : NextIdCounter) : Z := next_id c.
Definition counter_increment (c : NextIdCounter) : NextIdCounter :=
  {| next_id := next_id c + 1 |}.

(** ** parse_address *)

(** One flat row: the dict built by [parse_address].  [row_cols] holds
    the entries for the keys of [telefonbuch_columns], in that order;
    [None] is Python's [None]. *)
Record row : Type := {
  row_id : Z;
  row_parent_id : option Z;
  row_cols : list (pystr * option pystr)
}.

(** Truth value of a string: the empty string is false. *)
Definition str_bool (s : pystr) : bool :=
  match s with [] => false | _ :: _ => true end.

(** The value stored for one column of one address element:
    [elem.text.strip()] if [elem is not None and elem.text], else
    [None]. *)
Definition column_value (address_elem : element) (col : pystr) : option pystr :=
  match find col address_elem with
  | Some elem =>
      match el_text elem with
      | Some text => if str_bool text then Some (strip text) else None
      | None => None
      end
  | None => None
  end.

Definition make_row (current_id : Z) (parent_id : option Z)
    (address_elem : element) : row :=
  {| row_id := current_id;
     row_parent_id := parent_id;
     row_cols :=
       List.map (fun col => (col, column_value address_elem col))
                telefonbuch_columns |}.

(** [row[col]] for a key of [telefonbuch_columns]. *)
Definition row_get (r : row) (col : pystr) : option (option pystr) :=
  option_map snd (List.find (fun kv => pystr_eqb (fst kv) col) (row_cols r)).

(** The state [parse_address] works on: the shared counter and the
    shared [rows] list it appends to. *)
Definition parse_state : Type := (NextIdCounter * list row)%type.

Fixpoint parse_address (address_elem : element) (parent_id : option Z)
    (st : parse_state) : parse_state :=
  match address_elem with
  | Element _ _ cs =>
      let current_id := counter_get (fst st) in
      let ctr := counter_increment (fst st) in
      let rows := snd st ++ [make_row current_id parent_id address_elem] in
      (fix loop (l : list element) (st : parse_state) : parse_state :=
         match l with
         | [] => st
         | child :: l' =>
             if has_tag (py "address") child
             then loop l' (parse_address child (Some current_id) st)
             else loop l' st
         end) cs (ctr, rows)
  end.

(** Lines 744-752: every top-level address starts a fresh [rows] list
    on the shared counter; the results are concatenated. *)
Fixpoint flatten_addresses (addresses : list element) (ctr : NextIdCounter)
    (all_rows : list row) : NextIdCounter * list row :=
  match addresses with
  | [] => (ctr, all_rows)
  | addr :: rest =>
      let '(ctr', rows) := parse_address addr None (ctr, []) in
      flatten_addresses rest ctr' (all_rows ++ rows)
  end.

Definition all_rows_of (addresses : list element) (first_next_id : Z) : list row :=
  snd (flatten_addresses addresses {| next_id := first_next_id |} []).

(** ** Numbering the rows of one page (lines 764-782) *)

Record sql_row : Type := {
  sql_query_name : pystr;
  sql_query_offset : Z;
  sql_query_child_num : Z;
  sql_id : Z;
  sql_parent_id : option Z;
  sql_payload : list (option pystr)
}.

Definition is_none {A} (o : option A) : bool :=
  match o with None => true | Some _ => false end.

(** Loop state: [sql_rows], [row_query_offset], [query_child_num]. *)
Record numbering : Type := {
  sql_rows : list sql_row;
  row_query_offset : Z;
  query_child_num : Z
}.

Definition number_step (query_name : pystr) (s : numbering) (r : row) : numbering :=
  let query_child_num :=
    if is_none (row_parent_id r) then 0 else query_child_num s + 1 in
  let sql_rows :=
    sql_rows s ++
      [ {| sql_query_name := query_name;
           sql_query_offset := row_query_offset s;
           sql_query_child_num := query_child_num;
           sql_id := row_id r;
           sql_parent_id := row_parent_id r;
           sql_payload := List.map snd (row_cols r) |} ] in
  let row_query_offset :=
    if is_none (row_parent_id r) then row_query_offset s + 1
    else row_query_offset s in
  {| sql_rows := sql_rows;
     row_query_offset := row_query_offset;
     query_child_num := query_child_num |}.

Definition number_rows (query_name : pystr) (query_offset : Z)
    (all_rows : list row) : numbering :=
  fold_left (number_step query_name) all_rows
    {| sql_rows := []; row_query_offset := query_offset; query_child_num := 0 |}.

(** One page, from the top-level addresses to the tuples handed to
    [executemany]. *)
Definition page_numbering (query_name : pystr) (query_offset : Z)
    (addresses : list element) (first_next_id : Z) : numbering :=
  number_rows query_name query_offset (all_rows_of addresses first_next_id).

Definition page_sql_rows (query_name : pystr) (query_offset : Z)
    (addresses : list element) (first_next_id : Z) : list sql_row :=
  sql_rows (page_numbering query_name query_offset addresses first_next_id).

(** ** The query-name enumerator (lines 612-617) *)

(** [itertools.product(pool, repeat=n)]: the tuples in odometer order,
    the rightmost position advancing fastest. *)
Fixpoint product {A} (pool : list A) (repeat : nat) : list (list A) :=
  match repeat with
  | O => [[]]
  | S n => flat_map (fun x => List.map (fun y => x ++ [y]) pool) (product pool n)
  end.

(** Exceptions that end the script. *)
Inductive exn : Type :=
| IndexError              (* [query_name[0]] on an empty string *)
| ClientError             (* [session.get] raised after its retries *)
| AssertionError_status   (* [assert response.status == 200] *)
| ValueError_sessionid    (* no [<sessionid>] tag *)
| SystemExit_1            (* [sys.exit(1)]: no [<hitcount>] *)
| AssertionError_perpage  (* [assert actual_results_per_page == results_per_page] *)
| XMLSyntaxError          (* [lxml.etree.fromstring] *)
| IntegrityError.         (* a uniqueness constraint of the table *)

Inductive outcome (A : Type) : Type :=
| Ok (a : A)
| Raise (e : exn).
Arguments Ok {A} a.
Arguments Raise {A} e.

(** The loop body: [''.join(t)] is [t] itself; a name whose first
    character is a digit is skipped; indexing the empty name raises. *)
Fixpoint collect_query_names (tuples : list pystr) (query_name_list : list pystr)
    : outcome (list pystr) :=
  match tuples with
  | [] => Ok query_name_list
  | query_name :: rest =>
      match query_name with
      | [] => Raise IndexError
      | c :: _ =>
          if char_in c string_digits
          then collect_query_names rest query_name_list
          else collect_query_names rest (query_name_list ++ [query_name])
      end
  end.

Definition query_names (alphabet : pystr) (name_length : nat)
    : outcome (list pystr) :=
  collect_query_names (product alphabet name_length) [].

(** ** The HTTP session *)

Inductive search_action : Type :=
| BtnHidden            (* [btnhidden=Suchen]: start the search *)
| BtnPage (page : Z).  (* [startrecord=0&btnpage=page]: jump to a page *)

Inductive request : Type :=
| GetRoot
| GetPreferences (sessionid : Z)
| SavePreferences (sessionid : Z) (results_per_page : Z)
| Search (sessionid : Z) (name : pystr) (action : search_action).

(** What the script looks at in a response: the status, the three
    regex captures, the "still computing" marker, and the document
    [lxml.etree.fromstring] builds from the body ([None]: the body is
    not well-formed). *)
Record response : Type := {
  status : Z;
  sessionid_tag : option N;
  loading : bool;
  hitcount_tag : option N;
  perpage_tag : option N;
  document : option element
}.

Inductive reply : Type :=
| Failed                  (* the retrying client gave up and raised *)
| Reply (r : response).

Definition event : Type := (request * reply)%type.

(** The service as the script sees it: what one call of [session.get]
    for a request comes back with, given everything exchanged so far.
    The session is the retrying client that [main] sets up: within
    one call it may send the request again (on a status of 500, 502,
    503 or 504 and on any exception, 100 attempts at most) before it
    hands back a response or raises. *)
Definition session_t : Type := list event -> request -> reply.

(** ** The table and its open transaction *)

Record database : Type := {
  committed : list sql_row;   (* durable, visible to everyone *)
  pending : list sql_row      (* inserted since the last commit *)
}.

(** What a statement on the connection sees. *)
Definition table (d : database) : list sql_row := committed d ++ pending d.

(** [SELECT 1 FROM telefonbuch_scrape WHERE query_name = ?] returned a row. *)
Definition has_key (query_name : pystr) (t : list sql_row) : bool :=
  existsb (fun r => pystr_eqb (sql_query_name r) query_name) t.

(** [MAX(id)]: NULL on the empty table. *)
Definition max_id (t : list sql_row) : option Z :=
  match t with
  | [] => None
  | r :: t' => Some (fold_left Z.max (List.map sql_id t') (sql_id r))
  end.

(** [SELECT COALESCE(MAX(id), 0) FROM telefonbuch_scrape] *)
Definition coalesce_max_id (t : list sql_row) : Z :=
  match max_id t with Some m => m | None => 0 end.

(** The primary key on [id] and the unique index on
    [(query_name, query_offset, query_child_num)]. *)
Definition conflicts (r : sql_row) (t : list sql_row) : bool :=
  existsb (fun x =>
             (sql_id x =? sql_id r)
             || (pystr_eqb (sql_query_name x) (sql_query_name r)
                 && (sql_query_offset x =? sql_query_offset r)
                 && (sql_query_child_num x =? sql_query_child_num r))) t.

Definition db_commit (d : database) : database :=
  {| committed := committed d ++ pending d; pending := [] |}.

Definition db_insert (r : sql_row) (d : database) : database :=
  {| committed := committed d; pending := pending d ++ [r] |}.

(** ** The script's state and its monad *)

Record state : Type := {
  db : database;
  trace : list event      (* every call of session.get, with what came back *)
}.

Definition M (A : Type) : Type := state -> outcome A * state.

Definition ret {A} (a : A) : M A := fun st => (Ok a, st).
Definition raise {A} (e : exn) : M A := fun st => (Raise e, st).
Definition bind {A B} (m : M A) (f : A -> M B) : M B :=
  fun st =>
    match m st with
    | (Ok a, st') => f a st'
    | (Raise e, st') => (Raise e, st')
    end.

Declare Scope monad_scope.
Delimit Scope monad_scope with monad.
Notation "x <- m ;; k" := (bind m (fun x => k))
  (at level 61, m at next level, right associativity) : monad_scope.
Notation "m ;;; k" := (bind m (fun _ => k))
  (at level 61, right associativity) : monad_scope.
Local Open Scope monad_scope.

Definition get_table : M (list sql_row) := fun st => (Ok (table (db st)), st).

Definition assert_ {A} (b : bool) (e : exn) (a : A) : M A :=
  if b then ret a else raise e.

(** [async with session.get(url) as response]: one call of the
    retrying client; record it and hand back the response, or raise
    when the client gave up. *)
Definition session_get (session : session_t) (req : request) : M response :=
  fun st =>
    let rep := session (trace st) req in
    let st' := {| db := db st; trace := trace st ++ [(req, rep)] |} in
    match rep with
    | Failed => (Raise ClientError, st')
    | Reply r => (Ok r, st')
    end.

(** [db_cur.executemany(sql_insert_result, sql_rows)]: row after row,
    stopping at the first constraint violation. *)
Fixpoint executemany (rows : list sql_row) : M unit :=
  match rows with
  | [] => ret tt
  | r :: rest =>
      fun st =>
        if conflicts r (table (db st))
        then (Raise IntegrityError, st)
        else executemany rest {| db := db_insert r (db st); trace := trace st |}
  end.

(** [db_con.commit()] followed by [BEGIN EXCLUSIVE]. *)
Definition commit : M unit :=
  fun st => (Ok tt, {| db := db_commit (db st); trace := trace st |}).

(** ** The session client *)

(** [get_sessionid] *)
Definition get_sessionid (session : session_t) : M Z :=
  response <- session_get session GetRoot ;;
  assert_ (status response =? 200) AssertionError_status tt ;;;
  match sessionid_tag response with
  | Some n => ret (Z.of_N n)
  | None => raise ValueError_sessionid
  end.

(** [set_results_per_page]: open the preferences page, then save the
    page size; both replies are only checked for their status. *)
Definition set_results_per_page (session : session_t) (sessionid : Z) : M unit :=
  response <- session_get session (GetPreferences sessionid) ;;
  assert_ (status response =? 200) AssertionError_status tt ;;;
  response <- session_get session (SavePreferences sessionid results_per_page) ;;
  assert_ (status response =? 200) AssertionError_status tt.

(** The URL of a search: offset 0 starts the search, any other offset
    jumps to a page. *)
Definition search_request (sessionid : Z) (query_name : pystr) (query_offset : Z)
    : request :=
  Search sessionid query_name
    (if query_offset =? 0 then BtnHidden
     else BtnPage (1 + query_offset / max_results_per_page)).

(** The retry loop of [get_search_results], with [retries] rounds
    left.  Leaving the loop without a result count is
    [num_results == -1], hence [sys.exit(1)]. *)
Fixpoint poll_search_results (session : session_t) (req : request) (retries : nat)
    : M (N * response) :=
  match retries with
  | O => raise SystemExit_1
  | S retries' =>
      response <- session_get session req ;;
      assert_ (status response =? 200) AssertionError_status tt ;;;
      if loading response
      then poll_search_results session req retries'
      else
        match hitcount_tag response with
        | Some num_results => ret (num_results, response)
        | None => raise SystemExit_1
        end
  end.

(** [get_search_results]: returns [(num_results, xml_bytes)]. *)
Definition get_search_results (session : session_t) (sessionid : Z)
    (query_name : pystr) (query_offset : Z) : M (N * response) :=
  poll_search_results session (search_request sessionid query_name query_offset) 1000.

(** ** The orchestrator *)

(** [range(start, stop, step)] for a positive [step]. *)
Definition py_range (start stop step : Z) : list Z :=
  List.map (fun k => start + Z.of_nat k * step)
           (seq 0 (Z.to_nat ((stop - start + step - 1) / step))).

(** The page-size check (lines 733-736): only made when the tag is
    there. *)
Definition check_results_per_page (xml_bytes : response) : M unit :=
  match perpage_tag xml_bytes with
  | Some actual_results_per_page =>
      assert_ (Z.of_N actual_results_per_page =? results_per_page)
              AssertionError_perpage tt
  | None => ret tt
  end.

(** [lxml.etree.fromstring(xml_bytes)] *)
Definition fromstring (xml_bytes : response) : M element :=
  match document xml_bytes with
  | Some xml_root => ret xml_root
  | None => raise XMLSyntaxError
  end.

(** Lines 726-784: predict the next id, check the page size, parse
    the document, flatten and number its addresses, insert the rows. *)
Definition insert_page (query_name : pystr) (query_offset : Z)
    (xml_bytes : response) : M unit :=
  t <- get_table ;;
  let next_id := coalesce_max_id t + 1 in
  check_results_per_page xml_bytes ;;;
  xml_root <- fromstring xml_bytes ;;
  let addresses := findall_entries_address xml_root in
  executemany (page_sql_rows query_name query_offset addresses next_id).

(** The body of [for query_offset in range(...)], lines 664-788, for
    the already incremented [loop_idx].  The first round works on the
    page fetched before the loop; later rounds fetch their own.  The
    page in use is handed on as [xml_bytes]. *)
Definition page_body (session : session_t) (sessionid : Z) (query_name : pystr)
    (query_offset : Z) (loop_idx : Z) (xml_bytes : response) : M response :=
  xml_bytes <-
    (if loop_idx >? 0
     then res <- get_search_results session sessionid query_name query_offset ;;
          ret (snd res)
     else ret xml_bytes) ;;
  insert_page query_name query_offset xml_bytes ;;;
  ret xml_bytes.

Fixpoint page_loop (session : session_t) (sessionid : Z) (query_name : pystr)
    (offsets : list Z) (loop_idx : Z) (xml_bytes : response) : M unit :=
  match offsets with
  | [] => ret tt
  | query_offset :: rest =>
      let loop_idx := loop_idx + 1 in
      xml_bytes <- page_body session sessionid query_name query_offset
                     loop_idx xml_bytes ;;
      page_loop session sessionid query_name rest loop_idx xml_bytes
  end.

(** One round of [for query_idx, query_name in enumerate(query_name_list)]. *)
Definition process_query_name (session : session_t) (sessionid : Z)
    (query_name : pystr) : M unit :=
  t <- get_table ;;
  if has_key query_name t then ret tt
  else
    res <- get_search_results session sessionid query_name 0 ;;
    let '(num_results, xml_bytes) := res in
    if (num_results =? 0)%N then ret tt
    else
      page_loop session sessionid query_name
        (py_range 0 (Z.of_N num_results + 1) results_per_page) (-1) xml_bytes ;;;
      commit.

Fixpoint main_loop (session : session_t) (sessionid : Z)
    (query_name_list : list pystr) : M unit :=
  match query_name_list with
  | [] => ret tt
  | query_name :: rest =>
      process_query_name session sessionid query_name ;;;
      main_loop session sessionid rest
  end.

(** [main_inner], parameterised by the alphabet and the name length
    the script takes from its configuration.  What precedes the first
    request (starting the service, opening the connection and its
    first transaction, creating table and index if they do not exist)
    leaves the rows of the table as they are and is not modelled. *)
Definition main_inner_with (alphabet : pystr) (name_length : nat)
    (session : session_t) : M unit :=
  sessionid <- get_sessionid session ;;
  set_results_per_page session sessionid ;;;
  match query_names alphabet name_length with
  | Raise e => raise e
  | Ok query_name_list => main_loop session sessionid query_name_list
  end.

Definition main_inner (session : session_t) : M unit :=
  main_inner_with query_name_alphabet query_name_length session.

(** A run of the script against a store: the connection opens on the
    committed rows with an empty transaction. *)
Definition start (store : list sql_row) : state :=
  {| db := {| committed := store; pending := [] |}; trace := [] |}.

Definition run_with (alphabet : pystr) (name_length : nat) (session : session_t)
    (store : list sql_row) : outcome unit * state :=
  main_inner_with alphabet name_length session (start store).

Definition run (session : session_t) (store : list sql_row) : outcome unit * state :=
  main_inner session (start store).

(** What the store holds once the process is gone: the open
    transaction is rolled back. *)
Definition store_after (st : state) : list sql_row := committed (db st).

(** The requests a run sent. *)
Definition requests (st : state) : list request := List.map fst (trace st).

Definition is_search_for (query_name : pystr) (req : request) : bool :=
  match req with
  | Search _ name _ => pystr_eqb name query_name
  | _ => false
  end.

(** ** Reference definitions for the flattener

    These follow the specification's wording, not the script: a pure
    recursive pre-order numbering, against which [parse_address] is
    compared. *)

Definition is_address : element -> bool := has_tag (py "address").

(** The address nodes of a subtree: the node and, recursively, its
    direct [address] children. *)
Fixpoint address_count (e : element) : nat :=
  match e with
  | Element _ _ cs =>
      S ((fix go (l : list element) : nat :=
            match l with
            | [] => O
            | c :: l' => if is_address c then (address_count c + go l')%nat else go l'
            end) cs)
  end.

Fixpoint address_count_list (nodes : list element) : nat :=
  match nodes with
  | [] => O
  | c :: l' => (address_count c + address_count_list l')%nat
  end.

(** Depth-first pre-order: a node, then the pre-order of each of its
    address children, left to right. *)
Fixpoint preorder (e : element) : list element :=
  match e with
  | Element _ _ cs =>
      e :: (fix go (l : list element) : list element :=
              match l with
              | [] => []
              | c :: l' => if is_address c then preorder c ++ go l' else go l'
              end) cs
  end.

(** The specification's flattening: the node takes [first_id]; then
    each address child, in order, is flattened with the node's id as
    its [parent_id], starting at the next free id. *)
Fixpoint flatten_spec (e : element) (parent_id : option Z) (first_id : Z) : list row :=
  match e with
  | Element _ _ cs =>
      make_row first_id parent_id e ::
        (fix go (l : list element) (next : Z) : list row :=
           match l with
           | [] => []
           | c :: l' =>
               if is_address c
               then flatten_spec c (Some first_id) next
                      ++ go l' (next + Z.of_nat (address_count c))
               else go l' next
           end) cs (first_id + 1)
  end.

(** Siblings under one parent (or the top-level nodes, under [None]). *)
Fixpoint flatten_spec_list (parent_id : option Z) (nodes : list element)
    (first_id : Z) : list row :=
  match nodes with
  | [] => []
  | c :: l' =>
      flatten_spec c parent_id first_id
        ++ flatten_spec_list parent_id l' (first_id + Z.of_nat (address_count c))
  end.

(** The same walk written without [make_row]: the visits in order,
    each as (id, parent_id, node).  A node is visited, and takes the
    next id, before any of its children; a child is visited with the
    id of its immediate parent as parent_id; a top-level node is
    visited with parent_id null. *)
Fixpoint visit (e : element) (parent_id : option Z) (first_id : Z)
    : list (Z * option Z * element) :=
  match e with
  | Element _ _ cs =>
      (first_id, parent_id, e) ::
        (fix go (l : list element) (next : Z) : list (Z * option Z * element) :=
           match l with
           | [] => []
           | c :: l' =>
               if is_address c
               then visit c (Some first_id) next
                      ++ go l' (next + Z.of_nat (address_count c))
               else go l' next
           end) cs (first_id + 1)
  end.

Fixpoint visit_list (parent_id : option Z) (nodes : list element) (first_id : Z)
    : list (Z * option Z * element) :=
  match nodes with
  | [] => []
  | c :: l' =>
      visit c parent_id first_id
        ++ visit_list parent_id l' (first_id + Z.of_nat (address_count c))
  end.

(** What a row shows of its visit: id, parent_id and column values. *)
Definition row_view (r : row) : Z * option Z * list (pystr * option pystr) :=
  (row_id r, row_parent_id r, row_cols r).

(** What the row of a visit has to show. *)
Definition visit_view (v : Z * option Z * element)
    : Z * option Z * list (pystr * option pystr) :=
  (fst (fst v), snd (fst v),
   List.map (fun col => (col, column_value (snd v) col)) telefonbuch_columns).

(** The integers [start, start+1, ..., start+len-1]. *)
Definition z_seq (start : Z) (len : nat) : list Z :=
  List.map (fun k => start + Z.of_nat k) (seq 0 len).

(** The column entries [make_row] stores for a node. *)
Definition columns_of (e : element) : list (pystr * option pystr) :=
  List.map (fun col => (col, column_value e col)) telefonbuch_columns.

(** The rows of a list that belong to top-level nodes. *)
Definition top_level_rows (l : list sql_row) : list sql_row :=
  filter (fun r => is_none (sql_parent_id r)) l.

(** The numbering loop as a recursive function of the rows still to
    come, the current [row_query_offset] and [query_child_num]. *)
Fixpoint number_from (query_name : pystr) (offset child_num : Z) (rows : list row)
    : list sql_row :=
  match rows with
  | [] => []
  | r :: rest =>
      let child_num' := if is_none (row_parent_id r) then 0 else child_num + 1 in
      {| sql_query_name := query_name;
         sql_query_offset := offset;
         sql_query_child_num := child_num';
         sql_id := row_id r;
         sql_parent_id := row_parent_id r;
         sql_payload := List.map snd (row_cols r) |}
        :: number_from query_name
             (if is_none (row_parent_id r) then offset + 1 else offset)
             child_num' rest
  end.

(** ** Vocabulary for the proofs about the flattener *)

(** What one flattened subtree looks like: as many rows as address
    nodes, ids counting up from [n] in visiting order, the columns of
    the nodes in pre-order, the node's own row first, and below it only
    rows whose parent lies inside the subtree. *)
Definition subtree_shape (e : element) : Prop :=
  forall p n,
    length (flatten_spec e p n) = address_count e
    /\ List.map row_id (flatten_spec e p n) = z_seq n (address_count e)
    /\ List.map row_cols (flatten_spec e p n) = List.map columns_of (preorder e)
    /\ exists tail,
         flatten_spec e p n = make_row n p e :: tail
         /\ Forall (fun r => exists q, row_parent_id r = Some q
                                       /\ n <= q < n + Z.of_nat (address_count e)) tail.

(** Ids and parent ids of a flattened sibling list stay inside its id
    range. *)
Definition within (lo hi : Z) (s : sql_row) : Prop :=
  lo <= sql_id s < hi
  /\ (sql_parent_id s = None
      \/ exists q, sql_parent_id s = Some q /\ lo <= q < hi).

(** ** Statements about the numbering, to be tested on the code *)

(** "query_child_num is 0 for the first child record that follows a
    non-child record". *)
Definition first_child_num_is_zero (rows : list sql_row) : Prop :=
  forall i prev r,
    nth_error rows i = Some prev -> nth_error rows (S i) = Some r ->
    sql_parent_id prev = None -> sql_parent_id r <> None ->
    sql_query_child_num r = 0.

(** "Every child record carries the query_offset of the record of its
    immediate parent". *)
Definition child_has_parent_offset (rows : list sql_row) : Prop :=
  forall p r,
    In p rows -> In r rows -> sql_parent_id r = Some (sql_id p) ->
    sql_query_offset r = sql_query_offset p.

(** "No field of a flat record is ever the empty string". *)
Definition no_empty_string_field (address_elem : element) : Prop :=
  forall current_id parent_id col,
    row_get (make_row current_id parent_id address_elem) col <> Some (Some []).

(** ** Sample documents *)

Definition leaf (tag text : string) : element :=
  Element (py tag) (Some (py text)) [].

Definition sample_child (firstname : string) : element :=
  Element (py "address") None
    [leaf "firstname0" firstname; leaf "recordtype" "child"].

(** A parent entry with two nested children. *)
Definition sample_parent : element :=
  Element (py "address") None
    [leaf "name0" "Muster"; leaf "recordtype" "parent";
     sample_child "Anna"; sample_child "Bernd"].

Definition sample_single : element :=
  Element (py "address") None
    [leaf "name0" "Beispiel"; leaf "street" " "; leaf "recordtype" "single"].

(** An entry with a child that has a child of its own, and a second
    child after it. *)
Definition sample_nested : element :=
  Element (py "address") None
    [leaf "name0" "Haus";
     Element (py "address") None
       [leaf "name0" "Etage"; Element (py "address") None [leaf "name0" "Zimmer"]];
     Element (py "address") None [leaf "name0" "Hof"]].

Definition sample_addresses : list element := [sample_parent; sample_single].

Definition sample_document : element :=
  Element (py "result") None
    [Element (py "entries") None sample_addresses].

Definition sample_rows : list sql_row :=
  page_sql_rows (py "aa") 0 sample_addresses 1.

(** ** Reference definitions for the enumerator *)

(** All two-character names over an alphabet, the first character
    varying slowest: lexicographic order with respect to the order of
    the alphabet. *)
Definition cartesian_square (alphabet : pystr) : list pystr :=
  flat_map (fun a => List.map (fun b => [a; b]) alphabet) alphabet.

Definition starts_with_digit (query_name : pystr) : bool :=
  match query_name with
  | c :: _ => char_in c string_digits
  | [] => false
  end.

(** ** Classifying what the service sent *)

Definition is_some {A} (o : option A) : bool := negb (is_none o).

Definition is_search (req : request) : bool :=
  match req with Search _ _ _ => true | _ => false end.

Definition is_btnpage (req : request) : bool :=
  match req with Search _ _ (BtnPage _) => true | _ => false end.

(** A search response that is through: status 200 and no "still
    computing" marker. *)
Definition reply_through (rep : reply) : bool :=
  match rep with
  | Reply r => (status r =? 200) && negb (loading r)
  | Failed => false
  end.

(** ... that carries its result count: a fetched page. *)
Definition reply_page (rep : reply) : bool :=
  reply_through rep
  && match rep with Reply r => is_some (hitcount_tag r) | Failed => false end.

(** ... that lacks the [<hitcount>] tag. *)
Definition reply_no_hitcount (rep : reply) : bool :=
  reply_through rep
  && match rep with Reply r => is_none (hitcount_tag r) | Failed => false end.


(** The page size a response reports differs from the configured one. *)
Definition page_mismatch (r : response) : bool :=
  match perpage_tag r with
  | Some actual => negb (Z.of_N actual =? results_per_page)
  | None => false
  end.

Definition reply_mismatch (rep : reply) : bool :=
  reply_page rep
  && match rep with Reply r => page_mismatch r | Failed => false end.

Definition reply_has_results (rep : reply) : bool :=
  match rep with
  | Reply r => match hitcount_tag r with
               | Some n => negb (n =? 0)%N
               | None => false
               end
  | Failed => false
  end.

(** A fetched page of [query_name] with the wrong page size that the
    page loop takes up: any page fetched by a page jump, and the page
    that starts the search unless it reports zero results. *)
Definition bad_page (query_name : pystr) (ev : event) : bool :=
  is_search_for query_name (fst ev)
  && reply_mismatch (snd ev)
  && (reply_has_results (snd ev) || is_btnpage (fst ev)).

(** A search response with the result count missing. *)
Definition missing_hitcount (ev : event) : bool :=
  is_search (fst ev) && reply_no_hitcount (snd ev).


(** "Every fetched page whose page size differs from the configured
    one aborts the run". *)
Definition mismatch_is_fatal (result : outcome unit * state) : Prop :=
  forall ev, In ev (trace (snd result)) ->
             is_search (fst ev) = true -> reply_mismatch (snd ev) = true ->
             fst result = Raise AssertionError_perpage.


(** ** Sample services *)

Definition sample_response (hitcount perpage : option N) : response :=
  {| status := 200;
     sessionid_tag := Some 7%N;
     loading := false;
     hitcount_tag := hitcount;
     perpage_tag := perpage;
     document := Some sample_document |}.

(** A service that knows entries under the name aa only: a search
    for aa is answered with the sample document and the given result
    count and page size, any other search reports zero results. *)
Definition sample_session (hitcount perpage : option N) : session_t :=
  fun _ req =>
    match req with
    | Search _ name _ =>
        if pystr_eqb name (py "aa")
        then Reply (sample_response hitcount perpage)
        else Reply (sample_response (Some 0%N) (Some 15%N))
    | _ => Reply (sample_response hitcount perpage)
    end.

(** The same service with 16 results under aa, whose page jumps
    report a page size of 30. *)
Definition drifting_session : session_t :=
  fun history req =>
    if is_btnpage req
    then Reply (sample_response (Some 16%N) (Some 30%N))
    else sample_session (Some 16%N) (Some 15%N) history req.

(** The same service, still computing on the first attempt of every
    search. *)
Definition slow_session (hitcount perpage : option N) : session_t :=
  fun history req =>
    let computing :=
      Reply {| status := 200; sessionid_tag := None; loading := true;
               hitcount_tag := None; perpage_tag := None; document := None |} in
    match req, rev history with
    | Search _ _ _, (Search _ _ _, Reply r) :: _ =>
        if loading r then sample_session hitcount perpage history req
        else computing
    | Search _ _ _, _ => computing
    | _, _ => sample_session hitcount perpage history req
    end.

(** ** Vocabulary for the proofs about runs *)

(** Every event of [t] that [flag] marks makes the run end in [x]. *)
Definition fatal_on {A} (flag : event -> bool) (x : exn) (t : list event)
    (out : outcome A) : Prop :=
  forall ev, In ev t -> flag ev = true -> out = Raise x.

(** The rows [new] carry the ids that follow the largest id of [t]. *)
Definition continues_ids (t new : list sql_row) : Prop :=
  List.map sql_id new = z_seq (coalesce_max_id t + 1) (length new).

(** A search request of this session for this name. *)
Definition searches (sessionid : Z) (query_name : pystr) (ev : event) : Prop :=
  exists action, fst ev = Search sessionid query_name action.

(** What a stretch of the page loop for [query_name] does between
    [st] and [st']: nothing is committed, the pending rows grow by
    rows continuing the ids, only searches for the name are sent, and
    a response without result count or a fetched page with the wrong
    page size ends the run. *)
Definition loop_effect (sessionid : Z) (query_name : pystr) {A}
    (st : state) (out : outcome A) (st' : state) : Prop :=
  committed (db st') = committed (db st)
  /\ (exists ins, pending (db st') = pending (db st) ++ ins
                  /\ continues_ids (table (db st)) ins)
  /\ exists t,
       trace st' = trace st ++ t
       /\ Forall (searches sessionid query_name) t
       /\ fatal_on (fun ev => reply_no_hitcount (snd ev)) SystemExit_1 t out
       /\ fatal_on (fun ev => reply_mismatch (snd ev)) AssertionError_perpage t out.

(** ** The id sequence of a transaction *)

(** The specification's transaction: one id counter, seeded when the
    transaction opens, on which page after page is flattened and
    numbered.  A page is its start offset with its top-level
    addresses. *)
Fixpoint seeded_once_rows (query_name : pystr) (pages : list (Z * list element))
    (ctr : NextIdCounter) : list sql_row :=
  match pages with
  | [] => []
  | (query_offset, addresses) :: rest =>
      let '(ctr', all_rows) := flatten_addresses addresses ctr [] in
      sql_rows (number_rows query_name query_offset all_rows)
        ++ seeded_once_rows query_name rest ctr'
  end.

(** The page a response holds for an offset. *)
Definition page_of (xml_bytes : response) (query_offset : Z)
    (page : Z * list element) : Prop :=
  exists xml_root,
    document xml_bytes = Some xml_root
    /\ page = (query_offset, findall_entries_address xml_root).

(** A page the service sent in reply to the search at an offset. *)
Definition fetched_page (sessionid : Z) (query_name : pystr) (t : list event)
    (query_offset : Z) (page : Z * list element) : Prop :=
  exists r,
    In (search_request sessionid query_name query_offset, Reply r) t
    /\ page_of r query_offset page.

(** ** Vocabulary for the further properties *)

(** The columns of the unique index. *)
Definition sql_key (r : sql_row) : pystr * Z * Z :=
  (sql_query_name r, sql_query_offset r, sql_query_child_num r).

(** Offset and child number of a row. *)
Definition sql_position (r : sql_row) : Z * Z :=
  (sql_query_offset r, sql_query_child_num r).






(** A document of sixteen top-level entries, more than a page holds. *)
Definition oversized_document : element :=
  Element (py "result") None
    [Element (py "entries") None (repeat sample_single 16)].

(** A service with 16 results under aa that sends all of them on
    every page. *)
Definition oversized_session : session_t :=
  fun history req =>
    match sample_session (Some 16%N) (Some 15%N) history req with
    | Reply r =>
        Reply {| status := status r; sessionid_tag := sessionid_tag r;
                 loading := loading r; hitcount_tag := hitcount_tag r;
                 perpage_tag := perpage_tag r;
                 document := Some oversized_document |}
    | Failed => Failed
    end.

(** Decides that no code point occurs twice. *)
Fixpoint nodupb (l : pystr) : bool :=
  match l with
  | [] => true
  | c :: l' => negb (char_in c l') && nodupb l'
  end.

(** The characters of an alphabet that may start a query name. *)
Definition initials (alphabet : pystr) : pystr :=
  filter (fun c => negb (char_in c string_digits)) alphabet.

(** The service answered with status 200 and the "still computing"
    marker. *)
Definition still_computing (ev : event) : bool :=
  match snd ev with
  | Reply r => (status r =? 200) && loading r
  | Failed => false
  end.

(** A service that never finishes computing. *)
Definition busy_session : session_t :=
  fun _ _ =>
    Reply {| status := 200; sessionid_tag := None; loading := true;
             hitcount_tag := None; perpage_tag := None; document := None |}.

(** ** Repairing the encoding *)

(** The two exceptions of Python's codecs. *)
Inductive codec_error : Type :=
| UnicodeEncodeError
| UnicodeDecodeError.

Inductive attempt (A : Type) : Type :=
| Done (a : A)
| Fails (e : codec_error).
Arguments Done {A} a.
Arguments Fails {A} e.

(** [str.encode("latin1")]: one byte per character, the code point
    itself; a code point above 255 has no byte. *)
Fixpoint encode_latin1 (s : pystr) : attempt (list N) :=
  match s with
  | [] => Done []
  | c :: s' =>
      if (c <=? 255)%N
      then match encode_latin1 s' with
           | Done bytes => Done (c :: bytes)
           | Fails e => Fails e
           end
      else Fails UnicodeEncodeError
  end.

Definition is_continuation (b : N) : bool := ((128 <=? b) && (b <=? 191))%N.

(** The second byte of a three-byte sequence: no overlong forms after
    0xE0, no surrogates after 0xED. *)
Definition second_of_three (b0 b1 : N) : bool :=
  (if b0 =? 224 then (160 <=? b1) && (b1 <=? 191)
   else if b0 =? 237 then (128 <=? b1) && (b1 <=? 159)
   else is_continuation b1)%N.

(** The second byte of a four-byte sequence: no overlong forms after
    0xF0, nothing above U+10FFFF after 0xF4. *)
Definition second_of_four (b0 b1 : N) : bool :=
  (if b0 =? 240 then (144 <=? b1) && (b1 <=? 191)
   else if b0 =? 244 then (128 <=? b1) && (b1 <=? 143)
   else is_continuation b1)%N.

Definition decoded (c : N) (rest : attempt pystr) : attempt pystr :=
  match rest with
  | Done s => Done (c :: s)
  | Fails e => Fails e
  end.

(** [bytes.decode("utf8")] with the default error handling
    ([strict]): any ill-formed sequence raises. *)
Fixpoint decode_utf8 (bytes : list N) : attempt pystr :=
  match bytes with
  | [] => Done []
  | b0 :: rest =>
      if (b0 <? 128)%N then decoded b0 (decode_utf8 rest)
      else if ((194 <=? b0) && (b0 <=? 223))%N then
        match rest with
        | b1 :: rest1 =>
            if is_continuation b1
            then decoded ((b0 - 192) * 64 + (b1 - 128))%N (decode_utf8 rest1)
            else Fails UnicodeDecodeError
        | _ => Fails UnicodeDecodeError
        end
      else if ((224 <=? b0) && (b0 <=? 239))%N then
        match rest with
        | b1 :: b2 :: rest2 =>
            if second_of_three b0 b1 && is_continuation b2
            then decoded (((b0 - 224) * 64 + (b1 - 128)) * 64 + (b2 - 128))%N
                         (decode_utf8 rest2)
            else Fails UnicodeDecodeError
        | _ => Fails UnicodeDecodeError
        end
      else if ((240 <=? b0) && (b0 <=? 244))%N then
        match rest with
        | b1 :: b2 :: b3 :: rest3 =>
            if second_of_four b0 b1 && is_continuation b2 && is_continuation b3
            then decoded ((((b0 - 240) * 64 + (b1 - 128)) * 64 + (b2 - 128)) * 64
                          + (b3 - 128))%N
                         (decode_utf8 rest3)
            else Fails UnicodeDecodeError
        | _ => Fails UnicodeDecodeError
        end
      else Fails UnicodeDecodeError
  end.

(** [fix_encoding]: only [UnicodeDecodeError] is caught. *)
Definition fix_encoding (input_str : pystr) : attempt pystr :=
  let body :=
    match encode_latin1 input_str with
    | Done bytes => decode_utf8 bytes
    | Fails e => Fails e
    end in
  match body with
  | Fails UnicodeDecodeError => Done input_str
  | _ => body
  end.

(** The bad data [fix_encoding] is written for: the UTF-8 bytes of a
    text, each one read as a latin1 character.  [utf8_bytes] is the
    UTF-8 form of one code point ([None] for a surrogate and beyond
    U+10FFFF), [encode_utf8] is [str.encode("utf8")], and
    [bytes.decode("latin1")] leaves the numbers as they are. *)
Definition utf8_bytes (c : N) : option (list N) :=
  (if c <? 128 then Some [c]
   else if c <? 2048 then Some [192 + c / 64; 128 + c mod 64]
   else if c <? 65536 then
     if (55296 <=? c) && (c <=? 57343) then None
     else Some [224 + c / 4096; 128 + (c / 64) mod 64; 128 + c mod 64]
   else if c <? 1114112 then
     Some [240 + c / 262144; 128 + (c / 4096) mod 64; 128 + (c / 64) mod 64;
           128 + c mod 64]
   else None)%N.

Fixpoint encode_utf8 (s : pystr) : attempt (list N) :=
  match s with
  | [] => Done []
  | c :: s' =>
      match utf8_bytes c with
      | Some bytes =>
          match encode_utf8 s' with
          | Done rest => Done (bytes ++ rest)
          | Fails e => Fails e
          end
      | None => Fails UnicodeEncodeError
      end
  end.

Definition decode_latin1 (bytes : list N) : pystr := bytes.

(* ===================================================================== *)
(** * Part II. Theorems                                                    *)
(* ===================================================================== *)

(** Splits a conjunction into its parts. *)
Ltac splits := repeat match goal with |- _ /\ _ => split end.

(** ** Elements *)

Lemma element_ind (P : element -> Prop) :
  (forall t x cs, Forall P cs -> P (Element t x cs)) ->
  forall e, P e.
Proof.
  intros H. fix IH 1. intros [t x cs]. apply H.
  induction cs as [|c cs IHcs]; constructor; [apply IH | exact IHcs].
Qed.

Lemma z_seq_length start len : length (z_seq start len) = len.
Proof. unfold z_seq. now rewrite length_map, length_seq. Qed.

Lemma z_seq_S start len : z_seq start (S len) = start :: z_seq (start + 1) len.
Proof.
  unfold z_seq. cbn [seq List.map]. f_equal; [cbn; lia|].
  rewrite <- seq_shift, map_map. apply map_ext. intros k. lia.
Qed.

Lemma z_seq_app start a b :
  z_seq start (a + b) = z_seq start a ++ z_seq (start + Z.of_nat a) b.
Proof.
  revert start. induction a as [|a IH]; intros start.
  - replace (start + Z.of_nat 0) with start by lia. reflexivity.
  - cbn [Nat.add]. rewrite !z_seq_S, IH. cbn [app]. do 3 f_equal. lia.
Qed.

Lemma z_seq_In start len z : In z (z_seq start len) <-> start <= z < start + Z.of_nat len.
Proof.
  unfold z_seq. rewrite in_map_iff. split.
  - intros [k [<- Hk]]. apply in_seq in Hk. lia.
  - intros Hz. exists (Z.to_nat (z - start)). split; [lia|]. apply in_seq. lia.
Qed.

(** ** parse_address against the reference flattening *)

Lemma address_count_unfold t x cs :
  address_count (Element t x cs) = S (address_count_list (filter is_address cs)).
Proof.
  cbn [address_count]. f_equal.
  induction cs as [|c cs IH]; [reflexivity|].
  cbn [filter]. destruct (is_address c); cbn [address_count_list]; now rewrite IH.
Qed.

Lemma flatten_spec_unfold t x cs parent_id first_id :
  flatten_spec (Element t x cs) parent_id first_id =
  make_row first_id parent_id (Element t x cs)
    :: flatten_spec_list (Some first_id) (filter is_address cs) (first_id + 1).
Proof.
  cbn [flatten_spec]. f_equal. generalize (first_id + 1).
  induction cs as [|c cs IH]; intros next; [reflexivity|].
  cbn [filter]. destruct (is_address c); cbn [flatten_spec_list]; now rewrite IH.
Qed.

Lemma preorder_unfold t x cs :
  preorder (Element t x cs) =
  Element t x cs :: flat_map preorder (filter is_address cs).
Proof.
  cbn [preorder]. f_equal.
  induction cs as [|c cs IH]; [reflexivity|].
  cbn [filter]. destruct (is_address c); cbn [flat_map]; now rewrite IH.
Qed.

(** The recursive descent appends exactly the reference rows and
    leaves the counter after the last id handed out. *)
Lemma parse_address_spec e :
  forall parent_id ctr rows,
    parse_address e parent_id (ctr, rows) =
    ({| next_id := next_id ctr + Z.of_nat (address_count e) |},
     rows ++ flatten_spec e parent_id (next_id ctr)).
Proof.
  induction e as [t x cs IH] using element_ind. intros parent_id ctr rows.
  rewrite address_count_unfold, flatten_spec_unfold.
  cbn [parse_address]. unfold counter_get, counter_increment. cbn [fst snd next_id].
  set (r := make_row (next_id ctr) parent_id (Element t x cs)).
  replace (rows ++ r :: flatten_spec_list (Some (next_id ctr)) (filter is_address cs)
                         (next_id ctr + 1))
    with ((rows ++ [r]) ++ flatten_spec_list (Some (next_id ctr))
                              (filter is_address cs) (next_id ctr + 1))
    by (rewrite <- app_assoc; reflexivity).
  replace (next_id ctr + Z.of_nat (S (address_count_list (filter is_address cs))))
    with ((next_id ctr + 1) + Z.of_nat (address_count_list (filter is_address cs)))
    by lia.
  generalize (rows ++ [r]) as acc. generalize (next_id ctr + 1) as n.
  generalize (Some (next_id ctr)) as pid. clear r.
  induction IH as [|c cs Hc _ IHcs]; intros pid n acc.
  - cbn [filter address_count_list flatten_spec_list]. rewrite app_nil_r. f_equal. f_equal. lia.
  - cbn [filter]. fold is_address. destruct (is_address c) eqn:Hadd.
    + rewrite (Hc pid {| next_id := n |} acc). cbn [next_id].
      rewrite IHcs. cbn [address_count_list flatten_spec_list].
      rewrite <- app_assoc. f_equal. f_equal. lia.
    + apply IHcs.
Qed.

Lemma flatten_addresses_spec addresses :
  forall ctr all_rows,
    flatten_addresses addresses ctr all_rows =
    ({| next_id := next_id ctr + Z.of_nat (address_count_list addresses) |},
     all_rows ++ flatten_spec_list None addresses (next_id ctr)).
Proof.
  induction addresses as [|a l IH]; intros ctr all_rows.
  - cbn. rewrite app_nil_r. destruct ctr as [n]. cbn. f_equal. f_equal. lia.
  - cbn [flatten_addresses]. rewrite parse_address_spec. cbn [app].
    rewrite IH. cbn [next_id address_count_list flatten_spec_list].
    rewrite <- app_assoc. f_equal. f_equal. lia.
Qed.

Lemma all_rows_of_spec addresses first_next_id :
  all_rows_of addresses first_next_id = flatten_spec_list None addresses first_next_id.
Proof. unfold all_rows_of. now rewrite flatten_addresses_spec. Qed.

(** ** Shape of the reference flattening *)

Lemma Forall_filter_keep {A} (P : A -> Prop) (f : A -> bool) (l : list A) :
  Forall P l -> Forall P (filter f l).
Proof.
  induction 1 as [|a l Ha _ IH]; cbn [filter]; [constructor|].
  destruct (f a); [constructor; assumption | assumption].
Qed.

Lemma siblings_shape (nodes : list element) :
  Forall subtree_shape nodes ->
  forall p n,
    length (flatten_spec_list p nodes n) = address_count_list nodes
    /\ List.map row_id (flatten_spec_list p nodes n) = z_seq n (address_count_list nodes)
    /\ List.map row_cols (flatten_spec_list p nodes n)
       = List.map columns_of (flat_map preorder nodes)
    /\ Forall (fun r => row_parent_id r = p
                        \/ exists q, row_parent_id r = Some q
                                     /\ n <= q < n + Z.of_nat (address_count_list nodes))
              (flatten_spec_list p nodes n).
Proof.
  induction 1 as [|c l Hc _ IH]; intros p n.
  - cbn. repeat split; constructor.
  - cbn [flatten_spec_list address_count_list flat_map].
    destruct (Hc p n) as (Hlen & Hids & Hcols & tail & Htail & Hpar).
    destruct (IH p (n + Z.of_nat (address_count c))) as (Hlen' & Hids' & Hcols' & Hpar').
    repeat split.
    + rewrite length_app. congruence.
    + rewrite map_app, z_seq_app. congruence.
    + rewrite !map_app. congruence.
    + apply Forall_app. split.
      * rewrite Htail. constructor; [left; reflexivity|].
        eapply Forall_impl; [|exact Hpar]. cbn beta.
        intros r (q & Hq & Hrange). right. exists q. split; [exact Hq|lia].
      * eapply Forall_impl; [|exact Hpar']. cbn beta.
        intros r [Hr | (q & Hq & Hrange)]; [left; exact Hr|].
        right. exists q. split; [exact Hq|lia].
Qed.

Lemma subtree_shape_all e : subtree_shape e.
Proof.
  induction e as [t x cs IH] using element_ind. intros p n.
  rewrite flatten_spec_unfold, address_count_unfold, preorder_unfold.
  destruct (siblings_shape (Forall_filter_keep is_address IH) (Some n) (n + 1))
    as (Hlen & Hids & Hcols & Hpar).
  repeat split.
  - cbn [length]. now rewrite Hlen.
  - cbn [List.map]. rewrite z_seq_S, Hids. reflexivity.
  - cbn [List.map]. rewrite Hcols. reflexivity.
  - eexists. split; [reflexivity|].
    eapply Forall_impl; [|exact Hpar]. cbn beta.
    intros r [Hr | (q & Hq & Hrange)].
    + exists n. split; [exact Hr|lia].
    + exists q. split; [exact Hq|lia].
Qed.

Lemma siblings_shape_all nodes p n :
  length (flatten_spec_list p nodes n) = address_count_list nodes
  /\ List.map row_id (flatten_spec_list p nodes n) = z_seq n (address_count_list nodes)
  /\ List.map row_cols (flatten_spec_list p nodes n)
     = List.map columns_of (flat_map preorder nodes)
  /\ Forall (fun r => row_parent_id r = p
                      \/ exists q, row_parent_id r = Some q
                                   /\ n <= q < n + Z.of_nat (address_count_list nodes))
            (flatten_spec_list p nodes n).
Proof.
  apply siblings_shape. apply Forall_forall. intros e _. apply subtree_shape_all.
Qed.

Lemma visit_unfold t x cs parent_id first_id :
  visit (Element t x cs) parent_id first_id =
  (first_id, parent_id, Element t x cs)
    :: visit_list (Some first_id) (filter is_address cs) (first_id + 1).
Proof.
  cbn [visit]. f_equal. generalize (first_id + 1).
  induction cs as [|c cs IH]; intros next; [reflexivity|].
  cbn [filter]. destruct (is_address c); cbn [visit_list]; now rewrite IH.
Qed.

(** The rows of the reference flattening show the visits. *)
Lemma flatten_spec_view e :
  forall parent_id first_id,
    List.map row_view (flatten_spec e parent_id first_id)
    = List.map visit_view (visit e parent_id first_id).
Proof.
  induction e as [t x cs IH] using element_ind. intros parent_id first_id.
  rewrite flatten_spec_unfold, visit_unfold. cbn [List.map]. f_equal.
  generalize (Some first_id) as p. generalize (first_id + 1) as n.
  apply (Forall_filter_keep is_address) in IH.
  induction IH as [|c l Hc _ IHl]; intros n p; [reflexivity|].
  cbn [flatten_spec_list visit_list]. rewrite !map_app, Hc, IHl. reflexivity.
Qed.

Lemma flatten_spec_list_view nodes :
  forall parent_id first_id,
    List.map row_view (flatten_spec_list parent_id nodes first_id)
    = List.map visit_view (visit_list parent_id nodes first_id).
Proof.
  induction nodes as [|c l IH]; intros parent_id first_id; [reflexivity|].
  cbn [flatten_spec_list visit_list]. rewrite !map_app, flatten_spec_view, IH.
  reflexivity.
Qed.

(** C5. Flattening is depth-first pre-order.  [parse_address] appends
    to the rows it is given; the rows it appends show, in this order,
    the visits of the node's subtree: the node itself first, with the
    counter's value as id and the given parent_id; then, child by
    child in document order, the subtree of every direct address
    child, visited with the node's id as parent_id.  The ids are
    consecutive, the columns are those of the nodes in pre-order, and
    the counter ends behind the last id.  The top-level nodes of a
    page are visited one after the other with parent_id null. *)
Theorem C5_parse_address_preorder :
  forall (address_elem : element) (parent_id : option Z)
         (ctr : NextIdCounter) (rows : list row) (addresses : list element)
         (first_next_id : Z),
    let n := next_id ctr in
    let out := parse_address address_elem parent_id (ctr, rows) in
    exists new_rows,
      snd out = rows ++ new_rows
      /\ fst out = {| next_id := n + Z.of_nat (length new_rows) |}
      /\ List.map row_view new_rows
         = List.map visit_view (visit address_elem parent_id n)
      /\ visit address_elem parent_id n
         = (n, parent_id, address_elem)
             :: visit_list (Some n) (findall (py "address") address_elem) (n + 1)
      /\ List.map row_id new_rows = z_seq n (length new_rows)
      /\ List.map row_cols new_rows = List.map columns_of (preorder address_elem)
      /\ List.map row_view (all_rows_of addresses first_next_id)
         = List.map visit_view (visit_list None addresses first_next_id)
      /\ List.map row_cols (all_rows_of addresses first_next_id)
         = List.map columns_of (flat_map preorder addresses).
Proof.
  intros e parent_id ctr rows addresses first n out.
  subst n out. rewrite parse_address_spec. cbn [fst snd].
  exists (flatten_spec e parent_id (next_id ctr)).
  destruct (subtree_shape_all e parent_id (next_id ctr)) as (Hlen & Hids & Hcols & _).
  destruct (siblings_shape_all addresses None first) as (_ & _ & Hcols' & _).
  rewrite all_rows_of_spec, Hlen.
  splits; try assumption; try reflexivity.
  - apply flatten_spec_view.
  - destruct e as [t x cs]. apply visit_unfold.
  - apply flatten_spec_list_view.
Qed.

(** On an entry with a grandchild: the child takes its id before the
    grandchild, the grandchild has the child as parent, and the second
    child, visited last, has the entry as parent again. *)
Lemma C5_parse_address_preorder_witness :
  List.map (fun r => (row_id r, row_parent_id r))
           (snd (parse_address sample_nested None ({| next_id := 5 |}, [])))
  = [(5, None); (6, Some 5); (7, Some 6); (8, Some 5)]
  /\ fst (parse_address sample_nested None ({| next_id := 5 |}, []))
     = {| next_id := 9 |}.
Proof.
  destruct (C5_parse_address_preorder sample_nested None {| next_id := 5 |} [] [] 0)
    as (new_rows & Hout & Hctr & Hview & _).
  cbn [next_id] in *. rewrite Hout, Hctr. cbn [app].
  assert (Hlen : length new_rows = 4%nat).
  { apply (f_equal (@length _)) in Hview. rewrite !length_map in Hview.
    rewrite Hview. reflexivity. }
  split; [|rewrite Hlen; reflexivity].
  apply (f_equal (List.map (fun v : Z * option Z * list (pystr * option pystr) =>
                              fst v))) in Hview.
  rewrite !map_map in Hview. cbn [row_view fst] in Hview.
  rewrite Hview. reflexivity.
Defined.

(** ** The numbering loop *)

Lemma number_rows_from query_name rows :
  forall s,
    sql_rows (fold_left (number_step query_name) rows s)
    = sql_rows s
        ++ number_from query_name (row_query_offset s) (query_child_num s) rows
    /\ row_query_offset (fold_left (number_step query_name) rows s)
       = row_query_offset s
         + Z.of_nat (length (top_level_rows
                               (number_from query_name (row_query_offset s)
                                            (query_child_num s) rows))).
Proof.
  induction rows as [|r rows IH]; intros s.
  - cbn. rewrite app_nil_r. split; [reflexivity|lia].
  - cbn [fold_left number_from]. destruct (IH (number_step query_name s r)) as [H1 H2].
    rewrite H1, H2. unfold number_step. cbn [sql_rows row_query_offset query_child_num].
    rewrite <- app_assoc. cbn [app]. split; [reflexivity|].
    unfold top_level_rows. cbn [filter sql_parent_id].
    destruct (is_none (row_parent_id r)); cbn [length]; lia.
Qed.

Lemma page_sql_rows_from query_name query_offset addresses first_next_id :
  page_sql_rows query_name query_offset addresses first_next_id
  = number_from query_name query_offset 0
      (flatten_spec_list None addresses first_next_id).
Proof.
  unfold page_sql_rows, page_numbering, number_rows.
  rewrite (proj1 (number_rows_from _ _ _)), all_rows_of_spec. reflexivity.
Qed.

Lemma number_from_app query_name l1 :
  forall offset child_num l2,
    exists offset' child_num',
      number_from query_name offset child_num (l1 ++ l2)
      = number_from query_name offset child_num l1
          ++ number_from query_name offset' child_num' l2.
Proof.
  induction l1 as [|r l1 IH]; intros offset child_num l2.
  - exists offset, child_num. reflexivity.
  - cbn [app number_from].
    destruct (IH (if is_none (row_parent_id r) then offset + 1 else offset)
                 (if is_none (row_parent_id r) then 0 else child_num + 1) l2)
      as (o & c & H).
    exists o, c. now rewrite H.
Qed.

Lemma number_from_ids query_name rows :
  forall offset child_num,
    List.map sql_id (number_from query_name offset child_num rows) = List.map row_id rows.
Proof.
  induction rows as [|r rows IH]; intros; cbn; [reflexivity|]. now rewrite IH.
Qed.

Lemma number_from_length query_name rows :
  forall offset child_num,
    length (number_from query_name offset child_num rows) = length rows.
Proof.
  induction rows as [|r rows IH]; intros; cbn; [reflexivity|]. now rewrite IH.
Qed.

Lemma number_from_top_level query_name rows :
  forall offset child_num,
    length (top_level_rows (number_from query_name offset child_num rows))
    = length (filter (fun r => is_none (row_parent_id r)) rows).
Proof.
  induction rows as [|r rows IH]; intros; [reflexivity|].
  cbn [number_from]. unfold top_level_rows. cbn [filter sql_parent_id].
  destruct (is_none (row_parent_id r)); cbn [length]; fold (top_level_rows);
    unfold top_level_rows in IH; now rewrite IH.
Qed.

(** A record's offset is the start offset plus the number of
    top-level records emitted before it. *)
Lemma number_from_offset query_name rows :
  forall offset child_num before r after,
    number_from query_name offset child_num rows = before ++ r :: after ->
    sql_query_offset r = offset + Z.of_nat (length (top_level_rows before)).
Proof.
  induction rows as [|x rows IH]; intros offset child_num before r after H.
  - destruct before; discriminate.
  - cbn [number_from] in H. destruct before as [|b before]; cbn [app] in H.
    + injection H as <- _. cbn. lia.
    + injection H as <- H. apply IH in H. rewrite H.
      unfold top_level_rows. cbn [filter sql_parent_id].
      destruct (is_none (row_parent_id x)); cbn [length]; lia.
Qed.

(** Exactly one row per top-level node has a null parent. *)
Lemma top_level_one_per_node addresses :
  forall n,
    length (filter (fun r => is_none (row_parent_id r))
                   (flatten_spec_list None addresses n))
    = length addresses.
Proof.
  induction addresses as [|a l IH]; intros n; [reflexivity|].
  cbn [flatten_spec_list]. rewrite filter_app, length_app, IH.
  destruct (subtree_shape_all a None n) as (_ & _ & _ & tail & -> & Hpar).
  cbn [filter make_row row_parent_id is_none length]. f_equal.
  induction Hpar as [|r tail (q & Hq & _) _ IHt]; [reflexivity|].
  cbn [filter]. rewrite Hq. exact IHt.
Qed.

(** C6. On every page the number of emitted records with a null
    parent_id is the number of top-level nodes; the offset counter
    ends the page advanced by that number; and each record carries the
    page's start offset plus the number of top-level records emitted
    before it, so the counter moves by one at each top-level record
    and not at all at a child record. *)
Theorem C6_offset_counts_top_level_nodes :
  forall (query_name : pystr) (query_offset : Z) (addresses : list element)
         (first_next_id : Z),
    let page := page_numbering query_name query_offset addresses first_next_id in
    length (top_level_rows (sql_rows page)) = length addresses
    /\ row_query_offset page = query_offset + Z.of_nat (length addresses)
    /\ forall before r after,
         sql_rows page = before ++ r :: after ->
         sql_query_offset r
         = query_offset + Z.of_nat (length (top_level_rows before)).
Proof.
  intros query_name query_offset addresses first page.
  assert (Hrows : sql_rows page
                  = number_from query_name query_offset 0
                      (flatten_spec_list None addresses first))
    by apply page_sql_rows_from.
  assert (Htop : length (top_level_rows (sql_rows page)) = length addresses).
  { rewrite Hrows, number_from_top_level. apply top_level_one_per_node. }
  split; [exact Htop|]. split.
  - unfold page, page_numbering, number_rows.
    rewrite (proj2 (number_rows_from _ _ _)). cbn [row_query_offset query_child_num].
    rewrite number_from_top_level, all_rows_of_spec, top_level_one_per_node. reflexivity.
  - intros before r after H. rewrite Hrows in H.
    eapply number_from_offset; eassumption.
Qed.

Lemma C6_offset_counts_top_level_nodes_witness :
  length (top_level_rows sample_rows) = 2%nat
  /\ row_query_offset (page_numbering (py "aa") 0 sample_addresses 1) = 2
  /\ exists r, nth_error sample_rows 3 = Some r
               /\ sql_query_offset r = 0 + Z.of_nat 1.
Proof.
  destruct (C6_offset_counts_top_level_nodes (py "aa") 0 sample_addresses 1)
    as (Hcount & Hend & Hrow).
  split; [exact Hcount|]. split; [exact Hend|].
  eexists. split; [reflexivity|].
  apply (Hrow (firstn 3 sample_rows) _ []). reflexivity.
Defined.

(** ** query_child_num *)

Lemma number_from_child_num query_name rows :
  forall offset child_num i prev r,
    nth_error (number_from query_name offset child_num rows) i = Some prev ->
    nth_error (number_from query_name offset child_num rows) (S i) = Some r ->
    (sql_parent_id prev = None -> sql_query_child_num prev = 0)
    /\ (sql_parent_id r <> None ->
        sql_query_child_num r = sql_query_child_num prev + 1).
Proof.
  induction rows as [|x rows IH]; intros offset child_num i prev r Hprev Hr.
  - destruct i; discriminate.
  - cbn [number_from] in Hprev, Hr. destruct i as [|i].
    + cbn [nth_error] in Hprev, Hr. injection Hprev as <-.
      cbn [sql_parent_id sql_query_child_num]. split.
      * intros ->. reflexivity.
      * destruct rows as [|y rows]; [discriminate|].
        cbn [number_from nth_error] in Hr. injection Hr as <-.
        cbn [sql_parent_id sql_query_child_num].
        destruct (row_parent_id y); [reflexivity | intros H; now destruct H].
    + cbn [nth_error] in Hprev. change (nth_error (?a :: ?l) (S (S i)))
        with (nth_error l (S i)) in Hr.
      eapply IH; eassumption.
Qed.

Lemma number_from_non_child query_name rows :
  forall offset child_num i r,
    nth_error (number_from query_name offset child_num rows) i = Some r ->
    sql_parent_id r = None ->
    sql_query_child_num r = 0.
Proof.
  induction rows as [|x rows IH]; intros offset child_num i r Hr Hnone.
  - destruct i; discriminate.
  - cbn [number_from] in Hr. destruct i as [|i].
    + cbn [nth_error] in Hr. injection Hr as <-.
      cbn [sql_parent_id sql_query_child_num] in *. rewrite Hnone. reflexivity.
    + cbn [nth_error] in Hr. eapply IH; eassumption.
Qed.

Lemma number_from_child_prev query_name rows offset child_num i r :
  nth_error (number_from query_name offset child_num rows) (S i) = Some r ->
  sql_parent_id r <> None ->
  exists prev,
    nth_error (number_from query_name offset child_num rows) i = Some prev
    /\ sql_query_child_num r = sql_query_child_num prev + 1.
Proof.
  intros Hr Hchild.
  destruct (nth_error (number_from query_name offset child_num rows) i)
    as [prev|] eqn:Hprev.
  - exists prev. split; [reflexivity|].
    eapply number_from_child_num; eassumption.
  - exfalso. apply nth_error_None in Hprev.
    assert (Hsome : nth_error (number_from query_name offset child_num rows) (S i)
                    <> None) by congruence.
    apply nth_error_Some in Hsome. lia.
Qed.

(** A page starts with the record of a top-level node. *)
Lemma page_first_row_top_level query_name query_offset addresses first_next_id r :
  nth_error (page_sql_rows query_name query_offset addresses first_next_id) 0
  = Some r ->
  sql_parent_id r = None.
Proof.
  rewrite page_sql_rows_from. destruct addresses as [|[t x cs] l]; [discriminate|].
  cbn [flatten_spec_list]. rewrite flatten_spec_unfold.
  cbn [app number_from nth_error]. intros H. injection H as <-. reflexivity.
Qed.

(** C7 (as the code has it). Within one flattened page every
    non-child record has query_child_num 0, the last record of the
    page included.  Every child record stands behind another record
    and has the query_child_num of that record plus 1; so the first
    child that follows a non-child record has query_child_num 1, and
    the number grows by 1 with each further consecutive child
    record. *)
Theorem C7_child_num_counts_from_one :
  forall (query_name : pystr) (query_offset : Z) (addresses : list element)
         (first_next_id : Z) (i : nat) (r : sql_row),
    let rows := page_sql_rows query_name query_offset addresses first_next_id in
    nth_error rows i = Some r ->
    match sql_parent_id r with
    | None => sql_query_child_num r = 0
    | Some _ =>
        exists j prev,
          i = S j
          /\ nth_error rows j = Some prev
          /\ sql_query_child_num r = sql_query_child_num prev + 1
          /\ (sql_parent_id prev = None -> sql_query_child_num r = 1)
    end.
Proof.
  intros query_name query_offset addresses first i r rows Hr. subst rows.
  destruct (sql_parent_id r) as [p|] eqn:Hp.
  - destruct i as [|j].
    + apply page_first_row_top_level in Hr. congruence.
    + rewrite page_sql_rows_from in *.
      destruct (number_from_child_prev _ _ _ _ _ Hr) as (prev & Hprev & Hnum);
        [congruence|].
      exists j, prev. splits; auto.
      intros Hnone. rewrite Hnum.
      rewrite (number_from_non_child _ _ _ _ _ Hprev Hnone). reflexivity.
  - rewrite page_sql_rows_from in Hr.
    eapply number_from_non_child; eassumption.
Qed.

(** On the sample page: the first child, right behind its parent, has
    number 1, the second child 2, and the single entry that ends the
    page has number 0. *)
Lemma C7_child_num_counts_from_one_witness :
  (exists r,
      nth_error (page_sql_rows (py "aa") 0 sample_addresses 1) 3 = Some r
      /\ sql_parent_id r = None
      /\ sql_query_child_num r = 0)
  /\ (exists r j prev,
         nth_error (page_sql_rows (py "aa") 0 sample_addresses 1) 1 = Some r
         /\ sql_parent_id r = Some 1
         /\ 1%nat = S j
         /\ nth_error (page_sql_rows (py "aa") 0 sample_addresses 1) j = Some prev
         /\ sql_query_child_num r = sql_query_child_num prev + 1
         /\ (sql_parent_id prev = None -> sql_query_child_num r = 1)).
Proof.
  split.
  - eexists. split; [reflexivity|]. split; [reflexivity|].
    exact (C7_child_num_counts_from_one
             (py "aa") 0 sample_addresses 1 3 eq_refl).
  - destruct (C7_child_num_counts_from_one
                (py "aa") 0 sample_addresses 1 1 eq_refl)
      as (j & prev & H).
    eexists. exists j, prev. split; [reflexivity|]. split; [reflexivity|]. exact H.
Defined.

(** C7, as stated, fails: on the sample page the first child after the
    parent record has query_child_num 1, not 0. *)
Lemma C7_first_child_num_is_not_zero :
  ~ first_child_num_is_zero (page_sql_rows (py "aa") 0 sample_addresses 1).
Proof.
  intros H.
  specialize (H 0%nat _ _ eq_refl eq_refl eq_refl).
  cbn in H. assert (Some 1 <> None) as Hne by discriminate.
  specialize (H Hne). discriminate H.
Qed.

(** ** query_offset of child records *)

Lemma number_from_In query_name rows :
  forall offset child_num s,
    In s (number_from query_name offset child_num rows) ->
    exists r, In r rows /\ sql_id s = row_id r /\ sql_parent_id s = row_parent_id r.
Proof.
  induction rows as [|x rows IH]; intros offset child_num s Hs; [destruct Hs|].
  cbn [number_from] in Hs. destruct Hs as [<- | Hs].
  - exists x. cbn. auto.
  - apply IH in Hs. destruct Hs as (r & Hr & H). exists r. cbn. auto.
Qed.

(** Below a top-level record the offset counter stands still. *)
Lemma number_from_children query_name rows :
  forall offset child_num,
    Forall (fun r => exists q, row_parent_id r = Some q) rows ->
    Forall (fun s => sql_query_offset s = offset /\ sql_parent_id s <> None)
           (number_from query_name offset child_num rows).
Proof.
  induction rows as [|x rows IH]; intros offset child_num H; [constructor|].
  inversion H as [|? ? (q & Hq) Hrest]; subst. cbn [number_from].
  rewrite Hq. cbn [is_none]. constructor.
  - cbn. split; [reflexivity | discriminate].
  - apply IH. exact Hrest.
Qed.

Lemma page_rows_within query_name nodes n offset child_num s :
  In s (number_from query_name offset child_num (flatten_spec_list None nodes n)) ->
  within n (n + Z.of_nat (address_count_list nodes)) s.
Proof.
  intros Hs. apply number_from_In in Hs. destruct Hs as (r & Hr & Hid & Hpar).
  destruct (siblings_shape_all nodes None n) as (_ & Hids & _ & Hall).
  split.
  - rewrite Hid. apply z_seq_In. rewrite <- Hids. now apply in_map.
  - rewrite Hpar. rewrite Forall_forall in Hall. apply Hall. exact Hr.
Qed.

Lemma block_offsets query_name e n offset child_num p r :
  In p (number_from query_name offset child_num (flatten_spec e None n)) ->
  In r (number_from query_name offset child_num (flatten_spec e None n)) ->
  sql_parent_id r <> None ->
  sql_query_offset r
  = sql_query_offset p + (if is_none (sql_parent_id p) then 1 else 0).
Proof.
  destruct (subtree_shape_all e None n) as (_ & _ & _ & tail & -> & Hpar).
  cbn [number_from make_row row_parent_id is_none].
  set (head := {| sql_query_name := query_name; sql_query_offset := offset |}).
  assert (Htail : Forall (fun s => sql_query_offset s = offset + 1
                                   /\ sql_parent_id s <> None)
                         (number_from query_name (offset + 1) 0 tail)).
  { apply number_from_children. eapply Forall_impl; [|exact Hpar].
    cbn beta. intros x (q & Hq & _). now exists q. }
  rewrite Forall_forall in Htail.
  intros [<- | Hp] [<- | Hr] Hne.
  - now destruct Hne.
  - destruct (Htail _ Hr) as [-> _]. reflexivity.
  - now destruct Hne.
  - destruct (Htail _ Hr) as [-> _]. destruct (Htail _ Hp) as [-> Hpn].
    destruct (sql_parent_id p); [cbn; lia | now destruct Hpn].
Qed.

Lemma page_child_offsets query_name addresses :
  forall n offset child_num p r,
    In p (number_from query_name offset child_num (flatten_spec_list None addresses n)) ->
    In r (number_from query_name offset child_num (flatten_spec_list None addresses n)) ->
    sql_parent_id r = Some (sql_id p) ->
    sql_query_offset r
    = sql_query_offset p + (if is_none (sql_parent_id p) then 1 else 0).
Proof.
  induction addresses as [|a l IH]; intros n offset child_num p r Hp Hr Hpar.
  - destruct Hp.
  - cbn [flatten_spec_list] in Hp, Hr.
    destruct (number_from_app query_name (flatten_spec a None n) offset child_num
                (flatten_spec_list None l (n + Z.of_nat (address_count a))))
      as (o & c & Happ).
    rewrite Happ in Hp, Hr. apply in_app_or in Hp, Hr.
    assert (Hblock : forall s,
               In s (number_from query_name offset child_num (flatten_spec a None n)) ->
               within n (n + Z.of_nat (address_count a)) s).
    { intros s Hs.
      replace (address_count a) with (address_count_list [a]) by (cbn; lia).
      apply (page_rows_within query_name [a] n offset child_num).
      cbn [flatten_spec_list]. rewrite app_nil_r. exact Hs. }
    pose proof (fun s => @page_rows_within query_name l
                           (n + Z.of_nat (address_count a)) o c s) as Hrest.
    destruct Hp as [Hp | Hp], Hr as [Hr | Hr].
    + eapply block_offsets; try eassumption. rewrite Hpar. discriminate.
    + apply Hblock in Hp. apply Hrest in Hr.
      destruct Hp as [Hid _], Hr as [_ [Hn | (q & Hq & Hrange)]]; [congruence|].
      rewrite Hq in Hpar. injection Hpar as ->. lia.
    + apply Hrest in Hp. apply Hblock in Hr.
      destruct Hp as [Hid _], Hr as [_ [Hn | (q & Hq & Hrange)]]; [congruence|].
      rewrite Hq in Hpar. injection Hpar as ->. lia.
    + eapply IH; eassumption.
Qed.

(** C10 (as the code has it). The offset counter is incremented right
    after a top-level record is emitted and before its children are:
    a child of a top-level record carries its parent's query_offset
    plus 1, and a child of a child record carries its parent's
    query_offset unchanged. *)
Theorem C10_child_offset_follows_parent :
  forall (query_name : pystr) (query_offset : Z) (addresses : list element)
         (first_next_id : Z) (p r : sql_row),
    let rows := page_sql_rows query_name query_offset addresses first_next_id in
    In p rows -> In r rows ->
    sql_parent_id r = Some (sql_id p) ->
    sql_query_offset r
    = sql_query_offset p + (if is_none (sql_parent_id p) then 1 else 0).
Proof.
  intros query_name query_offset addresses first p r rows Hp Hr Hpar.
  subst rows. rewrite page_sql_rows_from in Hp, Hr.
  eapply page_child_offsets; eassumption.
Qed.

Lemma C10_child_offset_follows_parent_witness :
  exists p r,
    nth_error sample_rows 0 = Some p /\ nth_error sample_rows 1 = Some r
    /\ sql_parent_id r = Some (sql_id p)
    /\ sql_query_offset r = sql_query_offset p + 1.
Proof.
  eexists. eexists.
  split; [reflexivity|]. split; [reflexivity|]. split; [reflexivity|].
  apply (C10_child_offset_follows_parent (py "aa") 0 sample_addresses 1).
  - apply nth_error_In with (n := 0%nat). reflexivity.
  - apply nth_error_In with (n := 1%nat). reflexivity.
  - reflexivity.
Defined.

(** C10, as stated, fails: on the sample page the parent record has
    query_offset 0 and its first child has query_offset 1. *)
Lemma C10_child_offset_differs_from_parent :
  ~ child_has_parent_offset sample_rows.
Proof.
  intros H.
  assert (exists p r, nth_error sample_rows 0 = Some p
                      /\ nth_error sample_rows 1 = Some r) as (p & r & Hp & Hr)
    by (eexists; eexists; split; reflexivity).
  specialize (H p r (nth_error_In _ _ Hp) (nth_error_In _ _ Hr)).
  injection Hp as <-. injection Hr as <-.
  specialize (H eq_refl). discriminate H.
Qed.

(** ** Column values *)

Lemma pystr_eqb_eq a b : pystr_eqb a b = true <-> a = b.
Proof.
  unfold pystr_eqb. destruct (list_eq_dec N.eq_dec a b); split; congruence.
Qed.

Lemma row_get_make_row current_id parent_id e col :
  In col telefonbuch_columns ->
  row_get (make_row current_id parent_id e) col = Some (column_value e col).
Proof.
  unfold row_get, make_row. cbn [row_cols].
  generalize telefonbuch_columns as cols.
  induction cols as [|c cols IH]; intros Hin; [destruct Hin|].
  cbn [List.map List.find fst].
  destruct (pystr_eqb c col) eqn:Hc.
  - apply pystr_eqb_eq in Hc. subst c. reflexivity.
  - destruct Hin as [-> | Hin]; [|now apply IH].
    assert (pystr_eqb col col = true) by now apply pystr_eqb_eq. congruence.
Qed.

Lemma lstrip_nil s : lstrip s = [] <-> forallb py_isspace s = true.
Proof.
  induction s as [|c s IH]; cbn; [tauto|].
  destruct (py_isspace c); cbn; [exact IH | split; discriminate].
Qed.

Lemma lstrip_spaces_only s : forallb py_isspace (lstrip s) = true -> lstrip s = [].
Proof.
  induction s as [|c s IH]; cbn; [reflexivity|].
  destruct (py_isspace c) eqn:Hc; [exact IH|].
  cbn. rewrite Hc. discriminate.
Qed.

Lemma forallb_rev {A} (f : A -> bool) l : forallb f (rev l) = forallb f l.
Proof.
  induction l as [|a l IH]; [reflexivity|].
  cbn [rev forallb]. rewrite forallb_app, IH. cbn. rewrite andb_true_r. apply andb_comm.
Qed.

Lemma strip_nil t : strip t = [] <-> forallb py_isspace t = true.
Proof.
  unfold strip, rstrip. split.
  - intros H. apply (f_equal (@rev N)) in H. rewrite rev_involutive in H.
    cbn [rev] in H. apply lstrip_nil in H. rewrite forallb_rev in H.
    apply lstrip_spaces_only in H. now apply lstrip_nil.
  - intros H. apply lstrip_nil in H. rewrite H. reflexivity.
Qed.

(** C8 (as the code has it). A schema field that is absent from the
    node, or whose text is missing or empty, is null in the row; any
    other text is stored stripped of surrounding whitespace; so a
    stored field is the empty string exactly when the source text is
    non-empty and consists of whitespace only. *)
Theorem C8_absent_or_empty_field_is_null :
  forall (address_elem : element) (current_id : Z) (parent_id : option Z)
         (col : pystr),
    In col telefonbuch_columns ->
    let v := row_get (make_row current_id parent_id address_elem) col in
    (find col address_elem = None -> v = Some None)
    /\ (forall elem, find col address_elem = Some elem ->
                     el_text elem = None \/ el_text elem = Some [] ->
                     v = Some None)
    /\ (forall elem t, find col address_elem = Some elem ->
                       el_text elem = Some t -> t <> [] ->
                       v = Some (Some (strip t)))
    /\ (v = Some (Some []) <->
        exists elem t, find col address_elem = Some elem
                       /\ el_text elem = Some t /\ t <> []
                       /\ forallb py_isspace t = true).
Proof.
  intros e current_id parent_id col Hin v. subst v.
  rewrite (row_get_make_row current_id parent_id e Hin). unfold column_value.
  repeat split.
  - intros ->. reflexivity.
  - intros elem -> [-> | ->]; reflexivity.
  - intros elem t -> -> Ht. destruct t as [|c t]; [now destruct Ht | reflexivity].
  - destruct (find col e) as [elem|]; [|discriminate].
    destruct (el_text elem) as [[|c t]|] eqn:Htext; cbn [str_bool]; try discriminate.
    intros H. injection H as H. exists elem, (c :: t).
    split; [reflexivity|]. split; [exact Htext|].
    split; [discriminate | now apply strip_nil].
  - intros (elem & t & -> & -> & Ht & Hsp).
    destruct t as [|c t]; [now destruct Ht|].
    apply strip_nil in Hsp. cbn [str_bool]. now rewrite Hsp.
Qed.

Lemma C8_absent_or_empty_field_is_null_witness :
  row_get (make_row 4 None sample_single) (py "city") = Some None
  /\ row_get (make_row 4 None sample_single) (py "name0") = Some (Some (py "Beispiel")).
Proof.
  assert (Hcity : In (py "city") telefonbuch_columns)
    by (apply nth_error_In with (n := 18%nat); reflexivity).
  assert (Hname : In (py "name0") telefonbuch_columns)
    by (apply nth_error_In with (n := 0%nat); reflexivity).
  split.
  - exact (proj1 (C8_absent_or_empty_field_is_null sample_single 4 None Hcity) eq_refl).
  - exact (proj1 (proj2 (proj2
             (C8_absent_or_empty_field_is_null sample_single 4 None Hname)))
             (leaf "name0" "Beispiel") (py "Beispiel") eq_refl eq_refl
             ltac:(discriminate)).
Defined.

(** C8, as stated, fails in its second half: a [street] whose text is
    a single blank is stored as the empty string. *)
Lemma C8_blank_text_gives_empty_string :
  ~ no_empty_string_field sample_single.
Proof.
  intros H. apply (H 4 None (py "street")). reflexivity.
Qed.

(** ** The enumerator *)

Lemma flat_map_map {A B C} (f : B -> list C) (g : A -> B) l :
  flat_map f (List.map g l) = flat_map (fun x => f (g x)) l.
Proof. induction l as [|a l IH]; cbn; [reflexivity | now rewrite IH]. Qed.

Lemma product_2 (alphabet : pystr) : product alphabet 2 = cartesian_square alphabet.
Proof.
  cbn [product flat_map]. rewrite app_nil_r, flat_map_map. reflexivity.
Qed.

Lemma collect_query_names_filter tuples :
  forall acc,
    Forall (fun t => t <> []) tuples ->
    collect_query_names tuples acc
    = Ok (acc ++ filter (fun k => negb (starts_with_digit k)) tuples).
Proof.
  induction tuples as [|t tuples IH]; intros acc H.
  - cbn. now rewrite app_nil_r.
  - inversion H as [|? ? Ht Hrest]; subst.
    destruct t as [|c t]; [now destruct Ht|].
    cbn [collect_query_names filter starts_with_digit].
    destruct (char_in c string_digits); cbn [negb].
    + now apply IH.
    + rewrite IH by assumption. rewrite <- app_assoc. reflexivity.
Qed.

Lemma cartesian_square_nonempty alphabet :
  Forall (fun t => t <> []) (cartesian_square alphabet).
Proof.
  apply Forall_forall. intros t Ht. unfold cartesian_square in Ht.
  apply in_flat_map in Ht. destruct Ht as (a & _ & Ht).
  apply in_map_iff in Ht. destruct Ht as (b & <- & _). discriminate.
Qed.

(** C4. For every alphabet, the names of length 2 are the full
    Cartesian square of the alphabet in lexicographic product order
    without the names whose first character is a digit; for the
    alphabet a, b, c, 1 these are aa ab ac a1 ba bb bc b1 ca cb cc c1. *)
Theorem C4_query_names_length_two :
  (forall alphabet : pystr,
      query_names alphabet 2
      = Ok (filter (fun k => negb (starts_with_digit k)) (cartesian_square alphabet)))
  /\ query_names (py "abc1") 2
     = Ok (List.map py ["aa"; "ab"; "ac"; "a1"; "ba"; "bb"; "bc"; "b1";
                        "ca"; "cb"; "cc"; "c1"]%string).
Proof.
  split; [|reflexivity].
  intros alphabet. unfold query_names. rewrite product_2.
  rewrite collect_query_names_filter by apply cartesian_square_nonempty.
  reflexivity.
Qed.

(** ** Runs: the monad *)

Lemma bind_run {A B} (m : M A) (f : A -> M B) st out st' :
  bind m f st = (out, st') ->
  (exists a st1, m st = (Ok a, st1) /\ f a st1 = (out, st'))
  \/ (exists e, m st = (Raise e, st') /\ out = Raise e).
Proof.
  unfold bind. destruct (m st) as [[a|e] st1] eqn:Hm; intros H.
  - left. eauto.
  - right. injection H as <- <-. eauto.
Qed.

Lemma ret_run {A} (a : A) st out st' : ret a st = (out, st') -> out = Ok a /\ st' = st.
Proof. unfold ret. intros H. injection H as <- <-. auto. Qed.

Lemma raise_run {A} e st (out : outcome A) st' :
  raise e st = (out, st') -> out = Raise e /\ st' = st.
Proof. unfold raise. intros H. injection H as <- <-. auto. Qed.

Lemma assert_run {A} b e (a : A) st out st' :
  assert_ b e a st = (out, st') ->
  st' = st /\ (if b then out = Ok a else out = Raise e).
Proof.
  unfold assert_. destruct b; intros H.
  - apply ret_run in H. tauto.
  - apply raise_run in H. tauto.
Qed.

Lemma fatal_on_nil {A} flag x (out : outcome A) : fatal_on flag x [] out.
Proof. intros ev []. Qed.

Lemma fatal_on_app {A B} flag x t1 t2 (a : A) (out : outcome B) :
  fatal_on flag x t1 (Ok a) -> fatal_on flag x t2 out ->
  fatal_on flag x (t1 ++ t2) out.
Proof.
  intros H1 H2 ev Hin Hflag. apply in_app_or in Hin. destruct Hin as [Hin | Hin].
  - specialize (H1 ev Hin Hflag). discriminate.
  - exact (H2 ev Hin Hflag).
Qed.

Lemma fatal_on_unflagged {A} flag x t (out : outcome A) :
  Forall (fun ev => flag ev = false) t -> fatal_on flag x t out.
Proof.
  intros H ev Hin Hflag. rewrite Forall_forall in H. specialize (H ev Hin). congruence.
Qed.

Lemma fatal_on_retype {A B} flag x t e :
  fatal_on flag x t (@Raise A e) -> fatal_on flag x t (@Raise B e).
Proof. intros H ev Hin Hflag. specialize (H ev Hin Hflag). congruence. Qed.

(** ** Runs: the session client *)

Lemma session_get_run session req st out st' :
  session_get session req st = (out, st') ->
  db st' = db st
  /\ exists rep, trace st' = trace st ++ [(req, rep)]
                 /\ match out with
                    | Ok r => rep = Reply r
                    | Raise _ => rep = Failed
                    end.
Proof.
  unfold session_get. destruct (session (trace st) req) as [|r] eqn:Hrep;
    intros H; injection H as <- <-; cbn [db trace]; split; try reflexivity;
    eexists; split; reflexivity.
Qed.

(** The polling loop either returns the first response that is
    through, with its result count, after responses that were not; or
    it raises, having seen no fetched page, and raises [SystemExit]
    if it saw a response without result count. *)
Lemma poll_run session req retries :
  forall st out st',
    poll_search_results session req retries st = (out, st') ->
    db st' = db st
    /\ exists t,
         trace st' = trace st ++ t
         /\ Forall (fun ev => fst ev = req) t
         /\ match out with
            | Ok (num_results, r) =>
                hitcount_tag r = Some num_results
                /\ reply_through (Reply r) = true
                /\ exists pre, t = pre ++ [(req, Reply r)]
                               /\ Forall (fun ev => reply_through (snd ev) = false) pre
            | Raise e =>
                Forall (fun ev => reply_page (snd ev) = false) t
                /\ forall ev, In ev t -> reply_no_hitcount (snd ev) = true ->
                              e = SystemExit_1
            end.
Proof.
  induction retries as [|n IH]; intros st out st' H; cbn [poll_search_results] in H.
  - apply raise_run in H. destruct H as [-> ->]. split; [reflexivity|].
    exists []. rewrite app_nil_r. splits; try constructor.
  - apply bind_run in H. destruct H as [(r & st1 & Hget & H) | (e & Hget & ->)].
    + apply session_get_run in Hget. destruct Hget as (Hdb1 & rep & Htr1 & ->).
      apply bind_run in H. destruct H as [([] & st2 & Has & H) | (e & Has & ->)].
      * apply assert_run in Has. destruct Has as [-> Hst].
        destruct (status r =? 200) eqn:Hstatus; [clear Hst | discriminate].
        destruct (loading r) eqn:Hload.
        -- apply IH in H. destruct H as (Hdb & t & Htr & Hreq & Hout).
           split; [congruence|]. exists ((req, Reply r) :: t).
           split; [rewrite Htr, Htr1, <- app_assoc; reflexivity|].
           split; [constructor; [reflexivity | exact Hreq]|].
           assert (Hthis : reply_through (Reply r) = false)
             by (cbn; rewrite Hstatus, Hload; reflexivity).
           destruct out as [[h r']|e].
           ++ destruct Hout as (Hh & Hthrough & pre & -> & Hpre).
              splits; try assumption.
              exists ((req, Reply r) :: pre). split; [reflexivity|].
              constructor; assumption.
           ++ destruct Hout as (Hpage & Hexit). split.
              ** constructor; [|exact Hpage]. unfold reply_page.
                 cbn [snd]. rewrite Hthis. reflexivity.
              ** intros ev [<- | Hin] Hflag; [|eauto].
                 unfold reply_no_hitcount in Hflag. cbn [snd] in Hflag.
                 rewrite Hthis in Hflag. discriminate.
        -- assert (Hthis : reply_through (Reply r) = true)
             by (cbn; rewrite Hstatus, Hload; reflexivity).
           destruct (hitcount_tag r) as [h|] eqn:Hhit.
           ++ apply ret_run in H. destruct H as [-> ->].
              split; [assumption|]. exists [(req, Reply r)].
              splits; try assumption; [repeat constructor|].
              exists []. split; [reflexivity | constructor].
           ++ apply raise_run in H. destruct H as [-> ->].
              split; [assumption|]. exists [(req, Reply r)].
              splits; try assumption; [repeat constructor | | reflexivity].
              repeat constructor. unfold reply_page. cbn [snd].
              rewrite Hhit. cbn. apply andb_false_r.
      * apply assert_run in Has. destruct Has as [-> Hst].
        destruct (status r =? 200) eqn:Hstatus; [discriminate|].
        injection Hst as ->.
        assert (Hthis : reply_through (Reply r) = false)
          by (cbn; rewrite Hstatus; reflexivity).
        split; [assumption|]. exists [(req, Reply r)].
        splits; try assumption; [repeat constructor | |].
        -- repeat constructor. unfold reply_page. cbn [snd]. now rewrite Hthis.
        -- intros ev [<- | []] Hflag. unfold reply_no_hitcount in Hflag.
           cbn [snd] in Hflag. rewrite Hthis in Hflag. discriminate.
    + apply session_get_run in Hget. destruct Hget as (Hdb1 & rep & Htr1 & ->).
      split; [assumption|]. exists [(req, Failed)].
      splits; try assumption; [repeat constructor | repeat constructor |].
      intros ev [<- | []] Hflag. discriminate.
Qed.

(** ** Runs: the table and its ids *)

Lemma coalesce_max_id_snoc t r :
  sql_id r = coalesce_max_id t + 1 -> coalesce_max_id (t ++ [r]) = sql_id r.
Proof.
  unfold coalesce_max_id. destruct t as [|r0 t]; [reflexivity|].
  cbn [app max_id]. rewrite map_app, fold_left_app. cbn [List.map fold_left].
  intros ->. lia.
Qed.

Lemma coalesce_continues new :
  forall t, continues_ids t new ->
            coalesce_max_id (t ++ new) = coalesce_max_id t + Z.of_nat (length new).
Proof.
  unfold continues_ids.
  induction new as [|r new IH]; intros t H.
  - rewrite app_nil_r. cbn. lia.
  - cbn [List.map length] in H. rewrite z_seq_S in H. injection H as Hr Hnew.
    replace (t ++ r :: new) with ((t ++ [r]) ++ new)
      by (rewrite <- app_assoc; reflexivity).
    rewrite IH; rewrite (coalesce_max_id_snoc t r Hr).
    + cbn [length]. lia.
    + rewrite Hnew, Hr. reflexivity.
Qed.

Lemma continues_ids_nil t : continues_ids t [].
Proof. reflexivity. Qed.

Lemma continues_ids_app t new1 new2 :
  continues_ids t new1 -> continues_ids (t ++ new1) new2 ->
  continues_ids t (new1 ++ new2).
Proof.
  intros H1 H2. unfold continues_ids in *.
  rewrite (coalesce_continues H1) in H2.
  rewrite map_app, length_app, z_seq_app, H1, H2. do 2 f_equal. lia.
Qed.

Lemma app_eq_same_length {A} (l1 l1' l2 l2' : list A) :
  length l1 = length l1' -> l1 ++ l2 = l1' ++ l2' -> l1 = l1'.
Proof.
  revert l1'. induction l1 as [|a l1 IH]; intros [|a' l1'] Hlen H;
    try discriminate; [reflexivity|].
  cbn in Hlen, H. injection H as -> H. f_equal. apply IH; [lia | exact H].
Qed.

Lemma continues_ids_prefix t ins rest :
  continues_ids t (ins ++ rest) -> continues_ids t ins.
Proof.
  unfold continues_ids. rewrite map_app, length_app, z_seq_app. intros H.
  eapply app_eq_same_length; [|exact H].
  now rewrite length_map, z_seq_length.
Qed.

Lemma page_sql_rows_ids query_name query_offset addresses first_next_id :
  List.map sql_id (page_sql_rows query_name query_offset addresses first_next_id)
  = z_seq first_next_id
          (length (page_sql_rows query_name query_offset addresses first_next_id)).
Proof.
  rewrite page_sql_rows_from, number_from_ids, number_from_length.
  destruct (siblings_shape_all addresses None first_next_id) as (Hlen & Hids & _).
  now rewrite Hids, Hlen.
Qed.


Lemma table_commit d : table (db_commit d) = table d.
Proof. unfold table, db_commit. cbn. now rewrite app_nil_r. Qed.

Lemma executemany_run rows :
  forall st out st',
    executemany rows st = (out, st') ->
    trace st' = trace st
    /\ committed (db st') = committed (db st)
    /\ exists ins rest,
         rows = ins ++ rest
         /\ pending (db st') = pending (db st) ++ ins
         /\ match out with
            | Ok _ => rest = []
            | Raise e => e = IntegrityError
            end.
Proof.
  induction rows as [|r rows IH]; intros st out st' H; cbn [executemany] in H.
  - apply ret_run in H. destruct H as [-> ->]. splits; try reflexivity.
    exists [], []. rewrite ?app_nil_r. splits; reflexivity.
  - destruct (conflicts r (table (db st))).
    + injection H as <- <-. splits; try reflexivity.
      exists [], (r :: rows). rewrite ?app_nil_r. splits; reflexivity.
    + apply IH in H. cbn [db trace db_insert committed pending] in H.
      destruct H as (Htr & Hcom & ins & rest & -> & Hpen & Hout).
      splits; try assumption.
      exists (r :: ins), rest. splits; [reflexivity | | exact Hout].
      rewrite Hpen, <- app_assoc. reflexivity.
Qed.

Lemma insert_page_run query_name query_offset xml_bytes st out st' :
  insert_page query_name query_offset xml_bytes st = (out, st') ->
  trace st' = trace st
  /\ committed (db st') = committed (db st)
  /\ (exists ins, pending (db st') = pending (db st) ++ ins
                  /\ continues_ids (table (db st)) ins)
  /\ (page_mismatch xml_bytes = true -> out = Raise AssertionError_perpage).
Proof.
  unfold insert_page. intros H.
  apply bind_run in H. destruct H as [(t & st1 & Ht & H) | (e & Ht & ->)];
    [|discriminate Ht].
  injection Ht as <- <-.
  assert (Hstay : trace st = trace st /\ committed (db st) = committed (db st)
                  /\ exists ins, pending (db st) = pending (db st) ++ ins
                                 /\ continues_ids (table (db st)) ins).
  { splits; try reflexivity. exists []. rewrite app_nil_r.
    split; [reflexivity | apply continues_ids_nil]. }
  destruct Hstay as (Htr0 & Hcom0 & Hpen0).
  apply bind_run in H. destruct H as [([] & st1 & Hchk & H) | (e & Hchk & ->)].
  - assert (Hok : st1 = st /\ page_mismatch xml_bytes = false).
    { unfold check_results_per_page, page_mismatch in *.
      destruct (perpage_tag xml_bytes) as [p|].
      - apply assert_run in Hchk. destruct Hchk as [-> Hb].
        destruct (Z.of_N p =? results_per_page); [auto | discriminate].
      - apply ret_run in Hchk. destruct Hchk as [_ ->]. auto. }
    destruct Hok as [-> Hmatch].
    apply bind_run in H. destruct H as [(root & st1 & Hroot & H) | (e & Hroot & ->)].
    + unfold fromstring in Hroot. destruct (document xml_bytes); [|discriminate Hroot].
      injection Hroot as <- <-.
      apply executemany_run in H.
      destruct H as (Htr & Hcom & ins & rest & Hrows & Hpen & _).
      splits; try assumption; [|congruence].
      exists ins. split; [exact Hpen|].
      apply continues_ids_prefix with (rest := rest). rewrite <- Hrows.
      apply page_sql_rows_ids.
    + unfold fromstring in Hroot. destruct (document xml_bytes); [discriminate Hroot|].
      injection Hroot as <- <-. splits; try assumption. congruence.
  - unfold check_results_per_page, page_mismatch in *.
    destruct (perpage_tag xml_bytes) as [p|]; [|discriminate Hchk].
    apply assert_run in Hchk. destruct Hchk as [-> Hb].
    destruct (Z.of_N p =? results_per_page); [discriminate|].
    injection Hb as ->. splits; try assumption. reflexivity.
Qed.

(** ** Runs: the page loop *)

Lemma table_grows st st' ins :
  committed (db st') = committed (db st) ->
  pending (db st') = pending (db st) ++ ins ->
  table (db st') = table (db st) ++ ins.
Proof. unfold table. intros -> ->. apply app_assoc. Qed.

Lemma loop_effect_refl sessionid query_name {A} st (out : outcome A) :
  loop_effect sessionid query_name st out st.
Proof.
  unfold loop_effect. splits; [reflexivity | |].
  - exists []. rewrite app_nil_r. split; [reflexivity | apply continues_ids_nil].
  - exists []. rewrite app_nil_r. splits; try reflexivity; try constructor;
      apply fatal_on_nil.
Qed.

Lemma loop_effect_trans sessionid query_name {A B} st (a : A) st1
    (out : outcome B) st' :
  loop_effect sessionid query_name st (Ok a) st1 ->
  loop_effect sessionid query_name st1 out st' ->
  loop_effect sessionid query_name st out st'.
Proof.
  intros (Hcom1 & (ins1 & Hpen1 & Hids1) & t1 & Htr1 & Hreq1 & Hexit1 & Hpp1)
         (Hcom2 & (ins2 & Hpen2 & Hids2) & t2 & Htr2 & Hreq2 & Hexit2 & Hpp2).
  unfold loop_effect. splits; [congruence | |].
  - exists (ins1 ++ ins2). split; [rewrite Hpen2, Hpen1; symmetry; apply app_assoc|].
    apply continues_ids_app; [exact Hids1|].
    now rewrite <- (@table_grows st st1 ins1 Hcom1 Hpen1).
  - exists (t1 ++ t2). splits.
    + rewrite Htr2, Htr1. symmetry; apply app_assoc.
    + apply Forall_app. auto.
    + eapply fatal_on_app; eassumption.
    + eapply fatal_on_app; eassumption.
Qed.

Lemma loop_effect_retype sessionid query_name {A B} st e st' :
  @loop_effect sessionid query_name A st (Raise e) st' ->
  @loop_effect sessionid query_name B st (Raise e) st'.
Proof.
  intros (Hcom & Hpen & t & Htr & Hreq & Hexit & Hpp).
  unfold loop_effect. splits; try assumption.
  exists t. splits; try assumption; eapply fatal_on_retype; eassumption.
Qed.

(** Fetching a page: a successful fetch ends with the page it
    returns, and nothing before that page was through. *)
Lemma get_search_results_run session sessionid query_name query_offset st out st' :
  get_search_results session sessionid query_name query_offset st = (out, st') ->
  db st' = db st
  /\ exists t,
       trace st' = trace st ++ t
       /\ Forall (searches sessionid query_name) t
       /\ Forall (fun ev => fst ev
                            = search_request sessionid query_name query_offset) t
       /\ match out with
          | Ok (num_results, r) =>
              hitcount_tag r = Some num_results
              /\ reply_through (Reply r) = true
              /\ exists pre,
                   t = pre ++ [(search_request sessionid query_name query_offset,
                                Reply r)]
                   /\ Forall (fun ev => reply_through (snd ev) = false) pre
          | Raise e =>
              Forall (fun ev => reply_page (snd ev) = false) t
              /\ forall ev, In ev t -> reply_no_hitcount (snd ev) = true ->
                            e = SystemExit_1
          end.
Proof.
  unfold get_search_results. intros H. apply poll_run in H.
  destruct H as (Hdb & t & Htr & Hreq & Hout). split; [exact Hdb|].
  exists t. splits; try assumption.
  eapply Forall_impl; [|exact Hreq]. cbn beta. intros ev Hev.
  unfold searches. rewrite Hev. unfold search_request. eexists. reflexivity.
Qed.

Lemma not_through_flags rep :
  reply_through rep = false ->
  reply_no_hitcount rep = false /\ reply_mismatch rep = false
  /\ reply_page rep = false.
Proof.
  unfold reply_no_hitcount, reply_mismatch, reply_page. intros ->. auto.
Qed.

Lemma fetch_effect session sessionid query_name query_offset st out st' :
  get_search_results session sessionid query_name query_offset st = (out, st') ->
  match out with
  | Ok (_, r) =>
      page_mismatch r = false -> loop_effect sessionid query_name st out st'
  | Raise _ => loop_effect sessionid query_name st out st'
  end.
Proof.
  intros H. apply get_search_results_run in H.
  destruct H as (Hdb & t & Htr & Hreq & _ & Hout).
  assert (Hframe : committed (db st') = committed (db st)
                   /\ exists ins, pending (db st') = pending (db st) ++ ins
                                  /\ continues_ids (table (db st)) ins).
  { rewrite Hdb. split; [reflexivity|]. exists []. rewrite app_nil_r.
    split; [reflexivity | apply continues_ids_nil]. }
  destruct Hframe as (Hcom & Hpen).
  destruct out as [[h r]|e].
  - intros Hmatch. destruct Hout as (Hh & Hthrough & pre & -> & Hpre).
    unfold loop_effect. splits; try assumption.
    eexists. splits; [exact Htr | exact Hreq | |];
      apply fatal_on_unflagged; apply Forall_app; split;
      try (eapply Forall_impl; [|exact Hpre]; cbn beta;
           intros ev Hev; now apply not_through_flags in Hev);
      repeat constructor; cbn [snd].
    + unfold reply_no_hitcount. rewrite Hh. cbn. apply andb_false_r.
    + unfold reply_mismatch. rewrite Hmatch. apply andb_false_r.
  - destruct Hout as (Hpage & Hexit).
    unfold loop_effect. splits; try assumption.
    eexists. splits; [exact Htr | exact Hreq | |].
    + intros ev Hin Hflag. f_equal. eauto.
    + apply fatal_on_unflagged. eapply Forall_impl; [|exact Hpage]. cbn beta.
      intros ev Hev. unfold reply_mismatch. now rewrite Hev.
Qed.

Lemma insert_page_effect sessionid query_name query_offset xml_bytes st out st' :
  insert_page query_name query_offset xml_bytes st = (out, st') ->
  loop_effect sessionid query_name st out st'
  /\ (page_mismatch xml_bytes = true -> out = Raise AssertionError_perpage).
Proof.
  intros H. apply insert_page_run in H. destruct H as (Htr & Hcom & Hpen & Hpp).
  split; [|exact Hpp]. unfold loop_effect. splits; try assumption.
  exists []. rewrite app_nil_r. splits; try assumption; try constructor;
    apply fatal_on_nil.
Qed.

Lemma page_body_run session sessionid query_name query_offset loop_idx xml_bytes
    st out st' :
  page_body session sessionid query_name query_offset loop_idx xml_bytes st
  = (out, st') ->
  loop_effect sessionid query_name st out st'
  /\ (loop_idx <= 0 -> page_mismatch xml_bytes = true ->
      out = Raise AssertionError_perpage).
Proof.
  unfold page_body. intros H.
  apply bind_run in H. destruct H as [(xml & st1 & Hfetch & H) | (e & Hfetch & ->)].
  - apply bind_run in H. destruct H as [([] & st2 & Hins & H) | (e & Hins & ->)].
    + apply ret_run in H. destruct H as [-> ->].
      apply (insert_page_effect sessionid) in Hins. destruct Hins as [Heff Hpp].
      destruct (page_mismatch xml) eqn:Hmatch; [now specialize (Hpp eq_refl)|].
      destruct (loop_idx >? 0) eqn:Hidx.
      * apply bind_run in Hfetch.
        destruct Hfetch as [([h r] & st0 & Hget & Hret) | (e & _ & He)];
          [|discriminate He].
        apply ret_run in Hret. destruct Hret as [Hxml ->].
        injection Hxml as <-. cbn [snd] in *.
        apply fetch_effect in Hget. specialize (Hget Hmatch).
        split; [|lia].
        eapply loop_effect_trans; [exact Hget|].
        destruct Heff as (H1 & H2 & t & H3 & H4 & H5 & H6).
        unfold loop_effect. splits; try assumption.
        exists t. splits; try assumption;
          intros ev Hin Hflag; [specialize (H5 ev Hin Hflag)
                               | specialize (H6 ev Hin Hflag)]; discriminate.
      * apply ret_run in Hfetch. destruct Hfetch as [Hxml ->].
        injection Hxml as <-. split; [|congruence].
        destruct Heff as (H1 & H2 & t & H3 & H4 & H5 & H6).
        unfold loop_effect. splits; try assumption.
        exists t. splits; try assumption;
          intros ev Hin Hflag; [specialize (H5 ev Hin Hflag)
                               | specialize (H6 ev Hin Hflag)]; discriminate.
    + apply (insert_page_effect sessionid) in Hins. destruct Hins as [Heff Hpp].
      destruct (loop_idx >? 0) eqn:Hidx.
      * apply bind_run in Hfetch.
        destruct Hfetch as [([h r] & st0 & Hget & Hret) | (e' & _ & He)];
          [|discriminate He].
        apply ret_run in Hret. destruct Hret as [Hxml ->].
        injection Hxml as <-. cbn [snd] in *. split; [|lia].
        destruct (page_mismatch xml) eqn:Hmatch.
        -- specialize (Hpp eq_refl). injection Hpp as ->.
           apply get_search_results_run in Hget.
           destruct Hget as (Hdb & t & Htr & Hreq & _ & Hh & Hthrough & pre & -> & Hpre).
           destruct Heff as (H1 & (ins & H2 & H2') & t2 & H3 & H4 & H5 & H6).
           unfold loop_effect. rewrite Hdb in *. splits; try assumption.
           ++ exists ins. auto.
           ++ exists ((pre ++ [(search_request sessionid query_name query_offset,
                               Reply xml)]) ++ t2).
              splits.
              ** rewrite H3, Htr. symmetry; apply app_assoc.
              ** apply Forall_app. auto.
              ** intros ev Hin Hflag. exfalso.
                 apply in_app_or in Hin. destruct Hin as [Hin | Hin];
                   [|specialize (H5 ev Hin Hflag); discriminate].
                 apply in_app_or in Hin. destruct Hin as [Hin | [<- | []]].
                 --- rewrite Forall_forall in Hpre.
                     apply Hpre, not_through_flags in Hin. intuition congruence.
                 --- unfold reply_no_hitcount in Hflag. cbn [snd] in Hflag.
                     rewrite Hh in Hflag. cbn in Hflag.
                     rewrite andb_false_r in Hflag. discriminate.
              ** intros ev Hin Hflag. reflexivity.
        -- apply fetch_effect in Hget. specialize (Hget Hmatch).
           eapply loop_effect_trans;
             [exact Hget | eapply loop_effect_retype; exact Heff].
      * apply ret_run in Hfetch. destruct Hfetch as [Hxml ->].
        injection Hxml as <-.
        split; [eapply loop_effect_retype; exact Heff|].
        intros _ Hm. specialize (Hpp Hm). congruence.
  - destruct (loop_idx >? 0) eqn:Hidx; [|discriminate Hfetch]. split; [|lia].
    apply bind_run in Hfetch.
    destruct Hfetch as [(res & st0 & _ & Hret) | (e' & Hget & He)];
      [discriminate Hret|].
    injection He as <-. apply fetch_effect in Hget.
    eapply loop_effect_retype. exact Hget.
Qed.

Lemma page_loop_run session sessionid query_name offsets :
  forall loop_idx xml_bytes st out st',
    page_loop session sessionid query_name offsets loop_idx xml_bytes st
    = (out, st') ->
    loop_effect sessionid query_name st out st'
    /\ (loop_idx + 1 <= 0 -> offsets <> [] -> page_mismatch xml_bytes = true ->
        out = Raise AssertionError_perpage).
Proof.
  induction offsets as [|query_offset rest IH];
    intros loop_idx xml_bytes st out st' H; cbn [page_loop] in H.
  - apply ret_run in H. destruct H as [-> ->].
    split; [apply loop_effect_refl | intros _ Hne; now destruct Hne].
  - apply bind_run in H. destruct H as [(xml & st1 & Hbody & H) | (e & Hbody & ->)].
    + apply page_body_run in Hbody. destruct Hbody as [Heff Hfirst].
      apply IH in H. destruct H as [Hrest _]. split.
      * eapply loop_effect_trans; eassumption.
      * intros Hidx _ Hm. specialize (Hfirst Hidx Hm). discriminate.
    + apply page_body_run in Hbody. destruct Hbody as [Heff Hfirst]. split.
      * eapply loop_effect_retype. exact Heff.
      * intros Hidx _ Hm. specialize (Hfirst Hidx Hm). congruence.
Qed.

Lemma py_range_nonempty stop step :
  0 < stop -> 0 < step -> py_range 0 stop step <> [].
Proof.
  intros Hstop Hstep. unfold py_range.
  assert (1 <= (stop - 0 + step - 1) / step).
  { apply Z.div_le_lower_bound; lia. }
  destruct (Z.to_nat ((stop - 0 + step - 1) / step)) eqn:Hn; [lia|].
  cbn. discriminate.
Qed.

(** ** Runs: one query name *)

Lemma has_key_app query_name t new :
  has_key query_name (t ++ new)
  = has_key query_name t || has_key query_name new.
Proof. apply existsb_app. Qed.

(** What one round of the loop over the query names does. *)
Lemma process_query_name_run session sessionid query_name st out st' :
  process_query_name session sessionid query_name st = (out, st') ->
  (exists new, table (db st') = table (db st) ++ new
               /\ continues_ids (table (db st)) new)
  /\ match out with
     | Ok _ => pending (db st) = [] -> pending (db st') = []
     | Raise _ => committed (db st') = committed (db st)
     end
  /\ exists t,
       trace st' = trace st ++ t
       /\ Forall (searches sessionid query_name) t
       /\ fatal_on missing_hitcount SystemExit_1 t out
       /\ fatal_on (bad_page query_name) AssertionError_perpage t out
       /\ (has_key query_name (table (db st)) = true -> t = []).
Proof.
  unfold process_query_name. intros H.
  apply bind_run in H. destruct H as [(t & st0 & Ht & H) | (e & Ht & _)];
    [|discriminate Ht].
  injection Ht as <- <-.
  assert (Hnone : exists new, table (db st) = table (db st) ++ new
                              /\ continues_ids (table (db st)) new).
  { exists []. rewrite app_nil_r. split; [reflexivity | apply continues_ids_nil]. }
  destruct (has_key query_name (table (db st))) eqn:Hkey.
  { apply ret_run in H. destruct H as [-> ->]. splits; [exact Hnone | auto |].
    exists []. rewrite app_nil_r.
    splits; try reflexivity; try constructor; apply fatal_on_nil. }
  apply bind_run in H. destruct H as [([h r] & st1 & Hget & H) | (e & Hget & ->)].
  - apply get_search_results_run in Hget.
    destruct Hget as (Hdb & t0 & Htr0 & Hreq0 & _ & Hh & Hthrough & pre & -> & Hpre).
    assert (Hquiet : forall ev, In ev pre ->
                                missing_hitcount ev = false
                                /\ bad_page query_name ev = false).
    { intros ev Hin. rewrite Forall_forall in Hpre.
      apply Hpre, not_through_flags in Hin. destruct Hin as (H1 & H2 & _).
      unfold missing_hitcount, bad_page. rewrite H1, H2.
      rewrite !andb_false_r. auto. }
    assert (Hlast : missing_hitcount
                      (search_request sessionid query_name 0, Reply r) = false).
    { unfold missing_hitcount, reply_no_hitcount. cbn [snd]. rewrite Hh.
      cbn. now rewrite !andb_false_r. }
    destruct (h =? 0)%N eqn:Hzero.
    + apply ret_run in H. destruct H as [-> ->]. rewrite Hdb.
      splits; [exact Hnone | auto |].
      eexists. splits; [exact Htr0 | exact Hreq0 | | | discriminate].
      * intros ev Hin Hflag. exfalso. apply in_app_or in Hin.
        destruct Hin as [Hin | [<- | []]]; [|congruence].
        apply Hquiet in Hin. intuition congruence.
      * intros ev Hin Hflag. exfalso. apply in_app_or in Hin.
        destruct Hin as [Hin | [<- | []]].
        -- apply Hquiet in Hin. intuition congruence.
        -- unfold bad_page, reply_has_results in Hflag. cbn [fst snd] in Hflag.
           rewrite Hh, Hzero in Hflag. cbn in Hflag.
           rewrite andb_false_r in Hflag. discriminate.
    + assert (Hloop : forall out2 st2,
                 page_loop session sessionid query_name
                   (py_range 0 (Z.of_N h + 1) results_per_page) (-1) r st1
                 = (out2, st2) ->
                 (exists new, table (db st2) = table (db st) ++ new
                              /\ continues_ids (table (db st)) new)
                 /\ committed (db st2) = committed (db st)
                 /\ exists t,
                      trace st2 = trace st ++ t
                      /\ Forall (searches sessionid query_name) t
                      /\ fatal_on missing_hitcount SystemExit_1 t out2
                      /\ fatal_on (bad_page query_name) AssertionError_perpage t out2).
      { intros out2 st2 Hrun. apply page_loop_run in Hrun.
        destruct Hrun as [(Hcom & (ins & Hpen & Hids) & t2 & Htr2 & Hreq2 & Hexit & Hpp)
                            Hfirst].
        rewrite Hdb in *. splits; [| exact Hcom |].
        - exists ins. split; [now apply table_grows | exact Hids].
        - eexists. splits.
          + rewrite Htr2, Htr0. symmetry. apply app_assoc.
          + apply Forall_app. auto.
          + intros ev Hin Hflag. apply in_app_or in Hin.
            destruct Hin as [Hin | Hin]; [exfalso|].
            * apply in_app_or in Hin. destruct Hin as [Hin | [<- | []]];
                [|congruence].
              apply Hquiet in Hin. intuition congruence.
            * apply (Hexit ev Hin). unfold missing_hitcount in Hflag.
              now apply andb_prop in Hflag.
          + intros ev Hin Hflag. apply in_app_or in Hin.
            destruct Hin as [Hin | Hin].
            * apply in_app_or in Hin. destruct Hin as [Hin | [<- | []]].
              -- apply Hquiet in Hin. intuition congruence.
              -- apply Hfirst; [lia | |].
                 ++ apply py_range_nonempty; [lia | reflexivity].
                 ++ unfold bad_page, reply_mismatch in Hflag.
                    cbn [fst snd] in Hflag.
                    destruct (page_mismatch r); [reflexivity|].
                    rewrite !andb_false_r in Hflag. discriminate.
            * apply (Hpp ev Hin). unfold bad_page in Hflag.
              apply andb_prop in Hflag. destruct Hflag as [Hflag _].
              now apply andb_prop in Hflag. }
      apply bind_run in H. destruct H as [([] & st2 & Hrun & H) | (e & Hrun & ->)].
      * apply Hloop in Hrun.
        destruct Hrun as (Hnew & Hcom & t & Htr & Hreq & Hexit & Hpp).
        injection H as <- <-. cbn [db trace]. rewrite table_commit.
        splits; [exact Hnew | reflexivity |].
        exists t. splits; try assumption. discriminate.
      * apply Hloop in Hrun.
        destruct Hrun as (Hnew & Hcom & t & Htr & Hreq & Hexit & Hpp).
        splits; [exact Hnew | exact Hcom |].
        exists t. splits; try assumption. discriminate.
  - apply get_search_results_run in Hget.
    destruct Hget as (Hdb & t0 & Htr0 & Hreq0 & _ & Hpage & Hexit).
    rewrite Hdb. splits; [exact Hnone | reflexivity |].
    exists t0. splits; try assumption; [| | discriminate].
    + intros ev Hin Hflag. f_equal. apply (Hexit ev Hin).
      unfold missing_hitcount in Hflag. now apply andb_prop in Hflag.
    + intros ev Hin Hflag. exfalso. rewrite Forall_forall in Hpage.
      specialize (Hpage ev Hin). unfold bad_page, reply_mismatch in Hflag.
      rewrite Hpage in Hflag. cbn in Hflag. rewrite andb_false_r in Hflag.
      discriminate.
Qed.

(** ** Runs: the loop over the query names *)

Lemma searches_other_name sessionid query_name k ev :
  searches sessionid query_name ev ->
  is_search_for k (fst ev) = true -> k = query_name.
Proof.
  intros [action ->]. cbn. intros H. apply pystr_eqb_eq in H. congruence.
Qed.

Lemma bad_page_name sessionid query_name k ev :
  searches sessionid query_name ev -> bad_page k ev = true -> k = query_name.
Proof.
  intros Hs Hbad. unfold bad_page in Hbad.
  apply andb_prop in Hbad. destruct Hbad as [Hbad _].
  apply andb_prop in Hbad. destruct Hbad as [Hbad _].
  eapply searches_other_name; eassumption.
Qed.

Lemma main_loop_run session sessionid query_name_list :
  forall st out st',
    main_loop session sessionid query_name_list st = (out, st') ->
    pending (db st) = [] ->
    (exists new, table (db st') = table (db st) ++ new
                 /\ continues_ids (table (db st)) new)
    /\ exists t,
         trace st' = trace st ++ t
         /\ fatal_on missing_hitcount SystemExit_1 t out
         /\ (forall k, has_key k (table (db st)) = true ->
                       Forall (fun ev => is_search_for k (fst ev) = false) t)
         /\ (forall ev k, In ev t -> bad_page k ev = true ->
                          out = Raise AssertionError_perpage
                          /\ has_key k (committed (db st')) = false).
Proof.
  induction query_name_list as [|query_name rest IH];
    intros st out st' H Hopen; cbn [main_loop] in H.
  - apply ret_run in H. destruct H as [-> ->]. split.
    + exists []. rewrite app_nil_r. split; [reflexivity | apply continues_ids_nil].
    + exists []. rewrite app_nil_r. splits; try reflexivity.
      * apply fatal_on_nil.
      * constructor.
      * intros ev k [].
  - apply bind_run in H. destruct H as [([] & st1 & Hkey & H) | (e & Hkey & ->)].
    + apply process_query_name_run in Hkey.
      destruct Hkey as ((new1 & Htab1 & Hids1) & Hpen1 & t1 & Htr1 & Hreq1
                        & Hexit1 & Hbad1 & Hskip1).
      apply IH in H; [|auto].
      destruct H as ((new2 & Htab2 & Hids2) & t2 & Htr2 & Hexit2 & Hquiet2 & Hbad2).
      split.
      * exists (new1 ++ new2). split.
        -- rewrite Htab2, Htab1. symmetry. apply app_assoc.
        -- apply continues_ids_app; [exact Hids1 | now rewrite <- Htab1].
      * exists (t1 ++ t2). splits.
        -- rewrite Htr2, Htr1. symmetry. apply app_assoc.
        -- eapply fatal_on_app; eassumption.
        -- intros k Hk. apply Forall_app. split.
           ++ apply Forall_forall. intros ev Hin.
              destruct (is_search_for k (fst ev)) eqn:Hfor; [exfalso | reflexivity].
              rewrite Forall_forall in Hreq1.
              pose proof (@searches_other_name _ _ k ev (Hreq1 ev Hin) Hfor) as Heq. subst k.
              rewrite (Hskip1 Hk) in Hin. destruct Hin.
           ++ apply Hquiet2. rewrite Htab1, has_key_app, Hk. reflexivity.
        -- intros ev k Hin Hflag. apply in_app_or in Hin.
           destruct Hin as [Hin | Hin]; [exfalso | eauto].
           rewrite Forall_forall in Hreq1.
           pose proof (@bad_page_name _ _ k ev (Hreq1 ev Hin) Hflag) as ->.
           specialize (Hbad1 ev Hin Hflag). discriminate.
    + apply process_query_name_run in Hkey.
      destruct Hkey as ((new1 & Htab1 & Hids1) & Hcom1 & t1 & Htr1 & Hreq1
                        & Hexit1 & Hbad1 & Hskip1).
      split; [exists new1; auto|].
      exists t1. splits.
      * exact Htr1.
      * eapply fatal_on_retype. exact Hexit1.
      * intros k Hk. apply Forall_forall. intros ev Hin.
        destruct (is_search_for k (fst ev)) eqn:Hfor; [exfalso | reflexivity].
        rewrite Forall_forall in Hreq1.
        pose proof (@searches_other_name _ _ k ev (Hreq1 ev Hin) Hfor) as Heq. subst k.
        rewrite (Hskip1 Hk) in Hin. destruct Hin.
      * intros ev k Hin Hflag.
        rewrite Forall_forall in Hreq1.
        pose proof (@bad_page_name _ _ k ev (Hreq1 ev Hin) Hflag) as ->.
        specialize (Hbad1 ev Hin Hflag). split; [congruence|].
        rewrite Hcom1.
        destruct (has_key query_name (table (db st))) eqn:Hk.
        -- rewrite (Hskip1 eq_refl) in Hin. destruct Hin.
        -- unfold table in Hk. rewrite Hopen, app_nil_r in Hk. exact Hk.
Qed.

(** ** Runs: the whole script *)

Lemma get_sessionid_run session st out st' :
  get_sessionid session st = (out, st') ->
  db st' = db st
  /\ exists t, trace st' = trace st ++ t
               /\ Forall (fun ev => is_search (fst ev) = false) t.
Proof.
  unfold get_sessionid. intros H.
  apply bind_run in H. destruct H as [(r & st1 & Hget & H) | (e & Hget & ->)];
    apply session_get_run in Hget; destruct Hget as (Hdb & rep & Htr & _).
  - assert (st' = st1) as ->.
    { apply bind_run in H. destruct H as [([] & st2 & Has & H) | (e & Has & ->)];
        apply assert_run in Has; destruct Has as [-> _]; [|reflexivity].
      destruct (sessionid_tag r); [apply ret_run in H | apply raise_run in H];
        tauto. }
    split; [exact Hdb|]. eexists. split; [exact Htr | repeat constructor].
  - split; [exact Hdb|]. eexists. split; [exact Htr | repeat constructor].
Qed.

Lemma set_results_per_page_run session sessionid st out st' :
  set_results_per_page session sessionid st = (out, st') ->
  db st' = db st
  /\ exists t, trace st' = trace st ++ t
               /\ Forall (fun ev => is_search (fst ev) = false) t.
Proof.
  unfold set_results_per_page. intros H.
  apply bind_run in H. destruct H as [(r & st1 & Hget & H) | (e & Hget & ->)];
    apply session_get_run in Hget; destruct Hget as (Hdb & rep & Htr & _).
  - apply bind_run in H. destruct H as [([] & st2 & Has & H) | (e & Has & ->)];
      apply assert_run in Has; destruct Has as [-> _].
    + apply bind_run in H. destruct H as [(r2 & st3 & Hget & H) | (e & Hget & ->)];
        apply session_get_run in Hget; destruct Hget as (Hdb2 & rep2 & Htr2 & _).
      * apply assert_run in H. destruct H as [-> _].
        split; [congruence|]. exists [(GetPreferences sessionid, rep);
                                      (SavePreferences sessionid results_per_page, rep2)].
        split; [rewrite Htr2, Htr, <- app_assoc; reflexivity | repeat constructor].
      * split; [congruence|]. exists [(GetPreferences sessionid, rep);
                                      (SavePreferences sessionid results_per_page, rep2)].
        split; [rewrite Htr2, Htr, <- app_assoc; reflexivity | repeat constructor].
    + split; [exact Hdb|]. eexists. split; [exact Htr | repeat constructor].
  - split; [exact Hdb|]. eexists. split; [exact Htr | repeat constructor].
Qed.

Lemma not_search_flags ev :
  is_search (fst ev) = false ->
  missing_hitcount ev = false
  /\ (forall k, bad_page k ev = false)
  /\ (forall k, is_search_for k (fst ev) = false).
Proof.
  unfold missing_hitcount, bad_page. destruct ev as [[] rep]; cbn; try discriminate;
    auto.
Qed.

(** Everything the later theorems need about a whole run. *)
Lemma main_inner_with_run alphabet name_length session store out st' :
  main_inner_with alphabet name_length session (start store) = (out, st') ->
  (exists new, table (db st') = store ++ new /\ continues_ids store new)
  /\ fatal_on missing_hitcount SystemExit_1 (trace st') out
  /\ (forall k, has_key k store = true ->
                Forall (fun ev => is_search_for k (fst ev) = false) (trace st'))
  /\ (forall ev k, In ev (trace st') -> bad_page k ev = true ->
                   out = Raise AssertionError_perpage
                   /\ has_key k (committed (db st')) = false).
Proof.
  unfold main_inner_with. intros H.
  assert (Hstart : table (db (start store)) = store)
    by (unfold table, start; cbn; apply app_nil_r).
  assert (Hquiet : forall (o : outcome unit) st1 t,
             db st1 = db (start store) ->
             trace st1 = t ->
             Forall (fun ev => is_search (fst ev) = false) t ->
             (exists new, table (db st1) = store ++ new /\ continues_ids store new)
             /\ fatal_on missing_hitcount SystemExit_1 (trace st1) o
             /\ (forall k, has_key k store = true ->
                           Forall (fun ev => is_search_for k (fst ev) = false)
                                  (trace st1))
             /\ (forall ev k, In ev (trace st1) -> bad_page k ev = true ->
                              o = Raise AssertionError_perpage
                              /\ has_key k (committed (db st1)) = false)).
  { intros o st1 t Hdb -> Hno. rewrite Hdb, Hstart. rewrite Forall_forall in Hno.
    splits.
    - exists []. rewrite app_nil_r. split; [reflexivity | apply continues_ids_nil].
    - intros ev Hin Hflag. apply Hno, not_search_flags in Hin.
      destruct Hin as (Hm & _). congruence.
    - intros k _. apply Forall_forall. intros ev Hin.
      apply Hno, not_search_flags in Hin. apply Hin.
    - intros ev k Hin Hflag. apply Hno, not_search_flags in Hin.
      destruct Hin as (_ & Hb & _). rewrite Hb in Hflag. discriminate. }
  apply bind_run in H. destruct H as [(sid & st1 & Hsid & H) | (e & Hsid & ->)];
    apply get_sessionid_run in Hsid; destruct Hsid as (Hdb1 & t1 & Htr1 & Hno1);
    [|apply (Hquiet _ _ t1); auto].
  apply bind_run in H. destruct H as [([] & st2 & Hset & H) | (e & Hset & ->)];
    apply set_results_per_page_run in Hset;
    destruct Hset as (Hdb2 & t2 & Htr2 & Hno2);
    assert (Hno : Forall (fun ev => is_search (fst ev) = false) (t1 ++ t2))
      by (apply Forall_app; auto).
  2: { apply (Hquiet _ _ (t1 ++ t2));
         [congruence | rewrite Htr2, Htr1; reflexivity | exact Hno]. }
  assert (Htr : trace st2 = t1 ++ t2) by (rewrite Htr2, Htr1; reflexivity).
  assert (Hdb : db st2 = db (start store)) by congruence.
  destruct (query_names alphabet name_length) as [query_name_list|e].
  - apply main_loop_run in H; [|rewrite Hdb; reflexivity].
    rewrite Hdb, Hstart in H.
    destruct H as (Hnew & t & Htrace & Hexit & Hskip & Hbad).
    rewrite Htr in Htrace. rewrite Forall_forall in Hno.
    splits; [exact Hnew | | |].
    + intros ev Hin Hflag. rewrite Htrace in Hin. apply in_app_or in Hin.
      destruct Hin as [Hin | Hin]; [exfalso | eauto].
      apply Hno, not_search_flags in Hin. destruct Hin as (Hm & _). congruence.
    + intros k Hk. rewrite Htrace. apply Forall_app. split; [|auto].
      apply Forall_forall. intros ev Hin.
      apply Hno, not_search_flags in Hin. apply Hin.
    + intros ev k Hin Hflag. rewrite Htrace in Hin. apply in_app_or in Hin.
      destruct Hin as [Hin | Hin]; [exfalso | eauto].
      apply Hno, not_search_flags in Hin. destruct Hin as (_ & Hb & _).
      rewrite Hb in Hflag. discriminate.
  - apply raise_run in H. destruct H as [-> ->]. apply (Hquiet _ _ (t1 ++ t2)); auto.
Qed.

(** ** The claims about runs *)

(** C1. A query name with at least one record in the store at the start
    of a run is skipped before any request is sent for it: the run
    sends no search request for that name, whatever the service
    answers. *)
Theorem C1_present_key_is_never_searched :
  forall (alphabet : pystr) (name_length : nat) (session : session_t)
         (store : list sql_row) (k : pystr),
    has_key k store = true ->
    Forall (fun req => is_search_for k req = false)
           (requests (snd (run_with alphabet name_length session store))).
Proof.
  intros alphabet name_length session store k Hk.
  unfold run_with, requests.
  destruct (main_inner_with alphabet name_length session (start store)) as [out st'] eqn:H.
  apply main_inner_with_run in H. destruct H as (_ & _ & Hskip & _).
  cbn [snd]. apply Forall_map. exact (Hskip k Hk).
Qed.

Lemma C1_present_key_is_never_searched_witness :
  has_key (py "aa") sample_rows = true
  /\ Forall (fun req => is_search_for (py "aa") req = false)
            (requests (snd (run (sample_session (Some 4%N) (Some 15%N)) sample_rows))).
Proof.
  split; [reflexivity|].
  apply (C1_present_key_is_never_searched query_name_alphabet query_name_length
           (sample_session (Some 4%N) (Some 15%N)) sample_rows (py "aa")).
  reflexivity.
Defined.

(** C2 (as the code has it). When a page the page loop takes up (any
    page fetched by a page jump, and the page that starts the search
    unless it reports zero results) reports a page size other than the
    configured one, the run ends in the failed assertion before the
    commit of that query name, and the store holds no record of that
    query name afterwards. *)
Theorem C2_page_size_mismatch_aborts_uncommitted :
  forall (alphabet : pystr) (name_length : nat) (session : session_t)
         (store : list sql_row) (ev : event) (k : pystr),
    In ev (trace (snd (run_with alphabet name_length session store))) ->
    bad_page k ev = true ->
    fst (run_with alphabet name_length session store) = Raise AssertionError_perpage
    /\ has_key k (store_after (snd (run_with alphabet name_length session store))) = false.
Proof.
  intros alphabet name_length session store ev k. unfold run_with, store_after.
  destruct (main_inner_with alphabet name_length session (start store)) as [out st'] eqn:H.
  apply main_inner_with_run in H. destruct H as (_ & _ & _ & Hbad).
  cbn [fst snd]. apply Hbad.
Qed.

Lemma C2_page_size_mismatch_aborts_uncommitted_witness :
  fst (run drifting_session []) = Raise AssertionError_perpage
  /\ has_key (py "aa") (store_after (snd (run drifting_session []))) = false.
Proof.
  apply (C2_page_size_mismatch_aborts_uncommitted
           query_name_alphabet query_name_length drifting_session []
           (Search 7 (py "aa") (BtnPage 2),
            Reply (sample_response (Some 16%N) (Some 30%N)))
           (py "aa")).
  - apply nth_error_In with (n := 4%nat). vm_compute. reflexivity.
  - vm_compute. reflexivity.
Defined.

(** C2, as stated, fails for a page that starts a search and reports
    zero results: the name is skipped before the page size is looked
    at, and the run goes on to its end. *)
Lemma C2_mismatch_on_empty_result_is_not_fatal :
  ~ mismatch_is_fatal (run (sample_session (Some 0%N) (Some 30%N)) []).
Proof.
  intros H.
  specialize (H (Search 7 (py "aa") BtnHidden,
                 Reply (sample_response (Some 0%N) (Some 30%N)))).
  assert (Hin : In (Search 7 (py "aa") BtnHidden,
                    Reply (sample_response (Some 0%N) (Some 30%N)))
                   (trace (snd (run (sample_session (Some 0%N) (Some 30%N)) []))))
    by (apply nth_error_In with (n := 3%nat); vm_compute; reflexivity).
  specialize (H Hin eq_refl eq_refl).
  vm_compute in H. discriminate H.
Qed.

(** The single counter runs on from page to page. *)
Lemma seeded_once_rows_cons query_name query_offset addresses rest n :
  seeded_once_rows query_name ((query_offset, addresses) :: rest) {| next_id := n |}
  = page_sql_rows query_name query_offset addresses n
      ++ seeded_once_rows query_name rest
           {| next_id := n + Z.of_nat (length (page_sql_rows query_name query_offset
                                                 addresses n)) |}.
Proof.
  cbn [seeded_once_rows]. rewrite flatten_addresses_spec. cbn [app next_id].
  unfold page_sql_rows at 1, page_numbering. rewrite all_rows_of_spec.
  f_equal. f_equal. f_equal. f_equal.
  rewrite page_sql_rows_from, number_from_length.
  destruct (siblings_shape_all addresses None n) as (Hlen & _). now rewrite Hlen.
Qed.

Lemma seeded_once_rows_ids query_name pages :
  forall n,
    List.map sql_id (seeded_once_rows query_name pages {| next_id := n |})
    = z_seq n (length (seeded_once_rows query_name pages {| next_id := n |})).
Proof.
  induction pages as [|[query_offset addresses] rest IH]; intros n; [reflexivity|].
  rewrite seeded_once_rows_cons, map_app, length_app, z_seq_app.
  rewrite page_sql_rows_ids, IH. reflexivity.
Qed.

(** A page that is inserted brings all the rows of its document, with
    ids from the largest id of the table on. *)
Lemma insert_page_rows query_name query_offset xml_bytes st st' :
  insert_page query_name query_offset xml_bytes st = (Ok tt, st') ->
  exists page,
    page_of xml_bytes query_offset page
    /\ trace st' = trace st
    /\ committed (db st') = committed (db st)
    /\ pending (db st')
       = pending (db st)
         ++ page_sql_rows query_name (fst page) (snd page)
              (coalesce_max_id (table (db st)) + 1).
Proof.
  unfold insert_page. intros H.
  apply bind_run in H. destruct H as [(t & st0 & Ht & H) | (e & Ht & _)];
    [|discriminate Ht].
  injection Ht as <- <-.
  apply bind_run in H. destruct H as [([] & st1 & Hchk & H) | (e & _ & Hno)];
    [|discriminate Hno].
  assert (st1 = st) as ->.
  { unfold check_results_per_page in Hchk.
    destruct (perpage_tag xml_bytes);
      [apply assert_run in Hchk | apply ret_run in Hchk]; tauto. }
  apply bind_run in H.
  destruct H as [(xml_root & st2 & Hparse & H) | (e & _ & Hno)];
    [|discriminate Hno].
  unfold fromstring in Hparse.
  destruct (document xml_bytes) as [root|] eqn:Hdoc;
    [apply ret_run in Hparse | apply raise_run in Hparse];
    destruct Hparse as [Hroot ->]; [|discriminate Hroot].
  injection Hroot as <-.
  apply executemany_run in H.
  destruct H as (Htr & Hcom & ins & rest & Hrows & Hpen & ->).
  rewrite app_nil_r in Hrows. subst ins.
  exists (query_offset, findall_entries_address xml_root).
  splits; [exists xml_root; auto | exact Htr | exact Hcom | exact Hpen].
Qed.

Lemma page_body_rows session sessionid query_name query_offset loop_idx xml_bytes
    st xml_bytes' st' :
  page_body session sessionid query_name query_offset loop_idx xml_bytes st
  = (Ok xml_bytes', st') ->
  exists page,
    page_of xml_bytes' query_offset page
    /\ (loop_idx <= 0 -> xml_bytes' = xml_bytes)
    /\ (0 < loop_idx ->
        In (search_request sessionid query_name query_offset, Reply xml_bytes')
           (trace st'))
    /\ committed (db st') = committed (db st)
    /\ pending (db st')
       = pending (db st)
         ++ page_sql_rows query_name (fst page) (snd page)
              (coalesce_max_id (table (db st)) + 1).
Proof.
  unfold page_body. intros H.
  apply bind_run in H. destruct H as [(r & st1 & Hfetch & H) | (e & _ & Hno)];
    [|discriminate Hno].
  apply bind_run in H. destruct H as [([] & st2 & Hins & H) | (e & _ & Hno)];
    [|discriminate Hno].
  apply ret_run in H. destruct H as [Hr ->]. injection Hr as <-.
  apply insert_page_rows in Hins.
  destruct Hins as (page & Hpage & Htr & Hcom & Hpen).
  assert (Hsrc : db st1 = db st
                 /\ (loop_idx <= 0 -> xml_bytes' = xml_bytes)
                 /\ (0 < loop_idx ->
                     In (search_request sessionid query_name query_offset,
                         Reply xml_bytes')
                        (trace st1))).
  { destruct (loop_idx >? 0) eqn:Hidx.
    - apply bind_run in Hfetch.
      destruct Hfetch as [([h r'] & st3 & Hget & Hret) | (e & _ & Hno)];
        [|discriminate Hno].
      apply ret_run in Hret. destruct Hret as [Hr ->]. cbn [snd] in Hr.
      injection Hr as <-.
      apply get_search_results_run in Hget.
      destruct Hget as (Hdb & t & Htr1 & _ & _ & _ & _ & pre & -> & _).
      splits; [exact Hdb | intros; lia |].
      intros _. rewrite Htr1. apply in_or_app. right. apply in_or_app. right.
      left. reflexivity.
    - apply ret_run in Hfetch. destruct Hfetch as [Hr ->]. injection Hr as <-.
      splits; [reflexivity | reflexivity | intros; lia]. }
  destruct Hsrc as (Hdb & Hfirst & Hlater).
  exists page. rewrite Hdb in *. splits; auto.
  intros Hidx. rewrite Htr. auto.
Qed.

Lemma page_loop_fetched_rows session sessionid query_name offsets :
  forall loop_idx xml_bytes st st',
    page_loop session sessionid query_name offsets loop_idx xml_bytes st
    = (Ok tt, st') ->
    0 <= loop_idx ->
    exists pages,
      Forall2 (fetched_page sessionid query_name (trace st')) offsets pages
      /\ committed (db st') = committed (db st)
      /\ pending (db st')
         = pending (db st)
           ++ seeded_once_rows query_name pages
                {| next_id := coalesce_max_id (table (db st)) + 1 |}.
Proof.
  induction offsets as [|query_offset rest IH];
    intros loop_idx xml_bytes st st' H Hidx; cbn [page_loop] in H.
  - apply ret_run in H. destruct H as [_ ->]. exists [].
    cbn [seeded_once_rows]. rewrite app_nil_r. splits; auto.
  - cbv zeta in H. apply bind_run in H.
    destruct H as [(r & st1 & Hbody & H) | (e & _ & Hno)]; [|discriminate Hno].
    pose proof H as Hgrow. apply page_loop_run in Hgrow.
    destruct Hgrow as [(_ & _ & t & Htr & _) _].
    apply page_body_rows in Hbody.
    destruct Hbody as ([off addresses] & Hpage & _ & Hin & Hcom1 & Hpen1).
    assert (Hoff : off = query_offset).
    { destruct Hpage as (root & _ & Heq). congruence. }
    subst off. cbn [fst snd] in Hpen1.
    apply IH in H; [|lia]. destruct H as (pages & Hpages & Hcom2 & Hpen2).
    exists ((query_offset, addresses) :: pages). splits.
    + constructor; [|exact Hpages].
      exists r. split; [|exact Hpage]. rewrite Htr. apply in_or_app. left.
      apply Hin. lia.
    + congruence.
    + rewrite seeded_once_rows_cons, Hpen2, Hpen1, <- app_assoc.
      do 3 f_equal.
      rewrite (@table_grows st st1 _ Hcom1 Hpen1).
      rewrite (@coalesce_continues _ (table (db st))
                 (@page_sql_rows_ids query_name query_offset addresses _)).
      f_equal. lia.
Qed.

(** The page loop that ends normally has inserted the rows of all its
    pages, on one counter. *)
Lemma page_loop_rows session sessionid query_name first_offset rest_offsets
    xml_bytes st st' :
  page_loop session sessionid query_name (first_offset :: rest_offsets) (-1)
            xml_bytes st = (Ok tt, st') ->
  exists first rest,
    page_of xml_bytes first_offset first
    /\ Forall2 (fetched_page sessionid query_name (trace st')) rest_offsets rest
    /\ committed (db st') = committed (db st)
    /\ pending (db st')
       = pending (db st)
         ++ seeded_once_rows query_name (first :: rest)
              {| next_id := coalesce_max_id (table (db st)) + 1 |}.
Proof.
  intros H. cbn [page_loop] in H. cbv zeta in H.
  apply bind_run in H.
  destruct H as [(r & st1 & Hbody & H) | (e & _ & Hno)]; [|discriminate Hno].
  apply page_body_rows in Hbody.
  destruct Hbody as ([off addresses] & Hpage & Hsame & _ & Hcom1 & Hpen1).
  rewrite (Hsame ltac:(lia)) in Hpage.
  assert (Hoff : off = first_offset).
  { destruct Hpage as (root & _ & Heq). congruence. }
  subst off. cbn [fst snd] in Hpen1.
  apply page_loop_fetched_rows in H; [|lia].
  destruct H as (pages & Hpages & Hcom2 & Hpen2).
  exists (first_offset, addresses), pages.
  splits; [exact Hpage | exact Hpages | congruence |].
  rewrite seeded_once_rows_cons, Hpen2, Hpen1, <- app_assoc.
  do 3 f_equal.
  rewrite (@table_grows st st1 _ Hcom1 Hpen1).
  rewrite (@coalesce_continues _ (table (db st))
             (@page_sql_rows_ids query_name first_offset addresses _)).
  f_equal. lia.
Qed.

Lemma py_range_head stop step :
  0 < stop -> 0 < step ->
  py_range 0 stop step = 0 :: tl (py_range 0 stop step).
Proof.
  intros Hstop Hstep. unfold py_range.
  assert (1 <= (stop - 0 + step - 1) / step).
  { apply Z.div_le_lower_bound; lia. }
  destruct (Z.to_nat ((stop - 0 + step - 1) / step)) eqn:Hn; [lia|].
  reflexivity.
Qed.

(** C3. Within one transaction (the page loop of one query name, up
    to its commit) the records of all pages are inserted: the rows of
    the first page, which the search brought, and of every page
    fetched after it, flattened on one counter seeded with the largest
    id of the table, as the connection saw it when the transaction
    began, plus 1 (with 1 on an empty table).  Their ids are
    consecutive integers in increasing order from that value on.  The
    script creates the counter anew for every page from the largest
    id then in the table, which includes the rows the transaction has
    inserted so far; that value is the one the single counter has
    reached.  A round that ends normally commits exactly these rows.
    Also the rows of a round or run that breaks off continue the ids
    of the table. *)
Theorem C3_ids_continue_from_max :
  (forall (session : session_t) (sessionid : Z) (query_name : pystr)
          (first_offset : Z) (rest_offsets : list Z) (xml_bytes : response)
          (st st' : state),
      page_loop session sessionid query_name (first_offset :: rest_offsets) (-1)
                xml_bytes st = (Ok tt, st') ->
      let first_id := coalesce_max_id (table (db st)) + 1 in
      exists first rest,
        page_of xml_bytes first_offset first
        /\ Forall2 (fetched_page sessionid query_name (trace st')) rest_offsets rest
        /\ committed (db st') = committed (db st)
        /\ pending (db st')
           = pending (db st)
             ++ seeded_once_rows query_name (first :: rest) {| next_id := first_id |}
        /\ List.map sql_id
             (seeded_once_rows query_name (first :: rest) {| next_id := first_id |})
           = z_seq first_id
               (length (seeded_once_rows query_name (first :: rest)
                          {| next_id := first_id |})))
  /\ (forall (session : session_t) (sessionid : Z) (query_name : pystr)
             (st st' : state),
         process_query_name session sessionid query_name st = (Ok tt, st') ->
         pending (db st) = [] ->
         has_key query_name (committed (db st)) = false ->
         let first_id := coalesce_max_id (committed (db st)) + 1 in
         exists num_results xml_bytes,
           In (search_request sessionid query_name 0, Reply xml_bytes) (trace st')
           /\ hitcount_tag xml_bytes = Some num_results
           /\ pending (db st') = []
           /\ (num_results = 0%N -> committed (db st') = committed (db st))
           /\ (num_results <> 0%N ->
               exists first rest,
                 page_of xml_bytes 0 first
                 /\ Forall2 (fetched_page sessionid query_name (trace st'))
                            (tl (py_range 0 (Z.of_N num_results + 1)
                                          results_per_page))
                            rest
                 /\ committed (db st')
                    = committed (db st)
                      ++ seeded_once_rows query_name (first :: rest)
                           {| next_id := first_id |}
                 /\ List.map sql_id
                      (seeded_once_rows query_name (first :: rest)
                         {| next_id := first_id |})
                    = z_seq first_id
                        (length (seeded_once_rows query_name (first :: rest)
                                   {| next_id := first_id |}))))
  /\ (forall (session : session_t) (sessionid : Z) (query_name : pystr) (st : state),
         exists new,
           table (db (snd (process_query_name session sessionid query_name st)))
           = table (db st) ++ new
           /\ List.map sql_id new
              = z_seq (coalesce_max_id (table (db st)) + 1) (length new))
  /\ (forall (alphabet : pystr) (name_length : nat) (session : session_t)
             (store : list sql_row),
         exists new,
           table (db (snd (run_with alphabet name_length session store))) = store ++ new
           /\ List.map sql_id new
              = z_seq (coalesce_max_id store + 1) (length new))
  /\ (forall (t new : list sql_row),
         List.map sql_id new = z_seq (coalesce_max_id t + 1) (length new) ->
         coalesce_max_id (t ++ new) + 1
         = coalesce_max_id t + 1 + Z.of_nat (length new)).
Proof.
  splits.
  - intros session sessionid query_name first_offset rest_offsets xml_bytes st st'
           H first_id.
    subst first_id. apply page_loop_rows in H.
    destruct H as (first & rest & Hfirst & Hrest & Hcom & Hpen).
    exists first, rest. splits; try assumption. apply seeded_once_rows_ids.
  - intros session sessionid query_name st st' H Hopen Hkey first_id.
    subst first_id. unfold process_query_name in H.
    apply bind_run in H. destruct H as [(t & st0 & Ht & H) | (e & Ht & _)];
      [|discriminate Ht].
    injection Ht as <- <-.
    assert (Htab : table (db st) = committed (db st))
      by (unfold table; rewrite Hopen; apply app_nil_r).
    rewrite Htab, Hkey in H.
    apply bind_run in H. destruct H as [([h r] & st1 & Hget & H) | (e & _ & Hno)];
      [|discriminate Hno].
    apply get_search_results_run in Hget.
    destruct Hget as (Hdb & t0 & Htr0 & _ & _ & Hh & _ & pre & -> & _).
    assert (Hsent : In (search_request sessionid query_name 0, Reply r) (trace st1)).
    { rewrite Htr0. apply in_or_app. right. apply in_or_app. right. left.
      reflexivity. }
    exists h, r. destruct (h =? 0)%N eqn:Hzero.
    + apply ret_run in H. destruct H as [_ ->]. rewrite Hdb.
      apply N.eqb_eq in Hzero.
      splits; [exact Hsent | exact Hh | exact Hopen | reflexivity | congruence].
    + apply N.eqb_neq in Hzero.
      apply bind_run in H. destruct H as [([] & st2 & Hloop & H) | (e & _ & Hno)];
        [|discriminate Hno].
      injection H as <-. cbn [db trace db_commit committed pending].
      rewrite py_range_head in Hloop by (unfold results_per_page,
                                           max_results_per_page; lia).
      pose proof Hloop as Hgrow. apply page_loop_run in Hgrow.
      destruct Hgrow as [(_ & _ & t2 & Htr2 & _) _].
      apply page_loop_rows in Hloop.
      destruct Hloop as (first & rest & Hfirst & Hrest & Hcom & Hpen).
      rewrite Hdb, Hopen, Htab in *. cbn [app] in Hpen.
      splits; [ | exact Hh | reflexivity | congruence |].
      * rewrite Htr2. apply in_or_app. left. exact Hsent.
      * intros _. exists first, rest.
        splits; [exact Hfirst | exact Hrest | | apply seeded_once_rows_ids].
        rewrite Hcom, Hpen. reflexivity.
  - intros session sessionid query_name st.
    destruct (process_query_name session sessionid query_name st) as [out st'] eqn:H.
    apply process_query_name_run in H. destruct H as (Hnew & _). exact Hnew.
  - intros alphabet name_length session store. unfold run_with.
    destruct (main_inner_with alphabet name_length session (start store))
      as [out st'] eqn:H.
    apply main_inner_with_run in H. destruct H as (Hnew & _). exact Hnew.
  - intros t new Hnew. rewrite (@coalesce_continues new t Hnew). lia.
Qed.

(** A key with 16 results is fetched in two pages within one
    transaction: the ids of the eight records run from 1 to 8, the
    second page going on where the first stopped. *)
Lemma C3_ids_continue_from_max_witness :
  let result :=
    process_query_name (sample_session (Some 16%N) (Some 15%N)) 7 (py "aa")
                       (start []) in
  fst result = Ok tt
  /\ List.map sql_id (committed (db (snd result))) = [1; 2; 3; 4; 5; 6; 7; 8]
  /\ exists num_results xml_bytes,
       In (search_request 7 (py "aa") 0, Reply xml_bytes) (trace (snd result))
       /\ hitcount_tag xml_bytes = Some num_results
       /\ pending (db (snd result)) = []
       /\ (num_results = 0%N -> committed (db (snd result)) = [])
       /\ (num_results <> 0%N ->
           exists first rest,
             page_of xml_bytes 0 first
             /\ Forall2 (fetched_page 7 (py "aa") (trace (snd result)))
                        (tl (py_range 0 (Z.of_N num_results + 1) results_per_page))
                        rest
             /\ committed (db (snd result))
                = seeded_once_rows (py "aa") (first :: rest) {| next_id := 1 |}
             /\ List.map sql_id
                  (seeded_once_rows (py "aa") (first :: rest) {| next_id := 1 |})
                = z_seq 1 (length (seeded_once_rows (py "aa") (first :: rest)
                                     {| next_id := 1 |}))).
Proof.
  cbv zeta.
  split; [vm_compute; reflexivity|]. split; [vm_compute; reflexivity|].
  apply (proj1 (proj2 C3_ids_continue_from_max)
           (sample_session (Some 16%N) (Some 15%N)) 7 (py "aa") (start [])
           (snd (process_query_name (sample_session (Some 16%N) (Some 15%N)) 7
                   (py "aa") (start [])))).
  - vm_compute. reflexivity.
  - reflexivity.
  - reflexivity.
Defined.




(** ** Sample runs *)

(** A first run against the sample service stores the four records
    of aa, then a second run on that store sends one request less. *)
Example sample_run_then_resume :
  let first := run (sample_session (Some 4%N) (Some 15%N)) [] in
  let second := run (sample_session (Some 4%N) (Some 15%N)) (store_after (snd first)) in
  fst first = Ok tt
  /\ store_after (snd first) = sample_rows
  /\ fst second = Ok tt
  /\ store_after (snd second) = sample_rows
  /\ length (trace (snd first)) = 1203%nat
  /\ length (trace (snd second)) = 1202%nat.
Proof. vm_compute. repeat split. Qed.

(** Two pages fetched with polling: the ids run through both pages
    and the second page starts at offset 15. *)
Example slow_run_two_pages :
  List.map (fun r => (sql_query_offset r, sql_query_child_num r, sql_id r,
                      sql_parent_id r))
           (store_after (snd (run_with (py "a") 2
                                (slow_session (Some 16%N) (Some 15%N)) [])))
  = [(0, 0, 1, None); (1, 1, 2, Some 1); (1, 2, 3, Some 1); (1, 0, 4, None);
     (15, 0, 5, None); (16, 1, 6, Some 5); (16, 2, 7, Some 5); (16, 0, 8, None)].
Proof. vm_compute. reflexivity. Qed.

(** The aborted run leaves the first page's rows in the open
    transaction only. *)
Example drifting_run_discards_first_page :
  length (pending (db (snd (run drifting_session [])))) = 4%nat
  /\ store_after (snd (run drifting_session [])) = [].
Proof. vm_compute. split; reflexivity. Qed.

(* ===================================================================== *)
(** * Part III. Further properties of the script                          *)
(* ===================================================================== *)

(** ** parent_id refers to an earlier row of the page *)

Lemma z_seq_nth start len i :
  (i < len)%nat -> nth_error (z_seq start len) i = Some (start + Z.of_nat i).
Proof.
  intros Hi. unfold z_seq.
  rewrite (nth_error_map (fun k => start + Z.of_nat k) i (seq 0 len)).
  rewrite nth_error_seq.
  destruct (Nat.ltb_spec i len) as [_ | Hge]; [reflexivity | lia].
Qed.

Lemma z_seq_nth_inv start len i z :
  nth_error (z_seq start len) i = Some z -> (i < len)%nat /\ z = start + Z.of_nat i.
Proof.
  intros H.
  assert (Hi : (i < len)%nat).
  { rewrite <- (z_seq_length start len). apply nth_error_Some. congruence. }
  rewrite z_seq_nth in H by exact Hi. split; [exact Hi | congruence].
Qed.

(** In a flattened subtree every parent id is smaller than the id of
    the row that carries it, as long as that holds for the parent id
    handed in. *)
Lemma siblings_parent_below (nodes : list element) :
  Forall (fun e => forall p n,
              (forall q, p = Some q -> q < n) ->
              Forall (fun r => forall q, row_parent_id r = Some q -> q < row_id r)
                     (flatten_spec e p n)) nodes ->
  forall p n,
    (forall q, p = Some q -> q < n) ->
    Forall (fun r => forall q, row_parent_id r = Some q -> q < row_id r)
           (flatten_spec_list p nodes n).
Proof.
  induction 1 as [|c l Hc _ IH]; intros p n Hp; cbn [flatten_spec_list].
  - constructor.
  - apply Forall_app. split; [now apply Hc|].
    apply IH. intros q Hq. specialize (Hp q Hq). lia.
Qed.

Lemma subtree_parent_below e :
  forall p n,
    (forall q, p = Some q -> q < n) ->
    Forall (fun r => forall q, row_parent_id r = Some q -> q < row_id r)
           (flatten_spec e p n).
Proof.
  induction e as [t x cs IH] using element_ind. intros p n Hp.
  rewrite flatten_spec_unfold. constructor.
  - cbn [make_row row_parent_id row_id]. exact Hp.
  - apply siblings_parent_below.
    + now apply Forall_filter_keep.
    + intros q Hq. injection Hq as <-. lia.
Qed.

Lemma top_level_parent_below addresses n :
  Forall (fun r => forall q, row_parent_id r = Some q -> n <= q < row_id r)
         (flatten_spec_list None addresses n).
Proof.
  assert (Hbelow : Forall (fun r => forall q, row_parent_id r = Some q -> q < row_id r)
                          (flatten_spec_list None addresses n)).
  { apply siblings_parent_below; [|discriminate].
    apply Forall_forall. intros e _. apply subtree_parent_below. }
  destruct (siblings_shape_all addresses None n) as (_ & _ & _ & Hrange).
  rewrite Forall_forall in *. intros r Hr q Hq.
  specialize (Hbelow r Hr q Hq).
  destruct (Hrange r Hr) as [Hnone | (q' & Hq' & Hlo)]; [congruence|].
  assert (q' = q) by congruence. subst q'. lia.
Qed.

Lemma number_from_nth query_name rows :
  forall offset child_num j s,
    nth_error (number_from query_name offset child_num rows) j = Some s ->
    exists r, nth_error rows j = Some r
              /\ sql_id s = row_id r /\ sql_parent_id s = row_parent_id r.
Proof.
  induction rows as [|x rows IH]; intros offset child_num j s H.
  - destruct j; discriminate.
  - cbn [number_from] in H. destruct j as [|j]; cbn [nth_error] in *.
    + injection H as <-. exists x. auto.
    + eapply IH. exact H.
Qed.

(** X1. In the rows of one page a parent_id that is not null is the id
    of a row that stands earlier in the same page. *)
Theorem X1_parent_id_refers_to_earlier_row :
  forall (query_name : pystr) (query_offset : Z) (addresses : list element)
         (first_next_id : Z) (j : nat) (r : sql_row) (p : Z),
    nth_error (page_sql_rows query_name query_offset addresses first_next_id) j
    = Some r ->
    sql_parent_id r = Some p ->
    exists i q,
      (i < j)%nat
      /\ nth_error (page_sql_rows query_name query_offset addresses first_next_id) i
         = Some q
      /\ sql_id q = p.
Proof.
  intros query_name query_offset addresses first j r p Hr Hp.
  pose proof (page_sql_rows_ids query_name query_offset addresses first) as Hids.
  set (rows := page_sql_rows query_name query_offset addresses first) in *.
  assert (Hj : sql_id r = first + Z.of_nat j).
  { apply (map_nth_error sql_id) in Hr. rewrite Hids in Hr.
    now apply z_seq_nth_inv in Hr. }
  assert (Hrange : first <= p < sql_id r).
  { unfold rows in Hr. rewrite page_sql_rows_from in Hr.
    apply number_from_nth in Hr. destruct Hr as (x & Hx & Hid & Hpar).
    pose proof (top_level_parent_below addresses first) as Hall.
    rewrite Forall_forall in Hall. apply nth_error_In in Hx.
    rewrite Hid. apply (Hall x Hx). congruence. }
  assert (Hi : (Z.to_nat (p - first) < length rows)%nat).
  { assert (j < length rows)%nat by (apply nth_error_Some; congruence). lia. }
  destruct (nth_error rows (Z.to_nat (p - first))) as [q|] eqn:Hq;
    [|apply nth_error_None in Hq; lia].
  exists (Z.to_nat (p - first)), q. split; [lia|]. split; [exact Hq|].
  apply (map_nth_error sql_id) in Hq. rewrite Hids in Hq.
  apply z_seq_nth_inv in Hq. lia.
Qed.

Lemma X1_parent_id_refers_to_earlier_row_witness :
  exists i q, (i < 2)%nat /\ nth_error sample_rows i = Some q /\ sql_id q = 1.
Proof.
  refine (X1_parent_id_refers_to_earlier_row (py "aa") 0 sample_addresses 1 2 _ _).
  - reflexivity.
  - reflexivity.
Defined.

(** ** The key of the unique index within one page *)

Lemma number_from_app_children query_name l1 :
  forall offset child_num l2,
    Forall (fun r => exists q, row_parent_id r = Some q) l1 ->
    number_from query_name offset child_num (l1 ++ l2)
    = number_from query_name offset child_num l1
        ++ number_from query_name offset (child_num + Z.of_nat (length l1)) l2.
Proof.
  induction l1 as [|r l1 IH]; intros offset child_num l2 H.
  - cbn. f_equal. lia.
  - inversion H as [|? ? (q & Hq) Hrest]; subst.
    cbn [app number_from length]. rewrite Hq. cbn [is_none].
    rewrite IH by exact Hrest. cbn [app]. do 3 f_equal. lia.
Qed.

Lemma number_from_children_nums query_name rows :
  forall offset child_num,
    Forall (fun r => exists q, row_parent_id r = Some q) rows ->
    List.map sql_query_child_num (number_from query_name offset child_num rows)
    = z_seq (child_num + 1) (length rows).
Proof.
  induction rows as [|r rows IH]; intros offset child_num H; [reflexivity|].
  inversion H as [|? ? (q & Hq) Hrest]; subst.
  cbn [number_from List.map length sql_query_child_num]. rewrite Hq. cbn [is_none].
  rewrite z_seq_S, IH by exact Hrest. reflexivity.
Qed.

(** The rows of a page, one top-level node at a time: the node's own
    row at the current offset with child number 0, then the rows of
    its descendants at the next offset with child numbers 1, 2, ...,
    then the remaining nodes from the next offset on. *)
Lemma page_block query_name a n offset child_num rest :
  exists head kids,
    number_from query_name offset child_num (flatten_spec a None n ++ rest)
    = head :: kids
        ++ number_from query_name (offset + 1) (Z.of_nat (length kids)) rest
    /\ sql_position head = (offset, 0)
    /\ Forall (fun s => sql_query_offset s = offset + 1) kids
    /\ List.map sql_query_child_num kids = z_seq 1 (length kids).
Proof.
  destruct (subtree_shape_all a None n) as (_ & _ & _ & tail & -> & Hpar).
  assert (Hkids : Forall (fun r => exists q, row_parent_id r = Some q) tail).
  { eapply Forall_impl; [|exact Hpar]. cbn beta. intros r (q & Hq & _). eauto. }
  cbn [app number_from make_row row_parent_id is_none].
  rewrite number_from_app_children by exact Hkids.
  eexists. exists (number_from query_name (offset + 1) 0 tail).
  rewrite number_from_length. splits.
  - reflexivity.
  - reflexivity.
  - eapply Forall_impl; [|apply number_from_children; exact Hkids].
    cbn beta. intros s [Hs _]. exact Hs.
  - rewrite number_from_children_nums by exact Hkids. reflexivity.
Qed.

(** Where the rows of a page lie: between the page's start offset and
    that offset plus the number of top-level nodes; at the start
    offset only with child number 0, at the far end only with a child
    number of at least 1. *)
Lemma page_rows_bounds query_name addresses :
  forall n offset child_num s,
    In s (number_from query_name offset child_num
            (flatten_spec_list None addresses n)) ->
    offset <= sql_query_offset s <= offset + Z.of_nat (length addresses)
    /\ 0 <= sql_query_child_num s
    /\ (sql_query_offset s = offset -> sql_query_child_num s = 0)
    /\ (sql_query_offset s = offset + Z.of_nat (length addresses) ->
        1 <= sql_query_child_num s).
Proof.
  induction addresses as [|a l IH]; intros n offset child_num s Hs; [destruct Hs|].
  cbn [flatten_spec_list] in Hs.
  destruct (page_block query_name a n offset child_num
              (flatten_spec_list None l (n + Z.of_nat (address_count a))))
    as (head & kids & Heq & Hhead & Hoff & Hnums).
  rewrite Heq in Hs. cbn [length]. unfold sql_position in Hhead.
  destruct Hs as [<- | Hs].
  - injection Hhead as -> ->. lia.
  - apply in_app_or in Hs. destruct Hs as [Hs | Hs].
    + rewrite Forall_forall in Hoff. rewrite (Hoff s Hs).
      assert (Hc : In (sql_query_child_num s) (z_seq 1 (length kids)))
        by (rewrite <- Hnums; now apply in_map).
      apply z_seq_In in Hc. lia.
    + apply IH in Hs. lia.
Qed.

Lemma z_seq_NoDup start len : NoDup (z_seq start len).
Proof.
  revert start. induction len as [|len IH]; intros start.
  - constructor.
  - rewrite z_seq_S. constructor; [|apply IH].
    intros H. apply z_seq_In in H. lia.
Qed.

Lemma page_positions_NoDup query_name addresses :
  forall n offset child_num,
    NoDup (List.map sql_position
             (number_from query_name offset child_num
                (flatten_spec_list None addresses n))).
Proof.
  induction addresses as [|a l IH]; intros n offset child_num; [constructor|].
  cbn [flatten_spec_list].
  destruct (page_block query_name a n offset child_num
              (flatten_spec_list None l (n + Z.of_nat (address_count a))))
    as (head & kids & Heq & Hhead & Hoff & Hnums).
  rewrite Heq. cbn [List.map]. rewrite map_app, Hhead.
  rewrite Forall_forall in Hoff.
  assert (Hkid : forall pos, In pos (List.map sql_position kids) ->
                             fst pos = offset + 1 /\ 1 <= snd pos).
  { intros pos Hpos. apply in_map_iff in Hpos. destruct Hpos as (s & <- & Hs).
    cbn. split; [now apply Hoff|].
    assert (Hc : In (sql_query_child_num s) (z_seq 1 (length kids)))
      by (rewrite <- Hnums; now apply in_map).
    apply z_seq_In in Hc. lia. }
  assert (Hrest : forall pos,
             In pos (List.map sql_position
                       (number_from query_name (offset + 1)
                          (Z.of_nat (length kids))
                          (flatten_spec_list None l
                             (n + Z.of_nat (address_count a))))) ->
             offset + 1 <= fst pos /\ (fst pos = offset + 1 -> snd pos = 0)).
  { intros pos Hpos. apply in_map_iff in Hpos. destruct Hpos as (s & <- & Hs).
    apply page_rows_bounds in Hs. cbn. intuition lia. }
  constructor.
  - intros Hin. apply in_app_or in Hin. destruct Hin as [Hin | Hin].
    + apply Hkid in Hin. cbn in Hin. lia.
    + apply Hrest in Hin. cbn in Hin. lia.
  - apply NoDup_app.
    + apply (NoDup_map_inv snd). rewrite map_map.
      change (List.map (fun s => snd (sql_position s)) kids)
        with (List.map sql_query_child_num kids).
      rewrite Hnums. apply z_seq_NoDup.
    + apply IH.
    + intros pos Hk Hr. apply Hkid in Hk. apply Hrest in Hr. intuition lia.
Qed.

Lemma page_keys_NoDup query_name query_offset addresses first_next_id :
  NoDup (List.map sql_key
           (page_sql_rows query_name query_offset addresses first_next_id)).
Proof.
  apply (NoDup_map_inv (fun k => (snd (fst k), snd k))). rewrite map_map.
  rewrite page_sql_rows_from. apply page_positions_NoDup.
Qed.

(** X2. Within the rows of one page no two rows agree in
    (query_name, query_offset, query_child_num), the columns of the
    unique index. *)
Theorem X2_page_keys_are_unique :
  forall (query_name : pystr) (query_offset : Z) (addresses : list element)
         (first_next_id : Z),
    NoDup (List.map sql_key
             (page_sql_rows query_name query_offset addresses first_next_id)).
Proof. intros. apply page_keys_NoDup. Qed.

(** ** Inserts that cannot violate a constraint *)





Lemma number_from_name query_name rows :
  forall offset child_num s,
    In s (number_from query_name offset child_num rows) ->
    sql_query_name s = query_name.
Proof.
  induction rows as [|r rows IH]; intros offset child_num s Hs; [destruct Hs|].
  cbn [number_from] in Hs. destruct Hs as [<- | Hs]; [reflexivity | eauto].
Qed.




















(** A page of sixteen top-level entries runs into the next page: the
    sixteenth entry and the first entry of the second page both claim
    offset 15 with child number 0. *)
Example oversized_page_violates_unique_index :
  fst (run oversized_session []) = Raise IntegrityError
  /\ store_after (snd (run oversized_session [])) = [].
Proof. vm_compute. split; reflexivity. Qed.

(** ** The enumerator at any name length *)

Lemma product_In {A} (pool : list A) n :
  forall k, In k (product pool n)
            <-> length k = n /\ forall c, In c k -> In c pool.
Proof.
  induction n as [|n IH]; intros k; cbn [product].
  - split.
    + intros [<- | []]. split; [reflexivity | intros c []].
    + intros [Hlen _]. destruct k; [now left | discriminate].
  - rewrite in_flat_map. split.
    + intros (x & Hx & Hk). apply in_map_iff in Hk. destruct Hk as (y & <- & Hy).
      apply IH in Hx. destruct Hx as [Hlen Hin]. split.
      * rewrite length_app. cbn. lia.
      * intros c Hc. apply in_app_or in Hc. destruct Hc as [Hc | [<- | []]]; auto.
    + intros [Hlen Hin].
      destruct (exists_last (l := k)) as (x & y & ->);
        [intros ->; discriminate|].
      rewrite length_app in Hlen. cbn in Hlen.
      exists x. split.
      * apply IH. split; [lia|]. intros c Hc. apply Hin, in_or_app. now left.
      * apply in_map_iff. exists y. split; [reflexivity|].
        apply Hin, in_or_app. right. now left.
Qed.

Lemma product_NoDup {A} (pool : list A) n :
  NoDup pool -> NoDup (product pool n).
Proof.
  intros Hpool. induction n as [|n IH]; cbn [product].
  - repeat constructor. intros [].
  - induction IH as [|x l Hx _ IHl]; cbn [flat_map]; [constructor|].
    apply NoDup_app.
    + apply NoDup_map_NoDup_ForallPairs; [|exact Hpool].
      intros y y' _ _ Heq. apply app_inj_tail in Heq. tauto.
    + exact IHl.
    + intros k Hk Hk'. apply in_map_iff in Hk. destruct Hk as (y & <- & _).
      apply in_flat_map in Hk'. destruct Hk' as (x' & Hx' & Hk').
      apply in_map_iff in Hk'. destruct Hk' as (y' & Heq & _).
      apply app_inj_tail in Heq. destruct Heq as [-> _]. contradiction.
Qed.

Lemma product_nonempty_names {A} (pool : list A) n :
  Forall (fun t => t <> []) (product pool (S n)).
Proof.
  apply Forall_forall. intros t Ht. apply product_In in Ht.
  destruct Ht as [Hlen _]. intros ->. discriminate.
Qed.

(** X4. For every alphabet and every name length of at least 1 the
    enumerator returns a list, and a name is in it exactly when it has
    that length, consists of characters of the alphabet and does not
    start with a digit.  With name length 0 the only candidate is the
    empty name, and looking at its first character raises IndexError:
    no list is returned. *)
Theorem X4_query_names_are_the_non_digit_words :
  forall alphabet : pystr,
    (forall n : nat,
        exists names,
          query_names alphabet (S n) = Ok names
          /\ forall k, In k names
                       <-> length k = S n
                           /\ (forall c, In c k -> In c alphabet)
                           /\ starts_with_digit k = false)
    /\ query_names alphabet 0 = Raise IndexError.
Proof.
  intros alphabet. split; [|reflexivity].
  intros n. unfold query_names.
  rewrite collect_query_names_filter by apply product_nonempty_names.
  eexists. split; [reflexivity|]. intros k. cbn [app].
  rewrite filter_In, (product_In alphabet (S n) k), negb_true_iff. tauto.
Qed.

Lemma nodupb_NoDup l : nodupb l = true -> NoDup l.
Proof.
  induction l as [|c l IH]; cbn [nodupb]; intros H; constructor.
  - apply andb_prop in H. destruct H as [H _]. apply negb_true_iff in H.
    intros Hin. unfold char_in in H.
    assert (existsb (N.eqb c) l = true)
      by (apply existsb_exists; exists c; split; [exact Hin | apply N.eqb_refl]).
    congruence.
  - apply andb_prop in H. tauto.
Qed.

(** X5. When no character occurs twice in the alphabet, no query name
    is enumerated twice. *)
Theorem X5_query_names_are_distinct :
  forall (alphabet : pystr) (n : nat) (names : list pystr),
    NoDup alphabet ->
    query_names alphabet n = Ok names ->
    NoDup names.
Proof.
  intros alphabet n names Hpool Hnames. unfold query_names in Hnames.
  destruct n as [|n]; [discriminate Hnames|].
  rewrite collect_query_names_filter in Hnames by apply product_nonempty_names.
  injection Hnames as <-. cbn [app].
  apply NoDup_filter. exact (@product_NoDup N alphabet (S n) Hpool).
Qed.

Lemma X5_query_names_are_distinct_witness :
  NoDup query_name_alphabet
  /\ forall names,
       query_names query_name_alphabet query_name_length = Ok names ->
       NoDup names.
Proof.
  assert (Halphabet : NoDup query_name_alphabet)
    by (apply nodupb_NoDup; vm_compute; reflexivity).
  split; [exact Halphabet|].
  intros names.
  apply (@X5_query_names_are_distinct query_name_alphabet query_name_length names).
  exact Halphabet.
Defined.

(** ** How many names there are *)

Lemma list_sum_constant {A} (c : nat) (l : list A) :
  list_sum (List.map (fun _ => c) l) = (c * length l)%nat.
Proof.
  induction l as [|x l IH]; [cbn; lia|].
  change (list_sum (List.map (fun _ => c) (x :: l)))
    with (c + list_sum (List.map (fun _ => c) l))%nat.
  rewrite IH. cbn [length]. lia.
Qed.

Lemma length_product {A} (pool : list A) n :
  length (product pool n) = (length pool ^ n)%nat.
Proof.
  induction n as [|n IH]; cbn [product]; [reflexivity|].
  rewrite length_flat_map.
  rewrite (map_ext _ (fun _ => length pool)) by (intros x; apply length_map).
  rewrite Nat.pow_succ_r', <- IH.
  apply list_sum_constant.
Qed.

Lemma starts_with_digit_snoc x (y : N) :
  x <> [] -> starts_with_digit (x ++ [y]) = starts_with_digit x.
Proof. destruct x as [|c x]; [intros H; now destruct H | reflexivity]. Qed.

Lemma length_filter_flat_map_snoc (pool : pystr) (l : list pystr) :
  Forall (fun x => x <> []) l ->
  length (filter (fun k => negb (starts_with_digit k))
                 (flat_map (fun x => List.map (fun y => x ++ [y]) pool) l))
  = (length (filter (fun k => negb (starts_with_digit k)) l) * length pool)%nat.
Proof.
  unfold pystr in *. induction 1 as [|x l Hx _ IH]; [reflexivity|].
  cbn [flat_map]. rewrite filter_app, length_app, IH.
  assert (Hblock : length (filter (fun k => negb (starts_with_digit k))
                                  (List.map (fun y => x ++ [y]) pool))
                   = if negb (starts_with_digit x) then length pool else O).
  { clear IH. induction pool as [|y pool IHp]; cbn [List.map filter].
    - now destruct (negb (starts_with_digit x)).
    - rewrite (starts_with_digit_snoc y Hx).
      destruct (negb (starts_with_digit x)); cbn [length]; now rewrite IHp. }
  unfold pystr in *. rewrite Hblock. cbn [filter].
  destruct (negb (starts_with_digit x)); cbn [length]; lia.
Qed.

Lemma length_filter_singletons (l : list N) :
  length (filter (fun k => negb (starts_with_digit k))
                 (List.map (fun y => [y]) l))
  = length (filter (fun c => negb (char_in c string_digits)) l).
Proof.
  induction l as [|c l IH]; [reflexivity|].
  cbn [List.map filter starts_with_digit].
  destruct (negb (char_in c string_digits)); cbn [length]; now rewrite IH.
Qed.

Lemma length_names (alphabet : pystr) (n : nat) :
  length (filter (fun k => negb (starts_with_digit k)) (product alphabet (S n)))
  = (length (initials alphabet) * length alphabet ^ n)%nat.
Proof.
  induction n as [|n IH].
  - cbn [product flat_map app]. rewrite app_nil_r, Nat.pow_0_r, Nat.mul_1_r.
    apply length_filter_singletons.
  - change (product alphabet (S (S n)))
      with (flat_map (fun x => List.map (fun y => x ++ [y]) alphabet)
                     (product alphabet (S n))).
    rewrite length_filter_flat_map_snoc by apply product_nonempty_names.
    rewrite IH, Nat.pow_succ_r'. lia.
Qed.

(** X6. For a name length of n + 1 the enumerator yields as many names
    as there are non-digit characters in the alphabet, times the size
    of the alphabet to the power n; with the configured alphabet and
    length that is 30 * 40 = 1200 names. *)
Theorem X6_number_of_query_names :
  (forall (alphabet : pystr) (n : nat),
      exists names,
        query_names alphabet (S n) = Ok names
        /\ length names = (length (initials alphabet) * length alphabet ^ n)%nat)
  /\ exists names,
       query_names query_name_alphabet query_name_length = Ok names
       /\ length names = 1200%nat.
Proof.
  split.
  - intros alphabet n. unfold query_names.
    rewrite collect_query_names_filter by apply product_nonempty_names.
    eexists. split; [reflexivity|]. apply length_names.
  - unfold query_names, query_name_length.
    rewrite collect_query_names_filter by apply product_nonempty_names.
    eexists. split; [reflexivity|].
    exact (eq_trans (length_names query_name_alphabet 1) eq_refl).
Qed.

(** ** Polling for the search results *)

(** One round of the polling loop, written out. *)
Lemma poll_step session req n st :
  poll_search_results session req (S n) st
  = let rep := session (trace st) req in
    let st1 := {| db := db st; trace := trace st ++ [(req, rep)] |} in
    match rep with
    | Failed => (Raise ClientError, st1)
    | Reply r =>
        if status r =? 200
        then if loading r
             then poll_search_results session req n st1
             else match hitcount_tag r with
                  | Some num_results => (Ok (num_results, r), st1)
                  | None => (Raise SystemExit_1, st1)
                  end
        else (Raise AssertionError_status, st1)
    end.
Proof.
  cbn [poll_search_results]. unfold bind, session_get, assert_, ret, raise.
  destruct (session (trace st) req) as [|r]; [reflexivity|].
  destruct (status r =? 200); [|reflexivity].
  destruct (loading r); [reflexivity|].
  destruct (hitcount_tag r); reflexivity.
Qed.

Lemma poll_last_round session req st out st' :
  poll_search_results session req 1 st = (out, st') ->
  exists last,
    trace st' = trace st ++ [last]
    /\ fst last = req
    /\ (still_computing last = true -> out = Raise SystemExit_1).
Proof.
  intros H. rewrite poll_step in H. cbv zeta in H.
  exists (req, session (trace st) req). unfold still_computing. cbn [fst snd].
  destruct (session (trace st) req) as [|r].
  - injection H as <- <-. splits; try reflexivity; try discriminate.
  - destruct (status r =? 200).
    + destruct (loading r).
      * cbn [poll_search_results] in H. apply raise_run in H. destruct H as [-> ->].
        splits; reflexivity.
      * destruct (hitcount_tag r); injection H as <- <-;
          splits; try reflexivity; try discriminate.
    + injection H as <- <-. splits; try reflexivity; try discriminate.
Qed.

Lemma poll_bounded session req n :
  forall st out st',
    poll_search_results session req (S n) st = (out, st') ->
    exists pre last,
      trace st' = trace st ++ pre ++ [last]
      /\ Forall (fun ev => fst ev = req /\ still_computing ev = true) pre
      /\ (length pre <= n)%nat
      /\ fst last = req
      /\ (still_computing last = true ->
          length pre = n /\ out = Raise SystemExit_1).
Proof.
  induction n as [|n IH]; intros st out st' H.
  - apply poll_last_round in H. destruct H as (last & Htr & Hreq & Hstall).
    exists [], last. splits; auto.
  - rewrite poll_step in H. cbv zeta in H.
    assert (Hstop : forall rep,
               still_computing (req, rep) = false ->
               trace st' = trace st ++ [(req, rep)] ->
               exists pre last,
                 trace st' = trace st ++ pre ++ [last]
                 /\ Forall (fun ev => fst ev = req
                                      /\ still_computing ev = true) pre
                 /\ (length pre <= S n)%nat
                 /\ fst last = req
                 /\ (still_computing last = true ->
                     length pre = S n /\ out = Raise SystemExit_1)).
    { intros rep Hc Htr. exists [], (req, rep).
      splits; [exact Htr | constructor | cbn; lia | reflexivity | congruence]. }
    destruct (session (trace st) req) as [|r] eqn:Hrep.
    + injection H as <- <-. apply (Hstop Failed); reflexivity.
    + specialize (Hstop (Reply r)).
      unfold still_computing in Hstop. cbn [snd] in Hstop.
      destruct (status r =? 200) eqn:Hstatus;
        [|injection H as <- <-; apply Hstop; reflexivity].
      destruct (loading r) eqn:Hload.
      * clear Hstop. apply IH in H. cbn [trace] in H.
        destruct H as (pre & last & Htr & Hpre & Hlen & Hreq & Hstall).
        exists ((req, Reply r) :: pre), last. splits.
        -- rewrite Htr, <- app_assoc. reflexivity.
        -- constructor; [|exact Hpre]. split; [reflexivity|].
           unfold still_computing. cbn [snd]. now rewrite Hstatus, Hload.
        -- cbn [length]. lia.
        -- exact Hreq.
        -- intros Hc. destruct (Hstall Hc) as [Hn Hout]. cbn [length]. auto.
      * destruct (hitcount_tag r); injection H as <- <-; apply Hstop; reflexivity.
Qed.

(** X7. One call of [get_search_results] calls [session.get] at
    least once and at most 1000 times, each time for the same URL.
    Every call before the last one came back with a "still computing"
    response of status 200; [session.get] is called again only after
    such a response.  If the last call comes back with a "still
    computing" response too, it was the 1000th, and the script exits
    with status 1.  (This counts the calls of [session.get]; how often
    the retrying client sends the request within one call is not
    bounded here.) *)
Theorem X7_polling_is_bounded :
  forall (session : session_t) (sessionid : Z) (query_name : pystr)
         (query_offset : Z) (st : state),
    exists pre last,
      trace (snd (get_search_results session sessionid query_name query_offset st))
      = trace st ++ pre ++ [last]
      /\ Forall (fun ev => fst ev = search_request sessionid query_name query_offset
                           /\ still_computing ev = true) pre
      /\ (length pre < 1000)%nat
      /\ fst last = search_request sessionid query_name query_offset
      /\ (still_computing last = true ->
          length pre = 999%nat
          /\ fst (get_search_results session sessionid query_name query_offset st)
             = Raise SystemExit_1).
Proof.
  intros session sessionid query_name query_offset st.
  unfold get_search_results.
  destruct (poll_search_results session
              (search_request sessionid query_name query_offset) 1000 st)
    as [out st'] eqn:H.
  change 1000%nat with (S 999) in H.
  apply poll_bounded in H.
  destruct H as (pre & last & Htr & Hpre & Hlen & Hreq & Hstall).
  exists pre, last. cbn [fst snd]. splits; try assumption. lia.
Qed.

(** Against a service that never finishes, the search is given up
    after exactly 1000 calls of [session.get]. *)
Example busy_search_gives_up :
  let result := get_search_results busy_session 7 (py "aa") 0 (start []) in
  fst result = Raise SystemExit_1
  /\ length (trace (snd result)) = 1000%nat.
Proof. vm_compute. split; reflexivity. Qed.

(** ** What a run does to the store *)

(** The page loop only adds pending rows, all under its query name. *)
Lemma insert_page_names query_name query_offset xml_bytes st out st' :
  insert_page query_name query_offset xml_bytes st = (out, st') ->
  committed (db st') = committed (db st)
  /\ exists ins, pending (db st') = pending (db st) ++ ins
                 /\ Forall (fun r => sql_query_name r = query_name) ins.
Proof.
  unfold insert_page. intros H.
  assert (Hstay : committed (db st) = committed (db st)
                  /\ exists ins, pending (db st) = pending (db st) ++ ins
                                 /\ Forall (fun r => sql_query_name r = query_name)
                                           ins).
  { split; [reflexivity|]. exists []. rewrite app_nil_r.
    split; [reflexivity | constructor]. }
  apply bind_run in H. destruct H as [(t & st0 & Ht & H) | (e & Ht & _)];
    [|discriminate Ht].
  injection Ht as <- <-.
  apply bind_run in H. destruct H as [([] & st1 & Hchk & H) | (e & Hchk & ->)].
  - assert (st1 = st) as ->.
    { unfold check_results_per_page in Hchk.
      destruct (perpage_tag xml_bytes);
        [apply assert_run in Hchk | apply ret_run in Hchk]; tauto. }
    apply bind_run in H.
    destruct H as [(xml_root & st2 & Hparse & H) | (e & Hparse & ->)].
    + assert (st2 = st) as ->.
      { unfold fromstring in Hparse.
        destruct (document xml_bytes);
          [apply ret_run in Hparse | apply raise_run in Hparse]; tauto. }
      apply executemany_run in H.
      destruct H as (_ & Hcom & ins & rest & Hrows & Hpen & _).
      split; [exact Hcom|]. exists ins. split; [exact Hpen|].
      apply Forall_forall. intros r Hr.
      rewrite page_sql_rows_from in Hrows.
      eapply number_from_name. rewrite Hrows. apply in_or_app. left. exact Hr.
    + assert (st' = st) as ->; [|exact Hstay].
      unfold fromstring in Hparse.
      destruct (document xml_bytes);
        [apply ret_run in Hparse | apply raise_run in Hparse]; tauto.
  - assert (st' = st) as ->; [|exact Hstay].
    unfold check_results_per_page in Hchk.
    destruct (perpage_tag xml_bytes);
      [apply assert_run in Hchk | apply ret_run in Hchk]; tauto.
Qed.

Lemma page_body_names session sessionid query_name query_offset loop_idx xml_bytes
    st out st' :
  page_body session sessionid query_name query_offset loop_idx xml_bytes st
  = (out, st') ->
  committed (db st') = committed (db st)
  /\ exists ins, pending (db st') = pending (db st) ++ ins
                 /\ Forall (fun r => sql_query_name r = query_name) ins.
Proof.
  unfold page_body. intros H.
  apply bind_run in H. destruct H as [(r & st1 & Hfetch & H) | (e & Hfetch & ->)].
  - assert (Hdb : db st1 = db st).
    { destruct (loop_idx >? 0).
      - apply bind_run in Hfetch.
        destruct Hfetch as [(res & st2 & Hget & Hret) | (e & _ & Hno)];
          [|discriminate Hno].
        apply ret_run in Hret. destruct Hret as [_ ->].
        apply get_search_results_run in Hget. apply Hget.
      - apply ret_run in Hfetch. destruct Hfetch as [_ ->]. reflexivity. }
    apply bind_run in H. destruct H as [([] & st2 & Hins & H) | (e & Hins & ->)].
    + apply ret_run in H. destruct H as [_ ->].
      apply insert_page_names in Hins. rewrite Hdb in Hins. exact Hins.
    + apply insert_page_names in Hins. rewrite Hdb in Hins. exact Hins.
  - assert (Hdb : db st' = db st).
    { destruct (loop_idx >? 0).
      - apply bind_run in Hfetch.
        destruct Hfetch as [(res & st2 & _ & Hret) | (e' & Hget & _)].
        + apply ret_run in Hret. destruct Hret as [Hno _]. discriminate Hno.
        + apply get_search_results_run in Hget. apply Hget.
      - apply ret_run in Hfetch. destruct Hfetch as [Hno _]. discriminate Hno. }
    rewrite Hdb. split; [reflexivity|]. exists []. rewrite app_nil_r.
    split; [reflexivity | constructor].
Qed.

Lemma page_loop_names session sessionid query_name offsets :
  forall loop_idx xml_bytes st out st',
    page_loop session sessionid query_name offsets loop_idx xml_bytes st
    = (out, st') ->
    committed (db st') = committed (db st)
    /\ exists ins, pending (db st') = pending (db st) ++ ins
                   /\ Forall (fun r => sql_query_name r = query_name) ins.
Proof.
  induction offsets as [|query_offset rest IH];
    intros loop_idx xml_bytes st out st' H; cbn [page_loop] in H.
  - apply ret_run in H. destruct H as [_ ->]. split; [reflexivity|].
    exists []. rewrite app_nil_r. split; [reflexivity | constructor].
  - cbv zeta in H. apply bind_run in H.
    destruct H as [(r & st1 & Hbody & H) | (e & Hbody & ->)].
    + apply page_body_names in Hbody.
      destruct Hbody as (Hcom1 & ins1 & Hpen1 & Hn1).
      apply IH in H. destruct H as (Hcom2 & ins2 & Hpen2 & Hn2).
      split; [congruence|]. exists (ins1 ++ ins2). split.
      * rewrite Hpen2, Hpen1. symmetry. apply app_assoc.
      * apply Forall_app. auto.
    + apply page_body_names in Hbody. exact Hbody.
Qed.

(** One round of the loop over the query names, started with nothing
    pending: the rows it adds carry its query name, which had no
    committed row; they are committed when the round ends normally and
    stay pending when it raises. *)
Lemma process_query_name_keys session sessionid query_name st out st' :
  process_query_name session sessionid query_name st = (out, st') ->
  pending (db st) = [] ->
  exists ins,
    Forall (fun r => sql_query_name r = query_name) ins
    /\ (ins <> [] -> has_key query_name (committed (db st)) = false)
    /\ match out with
       | Ok _ => committed (db st') = committed (db st) ++ ins
                 /\ pending (db st') = []
       | Raise _ => committed (db st') = committed (db st)
                    /\ pending (db st') = ins
       end.
Proof.
  unfold process_query_name. intros H Hopen.
  apply bind_run in H. destruct H as [(t & st0 & Ht & H) | (e & Ht & _)];
    [|discriminate Ht].
  injection Ht as <- <-.
  assert (Htab : table (db st) = committed (db st))
    by (unfold table; rewrite Hopen; apply app_nil_r).
  rewrite Htab in H.
  destruct (has_key query_name (committed (db st))) eqn:Hkey.
  { apply ret_run in H. destruct H as [-> ->].
    exists []. rewrite app_nil_r. splits; [constructor | congruence | reflexivity | exact Hopen]. }
  apply bind_run in H. destruct H as [([h r] & st1 & Hget & H) | (e & Hget & ->)].
  - apply get_search_results_run in Hget. destruct Hget as (Hdb & _).
    destruct (h =? 0)%N.
    + apply ret_run in H. destruct H as [-> ->]. rewrite Hdb.
      exists []. rewrite app_nil_r.
      splits; [constructor | reflexivity | reflexivity | exact Hopen].
    + apply bind_run in H. destruct H as [([] & st2 & Hrun & H) | (e & Hrun & ->)];
        apply page_loop_names in Hrun; rewrite Hdb, Hopen in Hrun;
        destruct Hrun as (Hcom & ins & Hpen & Hnames); cbn [app] in Hpen;
        exists ins.
      * injection H as <- <-. cbn [db db_commit committed pending].
        rewrite Hcom, Hpen. splits; auto.
      * splits; auto.
  - apply get_search_results_run in Hget. destruct Hget as (Hdb & _).
    rewrite Hdb. exists []. splits; [constructor | reflexivity | reflexivity | exact Hopen].
Qed.

Lemma main_loop_keys session sessionid query_name_list :
  forall st out st',
    main_loop session sessionid query_name_list st = (out, st') ->
    pending (db st) = [] ->
    exists added,
      committed (db st') = committed (db st) ++ added
      /\ Forall (fun r => has_key (sql_query_name r) (committed (db st)) = false
                          /\ In (sql_query_name r) query_name_list) added
      /\ (out = Ok tt -> pending (db st') = [])
      /\ Forall (fun r => has_key (sql_query_name r) (committed (db st')) = false
                          /\ In (sql_query_name r) query_name_list)
                (pending (db st')).
Proof.
  induction query_name_list as [|query_name rest IH];
    intros st out st' H Hopen; cbn [main_loop] in H.
  - apply ret_run in H. destruct H as [-> ->]. exists [].
    rewrite app_nil_r, Hopen. splits; auto.
  - apply bind_run in H. destruct H as [([] & st1 & Hkey & H) | (e & Hkey & ->)];
      apply process_query_name_keys in Hkey; try exact Hopen;
      destruct Hkey as (ins & Hnames & Hnew & Hcom & Hpen).
    + apply IH in H; [|exact Hpen].
      destruct H as (added & Hcom2 & Hadded & Hok & Hleft).
      exists (ins ++ added). splits.
      * rewrite Hcom2, Hcom. symmetry. apply app_assoc.
      * apply Forall_app. split.
        -- apply Forall_forall. intros r Hr.
           rewrite Forall_forall in Hnames. rewrite (Hnames r Hr).
           split; [|left; reflexivity].
           apply Hnew. intros ->. destruct Hr.
        -- eapply Forall_impl; [|exact Hadded]. cbn beta. intros r [Hr Hin].
           rewrite Hcom, has_key_app in Hr. apply orb_false_elim in Hr.
           split; [apply Hr | right; exact Hin].
      * exact Hok.
      * eapply Forall_impl; [|exact Hleft]. cbn beta. intros r [Hr Hin].
        split; [exact Hr | right; exact Hin].
    + exists []. rewrite app_nil_r. splits; [exact Hcom | constructor | discriminate |].
      rewrite Hpen, Hcom. apply Forall_forall. intros r Hr.
      rewrite Forall_forall in Hnames. rewrite (Hnames r Hr).
      split; [|left; reflexivity].
      apply Hnew. intros ->. destruct Hr.
Qed.

(** X8. A run never removes or changes a row of the store: the store
    afterwards is the store before followed by the added rows.  Every
    added row belongs to an enumerated query name that had no row in
    the store before.  A run that ends normally leaves nothing
    uncommitted; the rows a failed run leaves uncommitted belong to a
    query name without any committed row, so no query name is ever
    stored in part. *)
Theorem X8_run_extends_store_by_whole_keys :
  forall (alphabet : pystr) (name_length : nat) (session : session_t)
         (store : list sql_row),
    let result := run_with alphabet name_length session store in
    exists added,
      store_after (snd result) = store ++ added
      /\ (forall r, In r added ->
            has_key (sql_query_name r) store = false
            /\ exists names, query_names alphabet name_length = Ok names
                             /\ In (sql_query_name r) names)
      /\ (fst result = Ok tt -> pending (db (snd result)) = [])
      /\ (forall r, In r (pending (db (snd result))) ->
            has_key (sql_query_name r) (store_after (snd result)) = false).
Proof.
  intros alphabet name_length session store result. subst result.
  unfold run_with, store_after.
  destruct (main_inner_with alphabet name_length session (start store))
    as [out st'] eqn:H.
  cbn [fst snd]. unfold main_inner_with in H.
  assert (Hquiet : forall e : exn, db st' = db (start store) ->
             out = Raise e ->
             exists added,
               committed (db st') = store ++ added
               /\ (forall r, In r added ->
                     has_key (sql_query_name r) store = false
                     /\ exists names, query_names alphabet name_length = Ok names
                                      /\ In (sql_query_name r) names)
               /\ (out = Ok tt -> pending (db st') = [])
               /\ (forall r, In r (pending (db st')) ->
                     has_key (sql_query_name r) (committed (db st')) = false)).
  { intros e -> ->. exists []. cbn. rewrite app_nil_r.
    splits; [reflexivity | intros r [] | discriminate | intros r []]. }
  apply bind_run in H. destruct H as [(sid & st1 & Hsid & H) | (e & Hsid & Hout)];
    apply get_sessionid_run in Hsid; destruct Hsid as (Hdb1 & _);
    [|exact (Hquiet e Hdb1 Hout)].
  apply bind_run in H. destruct H as [([] & st2 & Hset & H) | (e & Hset & Hout)];
    apply set_results_per_page_run in Hset; destruct Hset as (Hdb2 & _);
    [|apply (Hquiet e); [congruence | exact Hout]].
  assert (Hdb : db st2 = db (start store)) by congruence.
  destruct (query_names alphabet name_length) as [query_name_list|e].
  - apply main_loop_keys in H; [|rewrite Hdb; reflexivity].
    rewrite Hdb in H. cbn [start db committed] in H.
    destruct H as (added & Hcom & Hadded & Hok & Hleft).
    rewrite Forall_forall in Hadded, Hleft.
    exists added. splits; [exact Hcom | | exact Hok |].
    + intros r Hr. destruct (Hadded r Hr) as [Hkey Hin]. eauto.
    + intros r Hr. apply (Hleft r Hr).
  - apply raise_run in H. destruct H as [-> ->]. apply (Hquiet e Hdb eq_refl).
Qed.

(** ** The pages the page loop asks for *)

(** A call of [get_search_results] leaves the table alone and sends
    its request at least once. *)
Lemma get_search_results_block session sessionid query_name query_offset st out st' :
  get_search_results session sessionid query_name query_offset st = (out, st') ->
  db st' = db st
  /\ exists block,
       trace st' = trace st ++ block
       /\ block <> []
       /\ Forall (fun ev => fst ev
                            = search_request sessionid query_name query_offset)
                 block.
Proof.
  intros H. pose proof H as H2. apply get_search_results_run in H.
  destruct H as (Hdb & _). split; [exact Hdb|].
  unfold get_search_results in H2. change 1000%nat with (S 999) in H2.
  apply poll_bounded in H2.
  destruct H2 as (pre & last & Htr & Hpre & _ & Hreq & _).
  exists (pre ++ [last]). splits.
  - exact Htr.
  - intros Hnil. apply app_eq_nil in Hnil. destruct Hnil as [_ Hnil].
    discriminate Hnil.
  - apply Forall_app. split.
    + eapply Forall_impl; [|exact Hpre]. cbn beta. tauto.
    + constructor; [exact Hreq | constructor].
Qed.

Lemma insert_page_trace query_name query_offset xml_bytes st out st' :
  insert_page query_name query_offset xml_bytes st = (out, st') ->
  trace st' = trace st.
Proof. intros H. apply insert_page_run in H. apply H. Qed.

(** The first round of the page loop sends nothing. *)
Lemma page_body_first session sessionid query_name query_offset loop_idx xml_bytes
    st out st' :
  loop_idx <= 0 ->
  page_body session sessionid query_name query_offset loop_idx xml_bytes st
  = (out, st') ->
  trace st' = trace st.
Proof.
  unfold page_body. intros Hidx H.
  replace (loop_idx >? 0) with false in H
    by (symmetry; rewrite Z.gtb_ltb; apply Z.ltb_ge; lia).
  apply bind_run in H. destruct H as [(r & st1 & Hfetch & H) | (e & Hfetch & _)].
  - apply ret_run in Hfetch. destruct Hfetch as [_ ->].
    apply bind_run in H. destruct H as [([] & st2 & Hins & H) | (e & Hins & _)].
    + apply ret_run in H. destruct H as [_ ->]. eapply insert_page_trace, Hins.
    + eapply insert_page_trace, Hins.
  - apply ret_run in Hfetch. destruct Hfetch as [Hno _]. discriminate Hno.
Qed.

(** Every later round sends the request for its offset, at least once. *)
Lemma page_body_block session sessionid query_name query_offset loop_idx xml_bytes
    st out st' :
  0 < loop_idx ->
  page_body session sessionid query_name query_offset loop_idx xml_bytes st
  = (out, st') ->
  exists block,
    trace st' = trace st ++ block
    /\ block <> []
    /\ Forall (fun ev => fst ev = search_request sessionid query_name query_offset)
              block.
Proof.
  unfold page_body. intros Hidx H.
  replace (loop_idx >? 0) with true in H
    by (symmetry; rewrite Z.gtb_ltb; apply Z.ltb_lt; lia).
  apply bind_run in H. destruct H as [(r & st1 & Hfetch & H) | (e & Hfetch & _)].
  - apply bind_run in Hfetch.
    destruct Hfetch as [(res & st2 & Hget & Hret) | (e & _ & Hno)];
      [|discriminate Hno].
    apply ret_run in Hret. destruct Hret as [_ ->].
    apply get_search_results_block in Hget. destruct Hget as (_ & block & Htr & Hb).
    exists block. split; [|exact Hb]. rewrite <- Htr.
    apply bind_run in H. destruct H as [([] & st3 & Hins & H) | (e & Hins & _)].
    + apply ret_run in H. destruct H as [_ ->]. eapply insert_page_trace, Hins.
    + eapply insert_page_trace, Hins.
  - apply bind_run in Hfetch.
    destruct Hfetch as [(res & st2 & _ & Hret) | (e' & Hget & _)].
    + apply ret_run in Hret. destruct Hret as [Hno _]. discriminate Hno.
    + apply get_search_results_block in Hget. destruct Hget as (_ & Hb). exact Hb.
Qed.

Lemma search_request_page sessionid query_name page :
  1 <= page ->
  search_request sessionid query_name (page * results_per_page)
  = Search sessionid query_name (BtnPage (page + 1)).
Proof.
  intros Hpage. unfold search_request, results_per_page, max_results_per_page.
  replace (page * 15 =? 0) with false by (symmetry; apply Z.eqb_neq; lia).
  rewrite Z.div_mul by lia. f_equal. f_equal. lia.
Qed.

Lemma page_loop_pages session sessionid query_name m :
  forall first loop_idx xml_bytes st out st',
    0 <= loop_idx -> 1 <= first ->
    page_loop session sessionid query_name
      (List.map (fun k => k * results_per_page) (z_seq first m))
      loop_idx xml_bytes st = (out, st') ->
    exists blocks,
      trace st' = trace st ++ concat blocks
      /\ Forall2 (fun page block =>
                    block <> []
                    /\ Forall (fun ev => fst ev
                                 = Search sessionid query_name (BtnPage page)) block)
                 (z_seq (first + 1) (length blocks)) blocks
      /\ (length blocks <= m)%nat
      /\ (out = Ok tt -> length blocks = m).
Proof.
  induction m as [|m IH]; intros first loop_idx xml_bytes st out st' Hidx Hfirst H.
  - cbn in H. apply ret_run in H. destruct H as [_ ->]. exists [].
    cbn. rewrite app_nil_r. splits; auto.
  - rewrite z_seq_S in H. cbn [List.map page_loop] in H. cbv zeta in H.
    apply bind_run in H. destruct H as [(r & st1 & Hbody & H) | (e & Hbody & ->)];
      apply page_body_block in Hbody; try lia;
      destruct Hbody as (block & Htr & Hne & Hreq);
      rewrite search_request_page in Hreq by lia.
    + apply IH in H; [|lia|lia].
      destruct H as (blocks & Htr2 & Hblocks & Hlen & Hok).
      exists (block :: blocks). cbn [concat length]. rewrite z_seq_S. splits.
      * rewrite Htr2, Htr. symmetry. apply app_assoc.
      * constructor; [split; assumption | exact Hblocks].
      * lia.
      * intros Hout. rewrite (Hok Hout). reflexivity.
    + exists [block]. cbn [concat length]. rewrite app_nil_r, z_seq_S. splits.
      * exact Htr.
      * constructor; [split; assumption | constructor].
      * lia.
      * discriminate.
Qed.

Lemma py_range_pages (num_results : N) :
  py_range 0 (Z.of_N num_results + 1) results_per_page
  = 0 :: List.map (fun k => k * results_per_page)
                  (z_seq 1 (N.to_nat (num_results / 15))).
Proof.
  unfold py_range, results_per_page, max_results_per_page.
  replace (Z.of_N num_results + 1 - 0 + 15 - 1) with (Z.of_N num_results + 1 * 15)
    by lia.
  rewrite Z.div_add by lia.
  replace (Z.to_nat (Z.of_N num_results / 15 + 1))
    with (S (N.to_nat (num_results / 15))).
  - cbn [seq List.map]. f_equal. unfold z_seq.
    rewrite <- seq_shift, !map_map. apply map_ext. intros k. lia.
  - change 15 with (Z.of_N 15). rewrite <- N2Z.inj_div.
    generalize (num_results / 15)%N. intros q. lia.
Qed.

(** X9. For a key with [num_results] results the page loop sends no
    request for its first page (that page was fetched by the search
    itself) and then asks for the pages 2, 3, ... in this order, each
    at least once, the last being page [num_results / 15 + 1]; a loop
    that ends normally has asked for all of them.  So a key whose
    result count is a multiple of 15 is asked for one page beyond its
    last result. *)
Theorem X9_page_loop_asks_for_following_pages :
  forall (session : session_t) (sessionid : Z) (query_name : pystr)
         (num_results : N) (xml_bytes : response) (st : state),
    let result :=
      page_loop session sessionid query_name
        (py_range 0 (Z.of_N num_results + 1) results_per_page) (-1) xml_bytes st in
    exists blocks,
      trace (snd result) = trace st ++ concat blocks
      /\ Forall2 (fun page block =>
                    block <> []
                    /\ Forall (fun ev => fst ev
                                 = Search sessionid query_name (BtnPage page)) block)
                 (z_seq 2 (length blocks)) blocks
      /\ (length blocks <= N.to_nat (num_results / 15))%nat
      /\ (fst result = Ok tt -> length blocks = N.to_nat (num_results / 15)).
Proof.
  intros session sessionid query_name num_results xml_bytes st result.
  subst result. rewrite py_range_pages.
  destruct (page_loop session sessionid query_name
              (0 :: List.map (fun k => k * results_per_page)
                             (z_seq 1 (N.to_nat (num_results / 15))))
              (-1) xml_bytes st) as [out st'] eqn:H.
  cbn [fst snd]. cbn [page_loop] in H. cbv zeta in H.
  apply bind_run in H. destruct H as [(r & st1 & Hbody & H) | (e & Hbody & ->)];
    apply page_body_first in Hbody; try lia.
  - apply page_loop_pages in H; [|lia|lia]. rewrite Hbody in H. exact H.
  - exists []. cbn [concat length]. rewrite app_nil_r. splits.
    + exact Hbody.
    + apply Forall2_nil.
    + apply Nat.le_0_l.
    + discriminate.
Qed.

(** With 15 results under aa, all on the first page, page 2 is asked
    for all the same. *)
Example full_last_page_asks_for_one_more :
  In (Search 7 (py "aa") (BtnPage 2))
     (requests (snd (run_with (py "a") 2
                       (sample_session (Some 15%N) (Some 15%N)) []))).
Proof. vm_compute. auto 10. Qed.

(** ** The requests of a run *)

(** [get_sessionid] sends the root request, once; the session id it
    returns is the one in the reply. *)
Lemma get_sessionid_trace session st out st' :
  get_sessionid session st = (out, st') ->
  exists rep,
    trace st' = trace st ++ [(GetRoot, rep)]
    /\ forall sessionid, out = Ok sessionid ->
         exists r n, rep = Reply r /\ sessionid_tag r = Some n
                     /\ sessionid = Z.of_N n.
Proof.
  unfold get_sessionid. intros H.
  apply bind_run in H. destruct H as [(r & st1 & Hget & H) | (e & Hget & ->)];
    apply session_get_run in Hget; destruct Hget as (_ & rep & Htr & Hrep).
  - subst rep.
    apply bind_run in H. destruct H as [([] & st2 & Has & H) | (e & Has & ->)];
      apply assert_run in Has; destruct Has as [-> _].
    + destruct (sessionid_tag r) as [n|] eqn:Hn;
        [apply ret_run in H | apply raise_run in H]; destruct H as [-> ->];
        exists (Reply r); (split; [exact Htr|]); intros sessionid Hs.
      * injection Hs as <-. eauto.
      * discriminate Hs.
    + exists (Reply r). split; [exact Htr|]. discriminate.
  - exists rep. split; [exact Htr|]. discriminate.
Qed.

(** [set_results_per_page] opens the preferences page and then, when
    that went well, saves the page size. *)
Lemma set_results_per_page_trace session sessionid st out st' :
  set_results_per_page session sessionid st = (out, st') ->
  exists rep more,
    trace st' = trace st ++ (GetPreferences sessionid, rep) :: more
    /\ (more = []
        \/ exists rep2, more = [(SavePreferences sessionid results_per_page, rep2)])
    /\ (out = Ok tt -> more <> []).
Proof.
  unfold set_results_per_page. intros H.
  apply bind_run in H. destruct H as [(r & st1 & Hget & H) | (e & Hget & ->)];
    apply session_get_run in Hget; destruct Hget as (_ & rep & Htr & _).
  - apply bind_run in H. destruct H as [([] & st2 & Has & H) | (e & Has & ->)];
      apply assert_run in Has; destruct Has as [-> _].
    + apply bind_run in H.
      assert (Hsent : forall st3,
                 trace st3
                 = trace st1
                   ++ [(SavePreferences sessionid results_per_page,
                        session (trace st1)
                                (SavePreferences sessionid results_per_page))] ->
                 exists rep0 more,
                   trace st3 = trace st ++ (GetPreferences sessionid, rep0) :: more
                   /\ (more = []
                       \/ exists rep2,
                            more = [(SavePreferences sessionid results_per_page, rep2)])
                   /\ (out = Ok tt -> more <> [])).
      { intros st3 Htr3. exists rep. eexists. splits.
        - rewrite Htr3, Htr, <- app_assoc. reflexivity.
        - right. eexists. reflexivity.
        - discriminate. }
      destruct H as [(r2 & st3 & Hget & H) | (e & Hget & ->)].
      * apply assert_run in H. destruct H as [-> _]. apply Hsent.
        unfold session_get in Hget.
        destruct (session (trace st1) (SavePreferences sessionid results_per_page));
          injection Hget as _ <-; reflexivity.
      * apply Hsent. unfold session_get in Hget.
        destruct (session (trace st1) (SavePreferences sessionid results_per_page));
          injection Hget as _ <-; reflexivity.
    + exists rep, []. splits; [exact Htr | left; reflexivity | discriminate].
  - exists rep, []. splits; [exact Htr | left; reflexivity | discriminate].
Qed.

Lemma main_loop_searches session sessionid query_name_list :
  forall st out st',
    main_loop session sessionid query_name_list st = (out, st') ->
    exists t,
      trace st' = trace st ++ t
      /\ Forall (fun ev => exists name action,
                             In name query_name_list
                             /\ fst ev = Search sessionid name action) t.
Proof.
  induction query_name_list as [|query_name rest IH];
    intros st out st' H; cbn [main_loop] in H.
  - apply ret_run in H. destruct H as [_ ->]. exists [].
    rewrite app_nil_r. split; [reflexivity | constructor].
  - assert (Hhere : forall ev, searches sessionid query_name ev ->
               exists name action,
                 In name (query_name :: rest)
                 /\ fst ev = Search sessionid name action).
    { intros ev [action Hev]. exists query_name, action.
      split; [left; reflexivity | exact Hev]. }
    apply bind_run in H. destruct H as [([] & st1 & Hkey & H) | (e & Hkey & ->)];
      apply process_query_name_run in Hkey;
      destruct Hkey as (_ & _ & t1 & Htr1 & Hreq1 & _).
    + apply IH in H. destruct H as (t2 & Htr2 & Hreq2).
      exists (t1 ++ t2). split.
      * rewrite Htr2, Htr1. symmetry. apply app_assoc.
      * apply Forall_app. split.
        -- eapply Forall_impl; [|exact Hreq1]. exact Hhere.
        -- eapply Forall_impl; [|exact Hreq2]. cbn beta.
           intros ev (name & action & Hin & Hev). exists name, action.
           split; [right; exact Hin | exact Hev].
    + exists t1. split; [exact Htr1|].
      eapply Forall_impl; [|exact Hreq1]. exact Hhere.
Qed.

(** X10. A run opens with the root request.  Whatever follows uses
    the session id found in the reply to it: first the request for the
    preferences page, then the request that saves the page size, and
    after these only searches, each for an enumerated query name.  The
    session id is never asked for again. *)
Theorem X10_requests_follow_one_session :
  forall (alphabet : pystr) (name_length : nat) (session : session_t)
         (store : list sql_row),
    exists root_reply rest,
      trace (snd (run_with alphabet name_length session store))
      = (GetRoot, root_reply) :: rest
      /\ (rest = []
          \/ exists r n pref_reply rest2,
               root_reply = Reply r
               /\ sessionid_tag r = Some n
               /\ rest = (GetPreferences (Z.of_N n), pref_reply) :: rest2
               /\ (rest2 = []
                   \/ exists save_reply searches,
                        rest2 = (SavePreferences (Z.of_N n) results_per_page,
                                 save_reply) :: searches
                        /\ Forall (fun ev =>
                                     exists names name action,
                                       query_names alphabet name_length = Ok names
                                       /\ In name names
                                       /\ fst ev = Search (Z.of_N n) name action)
                                  searches)).
Proof.
  intros alphabet name_length session store. unfold run_with.
  destruct (main_inner_with alphabet name_length session (start store))
    as [out st'] eqn:H.
  cbn [snd]. unfold main_inner_with in H.
  apply bind_run in H. destruct H as [(sid & st1 & Hsid & H) | (e & Hsid & ->)];
    apply get_sessionid_trace in Hsid; destruct Hsid as (root_reply & Htr1 & Hok);
    cbn [start trace app] in Htr1; exists root_reply.
  2: { exists []. split; [exact Htr1 | left; reflexivity]. }
  destruct (Hok sid eq_refl) as (r & n & -> & Hn & ->). clear Hok.
  apply bind_run in H. destruct H as [([] & st2 & Hset & H) | (e & Hset & ->)];
    apply set_results_per_page_trace in Hset;
    destruct Hset as (pref_reply & more & Htr2 & Hmore & Hsaved);
    rewrite Htr1 in Htr2; cbn [app] in Htr2.
  2: { eexists. split; [exact Htr2|]. right.
       exists r, n, pref_reply, more. splits; try reflexivity; try assumption.
       destruct Hmore as [-> | [rep2 ->]]; [left; reflexivity|].
       right. exists rep2, []. split; [reflexivity | constructor]. }
  destruct Hmore as [-> | [save_reply ->]]; [exfalso; now apply Hsaved|].
  destruct (query_names alphabet name_length) as [query_name_list|e] eqn:Hnames.
  - apply main_loop_searches in H. destruct H as (t & Htr & Hreq).
    rewrite Htr2 in Htr. cbn [app] in Htr.
    eexists. split; [exact Htr|]. right.
    exists r, n, pref_reply. eexists. splits; try reflexivity; try assumption.
    right. exists save_reply, t. split; [reflexivity|].
    eapply Forall_impl; [|exact Hreq]. cbn beta.
    intros ev (name & action & Hin & Hev). exists query_name_list, name, action.
    auto.
  - apply raise_run in H. destruct H as [_ ->].
    eexists. split; [exact Htr2|]. right.
    exists r, n, pref_reply. eexists. splits; try reflexivity; try assumption.
    right. exists save_reply, []. split; [reflexivity | constructor].
Qed.

(** ** Which names a run searches *)

(** A round for a name without rows starts its search. *)
Lemma process_query_name_searched session sessionid query_name st out st' :
  process_query_name session sessionid query_name st = (out, st') ->
  has_key query_name (table (db st)) = false ->
  In (Search sessionid query_name BtnHidden) (requests st').
Proof.
  intros H Hkey. pose proof H as Hrun. apply process_query_name_run in Hrun.
  destruct Hrun as (_ & _ & t & Htr & _).
  unfold process_query_name in H.
  apply bind_run in H. destruct H as [(tab & st0 & Ht & H) | (e & Ht & _)];
    [|discriminate Ht].
  injection Ht as <- <-. rewrite Hkey in H.
  assert (Hsent : forall o st1,
             get_search_results session sessionid query_name 0 st = (o, st1) ->
             forall later, trace st' = trace st1 ++ later ->
             In (Search sessionid query_name BtnHidden) (requests st')).
  { intros o st1 Hget later Hlater.
    apply get_search_results_block in Hget.
    destruct Hget as (_ & block & Hblock & Hne & Hreq).
    destruct block as [|ev block]; [congruence|].
    apply Forall_inv in Hreq. unfold requests.
    rewrite Hlater, Hblock, !map_app. apply in_or_app. left.
    apply in_or_app. right. left. exact Hreq. }
  apply bind_run in H. destruct H as [([h r] & st1 & Hget & H) | (e & Hget & ->)].
  - destruct (h =? 0)%N.
    + apply ret_run in H. destruct H as [_ ->].
      apply (Hsent _ _ Hget []). symmetry. apply app_nil_r.
    + apply bind_run in H. destruct H as [([] & st2 & Hloop & H) | (e & Hloop & _)];
        apply page_loop_run in Hloop;
        destruct Hloop as [(_ & _ & t2 & Htr2 & _) _].
      * injection H as _ <-. cbn [trace]. apply (Hsent _ _ Hget t2 Htr2).
      * apply (Hsent _ _ Hget t2 Htr2).
  - apply (Hsent _ _ Hget []). symmetry. apply app_nil_r.
Qed.

Lemma main_loop_searched session sessionid query_name_list :
  forall st st',
    main_loop session sessionid query_name_list st = (Ok tt, st') ->
    pending (db st) = [] ->
    forall k, In k query_name_list ->
              has_key k (committed (db st)) = false ->
              In (Search sessionid k BtnHidden) (requests st').
Proof.
  induction query_name_list as [|query_name rest IH];
    intros st st' H Hopen k Hin Hkey; [destruct Hin|].
  cbn [main_loop] in H.
  apply bind_run in H. destruct H as [([] & st1 & Hround & H) | (e & _ & Hno)];
    [|discriminate Hno].
  assert (Hhead : has_key query_name (committed (db st)) = false ->
                  In (Search sessionid query_name BtnHidden) (requests st')).
  { intros Hq. apply process_query_name_searched in Hround.
    - apply main_loop_searches in H. destruct H as (t & Htr & _).
      unfold requests in *. rewrite Htr, map_app. apply in_or_app. left.
      exact Hround.
    - unfold table. rewrite Hopen, app_nil_r. exact Hq. }
  destruct Hin as [-> | Hin]; [exact (Hhead Hkey)|].
  apply process_query_name_keys in Hround; [|exact Hopen].
  destruct Hround as (ins & Hnames & _ & Hcom & Hpen).
  destruct (has_key k (committed (db st1))) eqn:Hk1.
  - rewrite Hcom, has_key_app, Hkey in Hk1. cbn [orb] in Hk1.
    unfold has_key in Hk1. apply existsb_exists in Hk1.
    destruct Hk1 as (r & Hr & Heq). apply pystr_eqb_eq in Heq.
    rewrite Forall_forall in Hnames. rewrite (Hnames r Hr) in Heq. subst k.
    exact (Hhead Hkey).
  - eapply IH; [exact H | exact Hpen | exact Hin | exact Hk1].
Qed.

(** X11. A run that ends normally has started a search for every
    enumerated query name that had no row in the store. *)
Theorem X11_normal_run_searches_every_missing_name :
  forall (alphabet : pystr) (name_length : nat) (session : session_t)
         (store : list sql_row) (names : list pystr) (k : pystr),
    fst (run_with alphabet name_length session store) = Ok tt ->
    query_names alphabet name_length = Ok names ->
    In k names ->
    has_key k store = false ->
    exists sessionid,
      In (Search sessionid k BtnHidden)
         (requests (snd (run_with alphabet name_length session store))).
Proof.
  intros alphabet name_length session store names k Hok Hnames Hin Hkey.
  unfold run_with in *.
  destruct (main_inner_with alphabet name_length session (start store))
    as [out st'] eqn:H.
  cbn [fst snd] in *. subst out. unfold main_inner_with in H.
  apply bind_run in H. destruct H as [(sid & st1 & Hsid & H) | (e & _ & Hno)];
    [|discriminate Hno].
  apply get_sessionid_run in Hsid. destruct Hsid as (Hdb1 & _).
  apply bind_run in H. destruct H as [([] & st2 & Hset & H) | (e & _ & Hno)];
    [|discriminate Hno].
  apply set_results_per_page_run in Hset. destruct Hset as (Hdb2 & _).
  rewrite Hnames in H. exists sid.
  eapply main_loop_searched;
    [exact H | rewrite Hdb2, Hdb1; reflexivity | exact Hin |].
  rewrite Hdb2, Hdb1. exact Hkey.
Qed.

Lemma X11_normal_run_searches_every_missing_name_witness :
  fst (run_with (py "a") 2 (sample_session (Some 4%N) (Some 15%N)) []) = Ok tt
  /\ query_names (py "a") 2 = Ok [py "aa"]
  /\ has_key (py "aa") [] = false
  /\ exists sessionid,
       In (Search sessionid (py "aa") BtnHidden)
          (requests (snd (run_with (py "a") 2
                            (sample_session (Some 4%N) (Some 15%N)) []))).
Proof.
  splits; [vm_compute; reflexivity | vm_compute; reflexivity | reflexivity |].
  apply (@X11_normal_run_searches_every_missing_name
           (py "a") 2%nat (sample_session (Some 4%N) (Some 15%N)) []
           [py "aa"] (py "aa")).
  - vm_compute. reflexivity.
  - vm_compute. reflexivity.
  - left. reflexivity.
  - reflexivity.
Defined.

(** ** Rows are written only for names with results *)

(** When a round changes the table, the search it started was
    answered with a result count other than zero. *)
Lemma process_query_name_results session sessionid query_name st out st' :
  process_query_name session sessionid query_name st = (out, st') ->
  table (db st') <> table (db st) ->
  exists rep,
    In (Search sessionid query_name BtnHidden, rep) (trace st')
    /\ reply_through rep = true
    /\ reply_has_results rep = true.
Proof.
  unfold process_query_name. intros H Hchanged.
  apply bind_run in H. destruct H as [(tab & st0 & Ht & H) | (e & Ht & _)];
    [|discriminate Ht].
  injection Ht as <- <-.
  destruct (has_key query_name (table (db st))).
  { apply ret_run in H. destruct H as [_ ->]. now destruct Hchanged. }
  apply bind_run in H. destruct H as [([h r] & st1 & Hget & H) | (e & Hget & _)].
  - apply get_search_results_run in Hget.
    destruct Hget as (Hdb & t0 & Htr0 & _ & _ & Hh & Hthrough & pre & -> & _).
    destruct (h =? 0)%N eqn:Hzero.
    { apply ret_run in H. destruct H as [_ ->]. rewrite Hdb in Hchanged.
      now destruct Hchanged. }
    assert (Hlater : exists later, trace st' = trace st1 ++ later).
    { apply bind_run in H. destruct H as [([] & st2 & Hloop & H) | (e & Hloop & _)];
        apply page_loop_run in Hloop;
        destruct Hloop as [(_ & _ & t2 & Htr2 & _) _]; exists t2.
      - injection H as _ <-. exact Htr2.
      - exact Htr2. }
    destruct Hlater as (later & Hlater).
    exists (Reply r). splits.
    + rewrite Hlater, Htr0. apply in_or_app. left. apply in_or_app. right.
      apply in_or_app. right. left. reflexivity.
    + exact Hthrough.
    + unfold reply_has_results. rewrite Hh, Hzero. reflexivity.
  - apply get_search_results_run in Hget. destruct Hget as (Hdb & _).
    rewrite Hdb in Hchanged. now destruct Hchanged.
Qed.

Lemma main_loop_results session sessionid query_name_list :
  forall st out st',
    main_loop session sessionid query_name_list st = (out, st') ->
    pending (db st) = [] ->
    exists added,
      table (db st') = table (db st) ++ added
      /\ Forall (fun row =>
                   exists rep,
                     In (Search sessionid (sql_query_name row) BtnHidden, rep)
                        (trace st')
                     /\ reply_through rep = true
                     /\ reply_has_results rep = true) added.
Proof.
  induction query_name_list as [|query_name rest IH];
    intros st out st' H Hopen; cbn [main_loop] in H.
  - apply ret_run in H. destruct H as [_ ->]. exists [].
    rewrite app_nil_r. split; [reflexivity | constructor].
  - assert (Hround : forall o st1,
               process_query_name session sessionid query_name st = (o, st1) ->
               exists ins,
                 table (db st1) = table (db st) ++ ins
                 /\ match o with Ok _ => pending (db st1) = [] | Raise _ => True end
                 /\ Forall (fun row =>
                              exists rep,
                                In (Search sessionid (sql_query_name row) BtnHidden,
                                    rep) (trace st1)
                                /\ reply_through rep = true
                                /\ reply_has_results rep = true) ins).
    { intros o st1 Hrun. pose proof Hrun as Hkeys.
      apply process_query_name_keys in Hkeys; [|exact Hopen].
      destruct Hkeys as (ins & Hnames & _ & Hcom).
      assert (Htab : table (db st1) = table (db st) ++ ins).
      { unfold table. rewrite Hopen, app_nil_r.
        destruct o; destruct Hcom as [-> ->]; [apply app_nil_r | reflexivity]. }
      exists ins. splits; [exact Htab | destruct o; [apply Hcom | exact I] |].
      destruct ins as [|row0 ins0]; [constructor|].
      apply process_query_name_results in Hrun.
      - apply Forall_forall. intros row Hrow.
        rewrite Forall_forall in Hnames. rewrite (Hnames row Hrow). exact Hrun.
      - rewrite Htab. intros Heq.
        apply (f_equal (@length sql_row)) in Heq.
        rewrite length_app in Heq. cbn [length] in Heq. lia. }
    apply bind_run in H. destruct H as [([] & st1 & Hkey & H) | (e & Hkey & ->)];
      apply Hround in Hkey; destruct Hkey as (ins & Htab1 & Hpen1 & Hins).
    + pose proof H as Htrace. apply main_loop_searches in Htrace.
      destruct Htrace as (t & Htr & _).
      apply IH in H; [|exact Hpen1]. destruct H as (added & Htab2 & Hadded).
      exists (ins ++ added). split.
      * rewrite Htab2, Htab1. symmetry. apply app_assoc.
      * apply Forall_app. split; [|exact Hadded].
        eapply Forall_impl; [|exact Hins]. cbn beta.
        intros row (rep & Hin & Hrep). exists rep. split; [|exact Hrep].
        rewrite Htr. apply in_or_app. left. exact Hin.
    + exists ins. split; assumption.
Qed.

(** X12. Every row a run adds to the table, committed or not, belongs
    to a query name whose search was answered, in that run, by a
    response that was through and reported a result count other than
    zero.  For a name the service finds nothing under, nothing is
    written, so nothing records that the name has been tried. *)
Theorem X12_rows_only_for_names_with_results :
  forall (alphabet : pystr) (name_length : nat) (session : session_t)
         (store : list sql_row),
    let result := run_with alphabet name_length session store in
    exists added,
      table (db (snd result)) = store ++ added
      /\ forall row, In row added ->
           exists sessionid rep,
             In (Search sessionid (sql_query_name row) BtnHidden, rep)
                (trace (snd result))
             /\ reply_through rep = true
             /\ reply_has_results rep = true.
Proof.
  intros alphabet name_length session store result. subst result.
  unfold run_with.
  destruct (main_inner_with alphabet name_length session (start store))
    as [out st'] eqn:H.
  cbn [fst snd]. unfold main_inner_with in H.
  assert (Hstart : table (db (start store)) = store)
    by (unfold table, start; cbn; apply app_nil_r).
  assert (Hquiet : db st' = db (start store) ->
             exists added,
               table (db st') = store ++ added
               /\ forall row, In row added ->
                    exists sessionid rep,
                      In (Search sessionid (sql_query_name row) BtnHidden, rep)
                         (trace st')
                      /\ reply_through rep = true
                      /\ reply_has_results rep = true).
  { intros ->. exists []. rewrite Hstart, app_nil_r.
    split; [reflexivity | intros row []]. }
  apply bind_run in H. destruct H as [(sid & st1 & Hsid & H) | (e & Hsid & _)];
    apply get_sessionid_run in Hsid; destruct Hsid as (Hdb1 & _);
    [|exact (Hquiet Hdb1)].
  apply bind_run in H. destruct H as [([] & st2 & Hset & H) | (e & Hset & _)];
    apply set_results_per_page_run in Hset; destruct Hset as (Hdb2 & _);
    [|apply Hquiet; congruence].
  assert (Hdb : db st2 = db (start store)) by congruence.
  destruct (query_names alphabet name_length) as [query_name_list|e].
  - apply main_loop_results in H; [|rewrite Hdb; reflexivity].
    rewrite Hdb, Hstart in H. destruct H as (added & Htab & Hadded).
    exists added. split; [exact Htab|]. intros row Hrow.
    rewrite Forall_forall in Hadded. exists sid. exact (Hadded row Hrow).
  - apply raise_run in H. destruct H as [_ ->]. exact (Hquiet Hdb).
Qed.

(** ** Repairing the encoding *)

Lemma encode_latin1_spec s :
  encode_latin1 s
  = if forallb (fun c => (c <=? 255)%N) s then Done s else Fails UnicodeEncodeError.
Proof.
  induction s as [|c s IH]; [reflexivity|].
  cbn [encode_latin1 forallb]. destruct (c <=? 255)%N; [|reflexivity].
  rewrite IH. cbn [andb]. destruct (forallb _ s); reflexivity.
Qed.

(** One round of the decoder: it gives up, or it decodes one character
    and goes on with what follows the bytes of that character. *)
Lemma decode_utf8_step b0 rest :
  decode_utf8 (b0 :: rest) = Fails UnicodeDecodeError
  \/ exists c rest',
       decode_utf8 (b0 :: rest) = decoded c (decode_utf8 rest')
       /\ (length rest' <= length rest)%nat.
Proof.
  cbn [decode_utf8].
  destruct (b0 <? 128)%N; [right; eauto|].
  destruct ((194 <=? b0) && (b0 <=? 223))%N.
  { destruct rest as [|b1 rest1]; [left; reflexivity|].
    destruct (is_continuation b1); [|left; reflexivity].
    right. do 2 eexists. split; [reflexivity | cbn [length]; lia]. }
  destruct ((224 <=? b0) && (b0 <=? 239))%N.
  { destruct rest as [|b1 [|b2 rest2]]; try (left; reflexivity).
    destruct (second_of_three b0 b1 && is_continuation b2); [|left; reflexivity].
    right. do 2 eexists. split; [reflexivity | cbn [length]; lia]. }
  destruct ((240 <=? b0) && (b0 <=? 244))%N; [|left; reflexivity].
  destruct rest as [|b1 [|b2 [|b3 rest3]]]; try (left; reflexivity).
  destruct (second_of_four b0 b1 && is_continuation b2 && is_continuation b3);
    [|left; reflexivity].
  right. do 2 eexists. split; [reflexivity | cbn [length]; lia].
Qed.

Lemma decode_utf8_bounds n :
  forall bytes,
    (length bytes <= n)%nat ->
    decode_utf8 bytes <> Fails UnicodeEncodeError
    /\ forall s, decode_utf8 bytes = Done s -> (length s <= length bytes)%nat.
Proof.
  induction n as [|n IH]; intros [|b0 rest] Hlen;
    try (cbn [length] in Hlen; lia);
    try (split; [discriminate | intros s Hs; injection Hs as <-; reflexivity]).
  destruct (decode_utf8_step b0 rest) as [-> | (c & rest' & -> & Hrest)].
  { split; discriminate. }
  cbn [length] in Hlen.
  destruct (IH rest' ltac:(lia)) as [Hno Hshort].
  destruct (decode_utf8 rest') as [s'|e]; cbn [decoded].
  - split; [discriminate|]. intros s Hs. injection Hs as <-.
    specialize (Hshort s' eq_refl). cbn [length]. lia.
  - split; [congruence | discriminate].
Qed.

Lemma decode_utf8_ascii s :
  Forall (fun c => (c < 128)%N) s -> decode_utf8 s = Done s.
Proof.
  induction 1 as [|c s Hc _ IH]; [reflexivity|].
  cbn [decode_utf8]. apply N.ltb_lt in Hc. rewrite Hc, IH. reflexivity.
Qed.

(** X13. [fix_encoding] raises UnicodeEncodeError exactly when its
    input has a character beyond latin1 (a code point above 255), and
    never raises UnicodeDecodeError.  A pure ASCII string comes back
    as it is, and no result is longer than the input. *)
Theorem X13_fix_encoding_fails_beyond_latin1 :
  forall input_str : pystr,
    (fix_encoding input_str = Fails UnicodeEncodeError
     <-> exists c, In c input_str /\ (255 < c)%N)
    /\ fix_encoding input_str <> Fails UnicodeDecodeError
    /\ (Forall (fun c => (c < 128)%N) input_str ->
        fix_encoding input_str = Done input_str)
    /\ (forall s, fix_encoding input_str = Done s ->
                  (length s <= length input_str)%nat).
Proof.
  intros input_str. unfold fix_encoding. cbv zeta.
  rewrite encode_latin1_spec.
  destruct (forallb (fun c => (c <=? 255)%N) input_str) eqn:Hlatin.
  - destruct (@decode_utf8_bounds (length input_str) input_str (le_n _))
      as [Hno Hshort].
    assert (Hall : forall c, In c input_str -> (c <= 255)%N).
    { intros c Hc. rewrite forallb_forall in Hlatin. apply N.leb_le, Hlatin, Hc. }
    splits.
    + split.
      * destruct (decode_utf8 input_str) as [s|[]]; try discriminate.
        now destruct Hno.
      * intros (c & Hc & Hbig). apply Hall in Hc. lia.
    + destruct (decode_utf8 input_str) as [s|[]]; discriminate.
    + intros Hascii. now rewrite decode_utf8_ascii.
    + intros s Hs. destruct (decode_utf8 input_str) as [s'|[]].
      * injection Hs as <-. now apply Hshort.
      * discriminate Hs.
      * injection Hs as <-. reflexivity.
  - splits.
    + split; [|reflexivity]. intros _.
      assert (Hex : existsb (fun c => negb (c <=? 255)%N) input_str = true).
      { clear -Hlatin. induction input_str as [|c s IH]; [discriminate|].
        cbn [forallb existsb] in *. destruct (c <=? 255)%N; cbn in *; auto. }
      apply existsb_exists in Hex. destruct Hex as (c & Hc & Hbig).
      exists c. split; [exact Hc|].
      apply negb_true_iff, N.leb_gt in Hbig. exact Hbig.
    + discriminate.
    + intros Hascii. exfalso.
      assert (forallb (fun c => (c <=? 255)%N) input_str = true); [|congruence].
      apply forallb_forall. intros c Hc. rewrite Forall_forall in Hascii.
      apply Hascii in Hc. apply N.leb_le. lia.
    + discriminate.
Qed.

(** The euro sign has no latin1 byte: the exception is not caught. *)
Example fix_encoding_euro_sign :
  fix_encoding [8364]%N = Fails UnicodeEncodeError.
Proof. vm_compute. reflexivity. Qed.

(** Settles the comparisons of a goal that the known bounds decide. *)
Ltac settle_comparisons :=
  repeat match goal with
    | |- context [(?a <? ?b)%N] =>
        first [ replace (a <? b)%N with true by (symmetry; apply N.ltb_lt; lia)
              | replace (a <? b)%N with false by (symmetry; apply N.ltb_ge; lia) ]
    | |- context [(?a <=? ?b)%N] =>
        first [ replace (a <=? b)%N with true by (symmetry; apply N.leb_le; lia)
              | replace (a <=? b)%N with false by (symmetry; apply N.leb_gt; lia) ]
    | |- context [(?a =? ?b)%N] =>
        first [ replace (a =? b)%N with true by (symmetry; apply N.eqb_eq; lia)
              | replace (a =? b)%N with false by (symmetry; apply N.eqb_neq; lia) ]
    end;
  cbn [andb orb negb].

(** The decoder reads the UTF-8 form of a code point back as that
    code point. *)
Lemma Some_eq {A} (a b : A) : Some a = Some b -> b = a.
Proof. congruence. Qed.

Lemma decode_utf8_char c bytes rest :
  utf8_bytes c = Some bytes ->
  decode_utf8 (bytes ++ rest) = decoded c (decode_utf8 rest).
Proof.
  unfold utf8_bytes.
  pose proof (N.div_mod c 64 ltac:(lia)) as Hc.
  pose proof (N.mod_lt c 64 ltac:(lia)) as Hr0.
  pose proof (N.div_mod (c / 64) 64 ltac:(lia)) as Ha.
  pose proof (N.mod_lt (c / 64) 64 ltac:(lia)) as Hr1.
  pose proof (N.div_mod (c / 64 / 64) 64 ltac:(lia)) as Hb.
  pose proof (N.mod_lt (c / 64 / 64) 64 ltac:(lia)) as Hr2.
  replace (c / 4096)%N with (c / 64 / 64)%N
    by (rewrite N.Div0.div_div; reflexivity).
  replace (c / 262144)%N with (c / 64 / 64 / 64)%N
    by (rewrite !N.Div0.div_div; reflexivity).
  remember (c mod 64)%N as r0 eqn:E0.
  remember ((c / 64) mod 64)%N as r1 eqn:E1.
  remember ((c / 64 / 64) mod 64)%N as r2 eqn:E2.
  remember (c / 64 / 64 / 64)%N as q3 eqn:E3.
  remember (c / 64 / 64)%N as q2 eqn:E4.
  remember (c / 64)%N as q1 eqn:E5.
  clear E0 E1 E2 E3 E4 E5.
  destruct (N.ltb_spec c 128) as [H1|H1].
  { intros Hb0. apply Some_eq in Hb0. subst bytes. cbn [app decode_utf8].
    settle_comparisons. reflexivity. }
  destruct (N.ltb_spec c 2048) as [H2|H2].
  { intros Hb0. apply Some_eq in Hb0. subst bytes. cbn [app decode_utf8].
    unfold is_continuation. settle_comparisons. f_equal. lia. }
  destruct (N.ltb_spec c 65536) as [H3|H3].
  { destruct (N.leb_spec 55296 c) as [H4|H4];
      [destruct (N.leb_spec c 57343) as [H5|H5]|]; cbn [andb];
      try discriminate;
      intros Hb0; apply Some_eq in Hb0; subst bytes; cbn [app decode_utf8];
      unfold second_of_three, is_continuation;
      destruct (N.eq_dec q2 0) as [Hz|Hz];
      try destruct (N.eq_dec q2 13) as [Hs|Hs];
      settle_comparisons; f_equal; lia. }
  destruct (N.ltb_spec c 1114112) as [H4|H4]; [|discriminate].
  intros Hb0. apply Some_eq in Hb0. subst bytes. cbn [app decode_utf8].
  unfold second_of_four, is_continuation.
  destruct (N.eq_dec q3 0) as [Hz|Hz];
    try destruct (N.eq_dec q3 4) as [Hs|Hs];
    settle_comparisons; f_equal; lia.
Qed.

(** The UTF-8 form of a code point consists of bytes. *)
Lemma utf8_bytes_latin1 c bytes :
  utf8_bytes c = Some bytes -> forallb (fun b => (b <=? 255)%N) bytes = true.
Proof.
  unfold utf8_bytes.
  pose proof (N.mod_lt c 64 ltac:(lia)) as Hr0.
  pose proof (N.mod_lt (c / 64) 64 ltac:(lia)) as Hr1.
  pose proof (N.mod_lt (c / 4096) 64 ltac:(lia)) as Hr2.
  assert (H64 : (c < 2048 -> c / 64 < 32)%N)
    by (intros; apply N.Div0.div_lt_upper_bound; lia).
  assert (H4096 : (c < 65536 -> c / 4096 < 16)%N)
    by (intros; apply N.Div0.div_lt_upper_bound; lia).
  assert (H262144 : (c < 1114112 -> c / 262144 < 5)%N)
    by (intros; apply N.Div0.div_lt_upper_bound; lia).
  remember (c mod 64)%N as r0 eqn:E0.
  remember ((c / 64) mod 64)%N as r1 eqn:E1.
  remember ((c / 4096) mod 64)%N as r2 eqn:E2.
  remember (c / 64)%N as q1 eqn:E3.
  remember (c / 4096)%N as q2 eqn:E4.
  remember (c / 262144)%N as q3 eqn:E5.
  clear E0 E1 E2 E3 E4 E5.
  destruct (N.ltb_spec c 128); [|destruct (N.ltb_spec c 2048);
    [|destruct (N.ltb_spec c 65536);
      [destruct ((55296 <=? c) && (c <=? 57343))%N
      |destruct (N.ltb_spec c 1114112)]]];
    try discriminate;
    intros Hb0; apply Some_eq in Hb0; subst bytes; cbn [forallb];
    settle_comparisons; reflexivity.
Qed.

Lemma encode_utf8_latin1 s :
  forall bytes,
    encode_utf8 s = Done bytes ->
    encode_latin1 (decode_latin1 bytes) = Done bytes.
Proof.
  unfold decode_latin1.
  induction s as [|c s IH]; intros bytes H; cbn [encode_utf8] in H.
  - injection H as <-. reflexivity.
  - destruct (utf8_bytes c) as [first|] eqn:Hc; [|discriminate H].
    destruct (encode_utf8 s) as [rest|e]; [|discriminate H].
    assert (bytes = first ++ rest) by congruence. subst bytes.
    apply utf8_bytes_latin1 in Hc.
    rewrite encode_latin1_spec, forallb_app, Hc.
    specialize (IH rest eq_refl). rewrite encode_latin1_spec in IH.
    destruct (forallb _ rest); [reflexivity | discriminate IH].
Qed.

Lemma decode_utf8_encode_utf8 s :
  forall bytes, encode_utf8 s = Done bytes -> decode_utf8 bytes = Done s.
Proof.
  induction s as [|c s IH]; intros bytes H; cbn [encode_utf8] in H.
  - injection H as <-. reflexivity.
  - destruct (utf8_bytes c) as [first|] eqn:Hc; [|discriminate H].
    destruct (encode_utf8 s) as [rest|e]; [|discriminate H].
    assert (bytes = first ++ rest) by congruence. subst bytes.
    rewrite (@decode_utf8_char c first rest Hc), (IH rest eq_refl). reflexivity.
Qed.

(** X14. [fix_encoding] undoes the damage it is written for: given
    the UTF-8 bytes of a text read as latin1 characters, it returns
    the text.  This holds for every text that has a UTF-8 form. *)
Theorem X14_fix_encoding_repairs_utf8_read_as_latin1 :
  forall (s : pystr) (bytes : list N),
    encode_utf8 s = Done bytes ->
    fix_encoding (decode_latin1 bytes) = Done s.
Proof.
  intros s bytes H. unfold fix_encoding. cbv zeta.
  rewrite (@encode_utf8_latin1 s bytes H), (@decode_utf8_encode_utf8 s bytes H).
  reflexivity.
Qed.

(** The example of the script: [M], [u] with diaeresis and [nchen],
    damaged to [M], [A] with tilde, the sign for one quarter and
    [nchen]. *)
Lemma X14_fix_encoding_repairs_utf8_read_as_latin1_witness :
  encode_utf8 [77; 252; 110; 99; 104; 101; 110]%N
  = Done [77; 195; 188; 110; 99; 104; 101; 110]%N
  /\ fix_encoding [77; 195; 188; 110; 99; 104; 101; 110]%N
     = Done [77; 252; 110; 99; 104; 101; 110]%N.
Proof.
  split; [vm_compute; reflexivity|].
  apply (@X14_fix_encoding_repairs_utf8_read_as_latin1
           [77; 252; 110; 99; 104; 101; 110]%N
           [77; 195; 188; 110; 99; 104; 101; 110]%N).
  vm_compute. reflexivity.
Defined.

(** The sequences the decoder accepts are the UTF-8 forms of the code
    points it reads from them. *)
Lemma add_sub_back a b : (a <= b)%N -> (a + (b - a))%N = b.
Proof. lia. Qed.

Lemma utf8_bytes_one b0 :
  (b0 < 128)%N -> utf8_bytes b0 = Some [b0].
Proof. intros H. unfold utf8_bytes. settle_comparisons. reflexivity. Qed.

Lemma utf8_bytes_two b0 b1 :
  ((194 <=? b0) && (b0 <=? 223))%N = true ->
  is_continuation b1 = true ->
  utf8_bytes ((b0 - 192) * 64 + (b1 - 128)) = Some [b0; b1].
Proof.
  unfold is_continuation. intros H0 H1.
  apply andb_prop in H0, H1. destruct H0 as [H0 H0'], H1 as [H1 H1'].
  apply N.leb_le in H0, H0', H1, H1'.
  remember ((b0 - 192) * 64 + (b1 - 128))%N as c eqn:Ec.
  assert (Hq : (c / 64 = b0 - 192)%N)
    by (symmetry; apply (N.div_unique c 64 _ (b1 - 128)); lia).
  assert (Hr : (c mod 64 = b1 - 128)%N)
    by (symmetry; apply (N.mod_unique c 64 (b0 - 192)); lia).
  unfold utf8_bytes. rewrite Hq, Hr. settle_comparisons.
  rewrite !add_sub_back by lia. reflexivity.
Qed.

Lemma utf8_bytes_three b0 b1 b2 :
  ((224 <=? b0) && (b0 <=? 239))%N = true ->
  second_of_three b0 b1 && is_continuation b2 = true ->
  utf8_bytes (((b0 - 224) * 64 + (b1 - 128)) * 64 + (b2 - 128))
  = Some [b0; b1; b2].
Proof.
  intros H0 H1. apply andb_prop in H0, H1.
  destruct H0 as [H0 H0'], H1 as [H1 H2].
  apply N.leb_le in H0, H0'.
  unfold is_continuation in H2. apply andb_prop in H2. destruct H2 as [H2 H2'].
  apply N.leb_le in H2, H2'.
  assert (Hb1 : (128 <= b1 <= 191
                 /\ (b0 = 224 -> 160 <= b1) /\ (b0 = 237 -> b1 <= 159))%N).
  { unfold second_of_three, is_continuation in H1.
    destruct (N.eqb_spec b0 224); [|destruct (N.eqb_spec b0 237)];
      apply andb_prop in H1; destruct H1 as [H1 H1'];
      apply N.leb_le in H1, H1'; lia. }
  clear H1.
  remember (((b0 - 224) * 64 + (b1 - 128)) * 64 + (b2 - 128))%N as c eqn:Ec.
  assert (Hq1 : (c / 64 = (b0 - 224) * 64 + (b1 - 128))%N)
    by (symmetry; apply (N.div_unique c 64 _ (b2 - 128)); lia).
  assert (Hr0 : (c mod 64 = b2 - 128)%N)
    by (symmetry; apply (N.mod_unique c 64 ((b0 - 224) * 64 + (b1 - 128))); lia).
  assert (Hq2 : (c / 4096 = b0 - 224)%N).
  { change 4096%N with (64 * 64)%N. rewrite <- N.Div0.div_div, Hq1.
    symmetry. apply (N.div_unique _ 64 _ (b1 - 128)); lia. }
  assert (Hr1 : ((c / 64) mod 64 = b1 - 128)%N)
    by (rewrite Hq1; symmetry; apply (N.mod_unique _ 64 (b0 - 224)); lia).
  unfold utf8_bytes. rewrite Hq2, Hr1, Hr0.
  destruct (N.lt_trichotomy b0 237) as [Hlow | [Hsur | Hhigh]];
    settle_comparisons; rewrite !add_sub_back by lia; reflexivity.
Qed.

Lemma utf8_bytes_four b0 b1 b2 b3 :
  ((240 <=? b0) && (b0 <=? 244))%N = true ->
  second_of_four b0 b1 && is_continuation b2 && is_continuation b3 = true ->
  utf8_bytes ((((b0 - 240) * 64 + (b1 - 128)) * 64 + (b2 - 128)) * 64 + (b3 - 128))
  = Some [b0; b1; b2; b3].
Proof.
  intros H0 H1. apply andb_prop in H0, H1.
  destruct H0 as [H0 H0'], H1 as [H1 H3].
  apply andb_prop in H1. destruct H1 as [H1 H2].
  apply N.leb_le in H0, H0'.
  unfold is_continuation in H2, H3. apply andb_prop in H2, H3.
  destruct H2 as [H2 H2'], H3 as [H3 H3'].
  apply N.leb_le in H2, H2', H3, H3'.
  assert (Hb1 : (128 <= b1 <= 191
                 /\ (b0 = 240 -> 144 <= b1) /\ (b0 = 244 -> b1 <= 143))%N).
  { unfold second_of_four, is_continuation in H1.
    destruct (N.eqb_spec b0 240); [|destruct (N.eqb_spec b0 244)];
      apply andb_prop in H1; destruct H1 as [H1 H1'];
      apply N.leb_le in H1, H1'; lia. }
  clear H1.
  remember ((((b0 - 240) * 64 + (b1 - 128)) * 64 + (b2 - 128)) * 64 + (b3 - 128))%N
    as c eqn:Ec.
  assert (Hq1 : (c / 64 = ((b0 - 240) * 64 + (b1 - 128)) * 64 + (b2 - 128))%N)
    by (symmetry; apply (N.div_unique c 64 _ (b3 - 128)); lia).
  assert (Hr0 : (c mod 64 = b3 - 128)%N)
    by (symmetry;
        apply (N.mod_unique c 64
                 (((b0 - 240) * 64 + (b1 - 128)) * 64 + (b2 - 128))); lia).
  assert (Hq2 : (c / 4096 = (b0 - 240) * 64 + (b1 - 128))%N).
  { change 4096%N with (64 * 64)%N. rewrite <- N.Div0.div_div, Hq1.
    symmetry. apply (N.div_unique _ 64 _ (b2 - 128)); lia. }
  assert (Hr1 : ((c / 64) mod 64 = b2 - 128)%N)
    by (rewrite Hq1; symmetry;
        apply (N.mod_unique _ 64 ((b0 - 240) * 64 + (b1 - 128))); lia).
  assert (Hq3 : (c / 262144 = b0 - 240)%N).
  { change 262144%N with (4096 * 64)%N. rewrite <- N.Div0.div_div, Hq2.
    symmetry. apply (N.div_unique _ 64 _ (b1 - 128)); lia. }
  assert (Hr2 : ((c / 4096) mod 64 = b1 - 128)%N)
    by (rewrite Hq2; symmetry; apply (N.mod_unique _ 64 (b0 - 240)); lia).
  unfold utf8_bytes. rewrite Hq3, Hr2, Hr1, Hr0.
  settle_comparisons. rewrite !add_sub_back by lia. reflexivity.
Qed.

Lemma decoded_done c rest t :
  decoded c rest = Done t -> exists t', rest = Done t' /\ t = c :: t'.
Proof.
  destruct rest as [t'|e]; cbn [decoded]; [|discriminate].
  intros H. injection H as <-. eauto.
Qed.

(** One accepted round of the decoder: it took the UTF-8 form of the
    code point it read. *)
Lemma decode_utf8_accepts b0 rest t :
  decode_utf8 (b0 :: rest) = Done t ->
  exists c first rest' t',
    b0 :: rest = first ++ rest'
    /\ utf8_bytes c = Some first
    /\ decode_utf8 rest' = Done t'
    /\ t = c :: t'
    /\ (length rest' <= length rest)%nat.
Proof.
  cbn [decode_utf8]. intros H.
  destruct (b0 <? 128)%N eqn:H1.
  { apply decoded_done in H. destruct H as (t' & H & ->).
    exists b0, [b0], rest, t'. splits; auto.
    apply utf8_bytes_one, N.ltb_lt, H1. }
  destruct ((194 <=? b0) && (b0 <=? 223))%N eqn:H2.
  { destruct rest as [|b1 rest1]; [discriminate H|].
    destruct (is_continuation b1) eqn:Hb1; [|discriminate H].
    apply decoded_done in H. destruct H as (t' & H & ->).
    eexists; exists [b0; b1], rest1, t'. splits;
      [reflexivity | now apply utf8_bytes_two | exact H | reflexivity
      | cbn [length]; lia]. }
  destruct ((224 <=? b0) && (b0 <=? 239))%N eqn:H3.
  { destruct rest as [|b1 [|b2 rest2]]; try discriminate H.
    destruct (second_of_three b0 b1 && is_continuation b2) eqn:Hb;
      [|discriminate H].
    apply decoded_done in H. destruct H as (t' & H & ->).
    eexists; exists [b0; b1; b2], rest2, t'. splits;
      [reflexivity | now apply utf8_bytes_three | exact H | reflexivity
      | cbn [length]; lia]. }
  destruct ((240 <=? b0) && (b0 <=? 244))%N eqn:H4; [|discriminate H].
  destruct rest as [|b1 [|b2 [|b3 rest3]]]; try discriminate H.
  destruct (second_of_four b0 b1 && is_continuation b2 && is_continuation b3)
    eqn:Hb; [|discriminate H].
  apply decoded_done in H. destruct H as (t' & H & ->).
  eexists; exists [b0; b1; b2; b3], rest3, t'. splits;
    [reflexivity | now apply utf8_bytes_four | exact H | reflexivity
    | cbn [length]; lia].
Qed.

Lemma encode_utf8_decode_utf8 n :
  forall bytes t,
    (length bytes <= n)%nat ->
    decode_utf8 bytes = Done t -> encode_utf8 t = Done bytes.
Proof.
  induction n as [|n IH]; intros [|b0 rest] t Hlen H;
    try (cbn [length] in Hlen; lia);
    try (injection H as <-; reflexivity).
  apply decode_utf8_accepts in H.
  destruct H as (c & first & rest' & t' & Hsplit & Hc & Hrest & -> & Hshort).
  cbn [length] in Hlen.
  cbn [encode_utf8]. rewrite Hc, (IH rest' t' ltac:(lia) Hrest), Hsplit.
  reflexivity.
Qed.

(** X15. What [fix_encoding] returns is the text whose UTF-8 form the
    input is, read as latin1 bytes, whenever there is such a text;
    and the input itself when there is none.  So a latin1 text that
    happens to be well-formed UTF-8 is changed. *)
Theorem X15_fix_encoding_reads_input_as_utf8 :
  forall input_str t : pystr,
    fix_encoding input_str = Done t ->
    encode_utf8 t = Done input_str
    \/ (t = input_str /\ forall t', encode_utf8 t' <> Done input_str).
Proof.
  intros input_str t. unfold fix_encoding. cbv zeta.
  rewrite encode_latin1_spec.
  destruct (forallb (fun c => (c <=? 255)%N) input_str); [|discriminate].
  destruct (decode_utf8 input_str) as [s|e] eqn:Hdec.
  - intros H. injection H as <-. left.
    exact (@encode_utf8_decode_utf8 (length input_str) input_str s (le_n _) Hdec).
  - destruct e; [discriminate|]. intros H. injection H as <-. right.
    split; [reflexivity|]. intros t' Henc.
    apply decode_utf8_encode_utf8 in Henc. congruence.
Qed.

(** A lone latin1 [u] with diaeresis is no UTF-8 and stays. *)
Lemma X15_fix_encoding_reads_input_as_utf8_witness :
  fix_encoding [252]%N = Done [252]%N
  /\ (encode_utf8 [252]%N = Done [252]%N
      \/ ([252]%N = [252]%N /\ forall t', encode_utf8 t' <> Done [252]%N)).
Proof.
  split; [vm_compute; reflexivity|].
  apply (@X15_fix_encoding_reads_input_as_utf8 [252]%N [252]%N).
  vm_compute. reflexivity.
Defined.

(** [A] with tilde followed by the sign for one quarter is read as
    UTF-8: a latin1 text of two characters becomes one character. *)
Example fix_encoding_changes_latin1_text :
  fix_encoding [195; 188]%N = Done [252]%N.
Proof. vm_compute. reflexivity. Qed.

(** ** Stored field values *)

Lemma lstrip_split s :
  exists lead, s = lead ++ lstrip s /\ forallb py_isspace lead = true.
Proof.
  induction s as [|c s (lead & IH & Hlead)]; [exists []; auto|].
  cbn [lstrip]. destruct (py_isspace c) eqn:Hc.
  - exists (c :: lead). cbn [app forallb]. rewrite Hc, Hlead. split; [|reflexivity].
    f_equal. exact IH.
  - exists []. auto.
Qed.

Lemma lstrip_head s c rest : lstrip s = c :: rest -> py_isspace c = false.
Proof.
  induction s as [|c0 s IH]; cbn [lstrip]; [discriminate|].
  destruct (py_isspace c0) eqn:Hc0; [exact IH|].
  intros H. injection H as <- _. exact Hc0.
Qed.

Lemma rstrip_split t :
  exists trail, t = rstrip t ++ trail /\ forallb py_isspace trail = true.
Proof.
  destruct (lstrip_split (rev t)) as (ws & Hsplit & Hws).
  exists (rev ws). split; [|now rewrite forallb_rev].
  unfold rstrip. rewrite <- rev_app_distr, <- Hsplit. symmetry. apply rev_involutive.
Qed.

Lemma rstrip_last t front c : rstrip t = front ++ [c] -> py_isspace c = false.
Proof.
  unfold rstrip. intros H. apply (f_equal (@rev N)) in H.
  rewrite rev_involutive, rev_app_distr in H. cbn [rev app] in H.
  eapply lstrip_head, H.
Qed.

(** X16. A field value that is stored is the text of the field's first
    element without its leading and its trailing whitespace, and
    nothing else is taken away: the text is whitespace, the value,
    whitespace, and the value neither starts nor ends with a
    whitespace character. *)
Theorem X16_stored_value_is_text_without_surrounding_whitespace :
  forall (address_elem : element) (col value : pystr),
    column_value address_elem col = Some value ->
    exists elem text lead trail,
      find col address_elem = Some elem
      /\ el_text elem = Some text
      /\ text = lead ++ value ++ trail
      /\ forallb py_isspace lead = true
      /\ forallb py_isspace trail = true
      /\ (forall c rest, value = c :: rest -> py_isspace c = false)
      /\ (forall front c, value = front ++ [c] -> py_isspace c = false).
Proof.
  intros address_elem col value. unfold column_value.
  destruct (find col address_elem) as [elem|] eqn:Hfind; [|discriminate].
  destruct (el_text elem) as [text|] eqn:Htext; [|discriminate].
  destruct (str_bool text); [|discriminate].
  intros H. injection H as <-.
  destruct (lstrip_split text) as (lead & Hlead & Hws1).
  destruct (rstrip_split (lstrip text)) as (trail & Htrail & Hws2).
  exists elem, text, lead, trail. unfold strip. splits; auto.
  - exact (eq_trans Hlead (f_equal (app lead) Htrail)).
  - intros c rest Hv. rewrite Hv in Htrail. cbn [app] in Htrail.
    eapply lstrip_head, Htrail.
  - intros front c Hv. eapply rstrip_last, Hv.
Qed.

Lemma X16_stored_value_is_text_without_surrounding_whitespace_witness :
  column_value sample_single (py "name0") = Some (py "Beispiel")
  /\ exists elem text lead trail,
       find (py "name0") sample_single = Some elem
       /\ el_text elem = Some text
       /\ text = lead ++ py "Beispiel" ++ trail
       /\ forallb py_isspace lead = true
       /\ forallb py_isspace trail = true
       /\ (forall c rest, py "Beispiel" = c :: rest -> py_isspace c = false)
       /\ (forall front c, py "Beispiel" = front ++ [c] -> py_isspace c = false).
Proof.
  split; [vm_compute; reflexivity|].
  apply (@X16_stored_value_is_text_without_surrounding_whitespace
           sample_single (py "name0") (py "Beispiel")).
  vm_compute. reflexivity.
Defined.
